(** * politeiavoter: a shallow embedding of the vote trickler, its journal
      and its verifier

    The development follows [politeiawww/cmd/politeiavoter/politeiavoter.go].
    Go values are modelled as follows:
    - [string] is Rocq's [string]; [[]byte] bodies are kept as [string] too;
    - [uint64] (vote bits) is [N], and the conversions that depend on
      its width carry the bound [2^64 - 1] themselves; [int] (HTTP status
      codes, permission bits) is [Z], a length or a counter is [nat];
    - Go maps keyed by strings are stdpp [gmap string _];
    - [container/list] queues are Rocq lists, front of the queue first;
    - a function returning [(T, error)] returns [result T];
    - calls that leave the process (HTTP transport, wallet RPC, the clock,
      the kernel's file table) are inputs of the function that performs
      them: fields of the client context, of the wallet, or of the round of
      the main loop in which they happen;
    - the main loop of the trickler is followed on its own: what wakes it
      from a wait (the timer, the shutdown signal, the retry loop forcing
      an exit) is an input of each round, the signals it sends are
      recorded in the order they are sent, and the retry queue changes
      only when the main loop pushes onto it.  The retry loop itself is
      not among the source files. *)

From Stdlib Require Import ZArith NArith Lia List String Ascii.
From stdpp Require Import gmap strings list fin_maps.

Local Open Scope N_scope.

(* ===================================================================== *)
(** ** Results and errors                                                *)
(* ===================================================================== *)

(** [type ErrRetry struct { At string; Body []byte; Code int; Err interface{} }] *)
Module ErrRetry.
Record t := mk {
  At   : string;          (* where in the code *)
  Body : string;          (* http body if we have one *)
  Code : Z;               (* http code *)
  Err  : option string    (* underlying error, [None] is Go's nil *)
}.
End ErrRetry.

(** The values of Go's [error] interface that the voter produces.  Plain
    errors are what [fmt.Errorf] and the libraries return; [Retry] wraps
    an [ErrRetry] value.  [errors.As(err, &e)] with [e : ErrRetry]
    succeeds on [Retry] only: no error in this file wraps another. *)
Inductive error :=
| Plain (msg : string)
| Retry (e : ErrRetry.t)
| ErrSyntax (fn s : string)       (* strconv.NumError with ErrSyntax *)
| ErrRange (fn s : string).       (* strconv.NumError with ErrRange  *)

Inductive result (A : Type) :=
| Ok (a : A)
| Fail (e : error).
Arguments Ok {A} a.
Arguments Fail {A} e.

Definition errorsAsErrRetry (e : error) : option ErrRetry.t :=
  match e with
  | Retry r => Some r
  | _ => None
  end.

(* ===================================================================== *)
(** ** strconv: FormatUint and ParseUint                                 *)
(* ===================================================================== *)

Module strconv.

(** [const digits = "0123456789abcdefghijklmnopqrstuvwxyz"] restricted
    to the sixteen entries a base-16 conversion indexes. *)
Definition digits (d : N) : ascii :=
  match d with
  | 0 => "0" | 1 => "1" | 2 => "2" | 3 => "3" | 4 => "4"
  | 5 => "5" | 6 => "6" | 7 => "7" | 8 => "8" | 9 => "9"
  | 10 => "a" | 11 => "b" | 12 => "c" | 13 => "d" | 14 => "e"
  | _ => "f"
  end%char.

(** The power-of-two branch of [formatBits]:
    [for u >= b { i--; a[i] = digits[uint(u)&m]; u >>= shift }]
    followed by [i--; a[i] = digits[uint(u)]].  The buffer is filled
    from its end, so the digits are consed onto [acc].  A [uint64] has
    at most sixteen hexadecimal digits, which bounds the loop. *)
Fixpoint formatBits16 (fuel : nat) (u : N) (acc : string) : string :=
  match fuel with
  | O => String (digits (N.land u 15)) acc
  | S fuel' =>
      if 16 <=? u
      then formatBits16 fuel' (N.shiftr u 4)
                        (String (digits (N.land u 15)) acc)
      else String (digits u) acc
  end.

(** [strconv.FormatUint(i, 16)] *)
Definition FormatUint16 (i : N) : string := formatBits16 15 i EmptyString.

(** The value of a base-10 digit, [None] for any other byte. *)
Definition decDigit (c : ascii) : option N :=
  let n := N_of_ascii c in
  if (48 <=? n) && (n <=? 57) then Some (n - 48) else None.

Definition maxUint64 : N := 2 ^ 64 - 1.

(** The digit loop of [ParseUint] for base 10 and bit size 64:
    a byte that is not a decimal digit is a syntax error, and a value
    beyond [maxUint64] is a range error. *)
Fixpoint parseLoop (s0 s : string) (n : N) : result N :=
  match s with
  | EmptyString => Ok n
  | String c rest =>
      match decDigit c with
      | None => Fail (ErrSyntax "ParseUint" s0)
      | Some d =>
          if maxUint64 / 10 + 1 <=? n then Fail (ErrRange "ParseUint" s0)
          else
            let n1 := n * 10 + d in
            if maxUint64 <? n1 then Fail (ErrRange "ParseUint" s0)
            else parseLoop s0 rest n1
      end
  end.

(** [strconv.ParseUint(s, 10, 64)] *)
Definition ParseUint10 (s : string) : result N :=
  match s with
  | EmptyString => Fail (ErrSyntax "ParseUint" s)
  | _ => parseLoop s s 0
  end.

End strconv.

(** [fmt]'s [%v] of an integer: its decimal digits, with a sign when it
    is negative.  Twenty digits suffice for a 64-bit value. *)
Fixpoint formatDec (fuel : nat) (u : N) (acc : string) : string :=
  match fuel with
  | O => acc
  | S fuel' =>
      let acc' := String (strconv.digits (u mod 10)) acc in
      if u <? 10 then acc' else formatDec fuel' (u / 10) acc'
  end.

Definition sprintInt (z : Z) : string :=
  if (z <? 0)%Z then String "-"%char (formatDec 20 (Z.abs_N z) EmptyString)
  else formatDec 20 (Z.abs_N z) EmptyString.






(* ===================================================================== *)
(** ** The ticketvote API types the voter reads and writes               *)
(* ===================================================================== *)

Module CastVote.
(** [tkv1.CastVote] *)
Record t := mk {
  Token     : string;
  Ticket    : string;
  VoteBit   : string;   (* vote bit, hex encoded *)
  Signature : string
}.
End CastVote.

Module CastVoteReply.
(** [tkv1.CastVoteReply]: the receipt of one cast vote. *)
Record t := mk {
  Ticket       : string;
  Receipt      : string;
  ErrorCode    : N;
  ErrorContext : string
}.
End CastVoteReply.

Module CastBallot.
(** [tkv1.CastBallot] *)
Record t := mk { Votes : list CastVote.t }.
End CastBallot.

Module CastBallotReply.
(** [tkv1.CastBallotReply] *)
Record t := mk { Receipts : list CastVoteReply.t }.
End CastBallotReply.

Module UserErrorReply.
(** [tkv1.UserErrorReply] *)
Record t := mk {
  ErrorCode    : N;
  ErrorContext : string
}.
End UserErrorReply.

Module CastVoteDetails.
(** [tkv1.CastVoteDetails]: a vote as the server recorded it. *)
Record t := mk {
  Token     : string;
  Ticket    : string;
  VoteBit   : string;
  Signature : string;
  Receipt   : string
}.
End CastVoteDetails.

Module VoteOption.
(** [tkv1.VoteOption] *)
Record t := mk {
  ID          : string;
  Description : string;
  Bit         : N
}.
End VoteOption.

(** [type voteInterval struct { Vote tkv1.CastVote; At time.Duration }] *)
Module voteInterval.
Record t := mk {
  Vote : CastVote.t;
  At   : Z
}.
End voteInterval.

(** [type retry struct]: the main loop only ever sets its [vote] field. *)
Module retry.
Record t := mk { vote : CastVote.t }.
End retry.

(* ===================================================================== *)
(** ** Choosing the vote bit ([_vote]) and counting votes ([tally])      *)
(* ===================================================================== *)

(** The "Validate voteId" loop of [_vote]: the first option whose [ID] is
    [voteID] gives [voteBit = strconv.FormatUint(vv.Bit, 16)]; no such
    option is the error "vote id not found". *)
Fixpoint voteBitOf (options : list VoteOption.t) (voteID : string)
  : result string :=
  match options with
  | [] => Fail (Plain ("vote id not found: " +:+ voteID))
  | vv :: rest =>
      if String.eqb (VoteOption.ID vv) voteID
      then Ok (strconv.FormatUint16 (VoteOption.Bit vv))
      else voteBitOf rest voteID
  end.



(** The "tally votes" loop of [tally]:
    [bits, err := strconv.ParseUint(v.VoteBit, 10, 64)], return on error,
    else [count[bits]++; total++]. *)
Fixpoint tallyVotes (votes : list CastVoteDetails.t)
         (count : gmap N nat) (total : nat) : result (gmap N nat * nat) :=
  match votes with
  | [] => Ok (count, total)
  | v :: rest =>
      match strconv.ParseUint10 (CastVoteDetails.VoteBit v) with
      | Fail e => Fail e
      | Ok bits =>
          tallyVotes rest (<[bits := S (default O (count !! bits))]> count)
                     (S total)
      end
  end.

(** [tally], from the votes and the options the server returned: the
    number of votes received by each option, in the order of the
    options, or the first error. *)
Definition tally (votes : list CastVoteDetails.t)
           (options : list VoteOption.t) : result (list (VoteOption.t * nat)) :=
  match tallyVotes votes ∅ O with
  | Fail e => Fail e
  | Ok (count, total) =>
      if Nat.eqb total 0 then Fail (Plain "no votes recorded")
      else Ok (map (fun vo => (vo, default O (count !! VoteOption.Bit vo)))
                   options)
  end.

(* ===================================================================== *)
(** ** The HTTP client: [makeRequest] and [sendVote]                     *)
(* ===================================================================== *)

Module http.
Definition MethodGet : string := "GET".
Definition MethodPost : string := "POST".
Definition StatusOK : Z := 200.
Definition StatusBadRequest : Z := 400.

(** The part of [http.Request] that [makeRequest] sets. *)
Record Request := mkRequest {
  Method    : string;
  URL       : string;
  ReqBody   : string;
  UserAgent : string
}.

(** The part of [http.Response] that [makeRequest] reads; [Body] is the
    result of [util.ConvertBodyToByteArray(r.Body, false)]. *)
Record Response := mkResponse {
  StatusCode : Z;
  Body       : string
}.
End http.

(** The client context [c *ctx], as far as the HTTP requests go: its
    configuration, and the calls it makes outside the process. *)
Record ctx := mkCtx {
  (** The request value [b interface{}]; [None] is Go's nil. *)
  payload : Type;
  (** [schema.NewEncoder().Encode(b, form)] followed by [form.Encode()]. *)
  schemaEncode : payload -> result string;
  (** [json.Marshal(b)] *)
  jsonMarshal : payload -> result string;
  (** [http.NewRequestWithContext(c.wctx, method, fullRoute, body)]:
      the error it returns for a malformed method or URL, if any. *)
  newRequestError : string -> string -> option error;
  (** [c.client.Do(req)]: the transport fails with an error message, or a
      response arrives. *)
  clientDo : http.Request -> string + http.Response;
  (** [json.Unmarshal(responseBody, &ue)]: [None] when it returns an error. *)
  unmarshalUserErrorReply : string -> option UserErrorReply.t;
  (** [json.Unmarshal(responseBody, &vr)] for a [tkv1.CastBallotReply]:
      the error message, or the decoded reply. *)
  unmarshalCastBallotReply : string -> string + CastBallotReply.t;
  (** The table [tkv1.ErrorCodes]. *)
  ErrorCodes : N -> string;
  (** [c.cfg.PoliteiaWWW] and [c.userAgent]. *)
  PoliteiaWWW : string;
  userAgent : string;
  (** [tkv1.APIRoute] and [tkv1.RouteCastBallot]. *)
  APIRoute : string;
  RouteCastBallot : string;
  (** How a ballot is passed as the request value. *)
  ballotPayload : CastBallot.t -> payload
}.

Section Client.

Variable c : ctx.

(** The first block of [makeRequest]: the request body and the query
    parameters, from the method and the request value. *)
Definition encodeRequest (method : string) (b : option (payload c))
  : result (string * string) :=
  match b with
  | None => Ok (EmptyString, EmptyString)
  | Some b =>
      if String.eqb method http.MethodGet then
        match schemaEncode c b with
        | Fail e => Fail e
        | Ok form => Ok (EmptyString, "?" +:+ form)
        end
      else
        match jsonMarshal c b with
        | Fail e => Fail e
        | Ok body => Ok (body, EmptyString)
        end
  end.

(** The [switch r.StatusCode] of [makeRequest]. *)
Definition classifyResponse (r : http.Response) : result string :=
  let responseBody := http.Body r in
  if Z.eqb (http.StatusCode r) http.StatusOK then
    (* Nothing to do. Continue. *)
    Ok responseBody
  else if Z.eqb (http.StatusCode r) http.StatusBadRequest then
    match unmarshalUserErrorReply c responseBody with
    | Some ue =>
        if negb (N.eqb (UserErrorReply.ErrorCode ue) 0) then
          Fail (Plain (sprintInt (http.StatusCode r) +:+ ", " +:+
                       ErrorCodes c (UserErrorReply.ErrorCode ue) +:+ " " +:+
                       UserErrorReply.ErrorContext ue))
        else Ok responseBody
    | None => Ok responseBody
    end
  else
    (* Retry all other errors *)
    Fail (Retry {| ErrRetry.At := "r.StatusCode != http.StatusOK";
                   ErrRetry.Err := None;
                   ErrRetry.Body := responseBody;
                   ErrRetry.Code := http.StatusCode r |}).

(** [makeRequest] up to the call of [c.client.Do]: the request it
    builds, or the error it returns before anything is sent. *)
Definition buildRequest (method api route : string) (b : option (payload c))
  : result http.Request :=
  match encodeRequest method b with
  | Fail e => Fail e
  | Ok (requestBody, queryParams) =>
      let fullRoute := (PoliteiaWWW c) +:+ api +:+ route +:+ queryParams in
      match newRequestError c method fullRoute with
      | Some e => Fail e
      | None => Ok (http.mkRequest method fullRoute requestBody (userAgent c))
      end
  end.

(** [makeRequest]: the response body, or an error. *)
Definition makeRequest (method api route : string) (b : option (payload c))
  : result string :=
  match buildRequest method api route b with
  | Fail e => Fail e
  | Ok req =>
      match clientDo c req with
      | inl err =>
          Fail (Retry {| ErrRetry.At := "c.client.Do(req)";
                         ErrRetry.Err := Some err;
                         ErrRetry.Body := EmptyString;
                         ErrRetry.Code := 0 |})
      | inr r => classifyResponse r
      end
  end.

(** [sendVote]: a ballot in, one [tkv1.CastVoteReply] or an error out. *)
Definition sendVote (ballot : CastBallot.t) : result CastVoteReply.t :=
  if negb (Nat.eqb (length (CastBallot.Votes ballot)) 1) then
    Fail (Plain "sendVote: only one vote allowed")
  else
    match makeRequest http.MethodPost (APIRoute c) (RouteCastBallot c)
                      (Some (ballotPayload c ballot)) with
    | Fail e => Fail e
    | Ok responseBody =>
        match unmarshalCastBallotReply c responseBody with
        | inl err =>
            Fail (Plain ("Could not unmarshal CastVoteReply: " +:+ err))
        | inr vr =>
            if negb (Nat.eqb (length (CastBallotReply.Receipts vr)) 1) then
              (* Should be impossible *)
              Fail (Plain "sendVote: received multiple answers")
            else
              match CastBallotReply.Receipts vr with
              | r :: _ => Ok r
              | [] => Fail (Plain "index out of range")
              end
        end
    end.

(** [sendVoteFail]: the test hook that fails every ballot retryably. *)
Definition sendVoteFail (ballot : CastBallot.t) : result CastVoteReply.t :=
  Fail (Retry {| ErrRetry.At := "sendVoteFail"; ErrRetry.Err := None;
                 ErrRetry.Body := EmptyString; ErrRetry.Code := 0 |}).

End Client.

(* ===================================================================== *)
(** ** The journal: [jsonLog]                                            *)
(* ===================================================================== *)

Definition failedJournal : string := "failed.json".
Definition successJournal : string := "success.json".
Definition workJournal : string := "work.json".

(** [type JSONTime struct { Time string }] *)
Module JSONTime.
Record t := mk { Time : string }.
End JSONTime.

(** The values the voter hands to [jsonLog] as [work ...interface{}],
    and the time marker [jsonLog] puts in front of them. *)
Inductive journalValue :=
| JTime (t : JSONTime.t)
| JBallot (b : CastBallot.t)
| JErrRetry (e : ErrRetry.t)
| JReply (r : CastVoteReply.t)
| JWork (w : list voteInterval.t).

(** The files and directories below the vote directory.  A file is its
    permission bits and the sequence of JSON values written to it. *)
Module os.

Definition O_WRONLY : Z := 1.
Definition O_CREATE : Z := 64.
Definition O_APPEND : Z := 1024.

Record File := mkFile {
  perm    : Z;
  content : list journalValue
}.

Record FS := mkFS {
  dirs  : gmap string Z;       (* directory path to permission bits *)
  files : gmap string File
}.

(** An open file: its path, the flags it was opened with, and the
    offset of the next write, counted in values. *)
Record Handle := mkHandle {
  name   : string;
  flag   : Z;
  offset : nat
}.

(** [os.MkdirAll(path, perm)]: an existing directory is left as it is,
    a missing one is created with [perm].  [allowed] tells whether the
    kernel lets the directory be created. *)
Definition MkdirAll (allowed : bool) (path : string) (perm : Z) (fs : FS) : FS :=
  match dirs fs !! path with
  | Some _ => fs
  | None => if allowed then mkFS (<[path := perm]> (dirs fs)) (files fs)
            else fs
  end.

(** [os.OpenFile(name, flag, perm)] for a file directly in [dir]: the
    directory has to exist; a missing file is created with [perm] when
    [O_CREATE] is set and is an error otherwise.  [denied] is the error
    the kernel returns for other reasons, if any. *)
Definition OpenFile (denied : option error) (dir name : string)
           (flag perm : Z) (fs : FS) : FS * result Handle :=
  match denied with
  | Some e => (fs, Fail e)
  | None =>
      match dirs fs !! dir with
      | None => (fs, Fail (Plain "no such file or directory"))
      | Some _ =>
          match files fs !! name with
          | Some _ => (fs, Ok (mkHandle name flag 0))
          | None =>
              if Z.testbit flag 6 then
                (mkFS (dirs fs) (<[name := mkFile perm []]> (files fs)),
                 Ok (mkHandle name flag 0))
              else (fs, Fail (Plain "no such file or directory"))
          end
      end
  end.

(** One write of one value through a handle: at the end of the file
    when [O_APPEND] is set, else at the handle's offset, over what is
    there. *)
Definition Write (h : Handle) (v : journalValue) (fs : FS) : FS * Handle :=
  match files fs !! name h with
  | None => (fs, h)
  | Some f =>
      let data :=
        if Z.testbit (flag h) 10 then content f ++ [v]
        else take (offset h) (content f) ++ v :: drop (S (offset h)) (content f) in
      (mkFS (dirs fs) (<[name h := mkFile (perm f) data]> (files fs)),
       mkHandle (name h) (flag h) (S (offset h)))
  end.

End os.

(** What the outside world decides during one call of [jsonLog]: whether
    the directory may be created, whether the open is refused, and which
    of the [Encode] calls (counted from 0, the time marker) fail. *)
Record journalIO := mkJournalIO {
  mkdirAllowed : bool;
  openDenied   : option error;
  encodeFails  : nat -> option error
}.

(** The [for _, v := range work] loop of [jsonLog]; [k] counts the
    [Encode] calls made so far. *)
Fixpoint encodeWork (io : journalIO) (k : nat) (h : os.Handle)
         (work : list journalValue) (fs : os.FS) : os.FS * option error :=
  match work with
  | [] => (fs, None)
  | v :: rest =>
      match encodeFails io k with
      | Some e => (fs, Some e)
      | None =>
          let '(fs', h') := os.Write h v fs in
          encodeWork io (S k) h' rest fs'
      end
  end.

(** [filepath.Join] of two clean path elements. *)
Definition Join (a b : string) : string := a +:+ "/" +:+ b.

(** The directory and the file of a journal: [filepath.Join(voteDir,
    token)] and, in it, [fmt.Sprintf("%v.%v", filename, c.run.Unix())]. *)
Definition journalDir (voteDir token : string) : string := Join voteDir token.

Definition journalPath (voteDir : string) (run : Z) (filename token : string)
  : string :=
  Join (journalDir voteDir token) (filename +:+ "." +:+ sprintInt run).

(** The flags and the permission bits [jsonLog] uses: 0700 for the
    directory, 0600 for the file. *)
Definition journalFlag : Z := Z.lor (Z.lor os.O_WRONLY os.O_CREATE) os.O_APPEND.
Definition dirPerm : Z := 448.
Definition filePerm : Z := 384.

(** The first lines of [jsonLog]: make the directory, ignoring any error,
    and open the file. *)
Definition journalOpen (voteDir : string) (run : Z) (io : journalIO)
           (filename token : string) (fs : os.FS) : os.FS * result os.Handle :=
  let dir := journalDir voteDir token in
  let fs := os.MkdirAll (mkdirAllowed io) dir dirPerm fs in
  let f := journalPath voteDir run filename token in
  os.OpenFile (openDenied io) dir f journalFlag filePerm fs.

(** [jsonLog]: [voteDir] is [c.cfg.voteDir], [run] is [c.run.Unix()] and
    [now] is [time.Now().Format(time.StampNano)].  Returns the file
    system it leaves behind and the error it returns, if any. *)
Definition jsonLog (voteDir : string) (run : Z) (now : string)
           (io : journalIO) (filename token : string)
           (work : list journalValue) (fs : os.FS) : os.FS * option error :=
  match journalOpen voteDir run io filename token fs with
  | (fs, Fail e) => (fs, Some e)
  | (fs, Ok fh) =>
      match encodeFails io 0 with
      | Some e => (fs, Some e)
      | None =>
          let '(fs, fh) := os.Write fh (JTime (JSONTime.mk now)) fs in
          encodeWork io 1 fh work fs
      end
  end.

(** The contents of a file, [[]] when there is no such file. *)
Definition contentOf (fs : os.FS) (path : string) : list journalValue :=
  match os.files fs !! path with
  | Some f => os.content f
  | None => []
  end.

(** The permission bits of a file after an append: those it had, or
    0600 when the append created it. *)
Definition permAfter (fs : os.FS) (p : string) : Z :=
  match os.files fs !! p with
  | Some f => os.perm f
  | None => filePerm
  end.

(** A file system with nothing in it, and an outside world that lets
    every operation through. *)
Definition emptyFS : os.FS := os.mkFS ∅ ∅.
Definition ioOk : journalIO := mkJournalIO true None (fun _ => None).

(* ===================================================================== *)
(** ** Reading the journals back: the streaming decoders                 *)
(* ===================================================================== *)

Module failedTuple.
Record t := mk {
  Time  : JSONTime.t;
  Votes : CastBallot.t;
  Error : ErrRetry.t
}.
End failedTuple.

Module successTuple.
Record t := mk {
  Time   : JSONTime.t;
  Result : CastVoteReply.t
}.
End successTuple.

Module workTuple.
Record t := mk {
  Time  : JSONTime.t;
  Votes : list voteInterval.t
}.
End workTuple.

(** The errors of the three decoders, one constructor for each
    [fmt.Errorf] (the input offset in the message is left out) and one for
    the error of [os.Open]. *)
Inductive decodeError :=
| OpenError (err : string)
| DecodeTime (err : string)          (* "decode time (%v): %v" *)
| DecodeCastVotes (err : string)     (* "decode cast votes (%v): %v" *)
| DecodeInvalidLength (n : nat)      (* "decode invalid length %v" *)
| DecodeErrorRetry (err : string)    (* "decode error retry (%v): %v" *)
| DecodeNoTicket                     (* "decode no ticket found" *)
| DecodeVotes (err : string)         (* "decode votes (%v): %v" *)
| DecodeNoTime.                      (* "decode no time found" *)

(** A JSON value of the input, and what [json.Decoder.Decode] makes of
    it for each of the five targets: the decoded Go value, or the message
    of the error it returns. *)
Record codec := mkCodec {
  J : Type;
  asTime : J -> string + JSONTime.t;
  asBallot : J -> string + CastBallot.t;
  asErrRetry : J -> string + ErrRetry.t;
  asReply : J -> string + CastVoteReply.t;
  asWork : J -> string + list voteInterval.t
}.

(** What the decoder reads from an open file: complete JSON values and
    then the end of the input, which is clean ([Decode] returns [io.EOF])
    or, with [Some err], bytes that are no JSON value ([Decode] returns
    [err], for a truncated value "unexpected EOF"). *)
Record stream (A : Type) := mkStream {
  values   : list A;
  trailing : option string
}.
Arguments mkStream {A} values trailing.
Arguments values {A} s.
Arguments trailing {A} s.

Section Decoders.

Variable json : codec.

(** The error [Decode] returns at the end of the values. *)
Definition endError (trailing : option string) : string :=
  match trailing with
  | None => "EOF"
  | Some err => err
  end.

(** The [for { switch state { ... } }] loop of [decodeFailed].  Each
    round makes one [Decode] call, which takes the next value of the
    input.  [state] is 0, 1 or 2. *)
Fixpoint decodeFailedLoop (vals : list (J json)) (trailing : option string)
         (state : nat) (ft : failedTuple.t) (ticket : string)
         (failed : gmap string (list failedTuple.t))
  : gmap string (list failedTuple.t) * option decodeError :=
  match state with
  | O =>
      match vals with
      | [] =>
          match trailing with
          | None => (failed, None)            (* Only expect EOF in state 0 *)
          | Some err => (failed, Some (DecodeTime err))
          end
      | v :: rest =>
          match asTime json v with
          | inl err => (failed, Some (DecodeTime err))
          | inr t =>
              decodeFailedLoop rest trailing 1
                (failedTuple.mk t (CastBallot.mk [])
                                (ErrRetry.mk EmptyString EmptyString 0 None))
                ticket failed
          end
      end
  | 1%nat =>
      match vals with
      | [] => (failed, Some (DecodeCastVotes (endError trailing)))
      | v :: rest =>
          match asBallot json v with
          | inl err => (failed, Some (DecodeCastVotes err))
          | inr b =>
              match CastBallot.Votes b with
              | [vote] =>
                  decodeFailedLoop rest trailing 2
                    (failedTuple.mk (failedTuple.Time ft) b
                                    (failedTuple.Error ft))
                    (CastVote.Ticket vote) failed
              | votes => (failed, Some (DecodeInvalidLength (length votes)))
              end
          end
      end
  | _ =>
      match vals with
      | [] => (failed, Some (DecodeErrorRetry (endError trailing)))
      | v :: rest =>
          match asErrRetry json v with
          | inl err => (failed, Some (DecodeErrorRetry err))
          | inr e =>
              if String.eqb ticket EmptyString then (failed, Some DecodeNoTicket)
              else
                let ft := failedTuple.mk (failedTuple.Time ft)
                                         (failedTuple.Votes ft) e in
                decodeFailedLoop rest trailing 0 ft EmptyString
                  (<[ticket := default [] (failed !! ticket) ++ [ft]]> failed)
          end
      end
  end.

(** [decodeFailed]: the file is the error of [os.Open] or the input
    the decoder reads.  The map is updated in place, so what was added
    before an error stays. *)
Definition decodeFailed (file : string + stream (J json))
           (failed : gmap string (list failedTuple.t))
  : gmap string (list failedTuple.t) * option decodeError :=
  match file with
  | inl err => (failed, Some (OpenError err))
  | inr d =>
      decodeFailedLoop (values d) (trailing d) 0
        (failedTuple.mk (JSONTime.mk EmptyString) (CastBallot.mk [])
                        (ErrRetry.mk EmptyString EmptyString 0 None))
        EmptyString failed
  end.

(** The loop of [decodeSuccess]; [state] is 0 or 1. *)
Fixpoint decodeSuccessLoop (vals : list (J json)) (trailing : option string)
         (state : nat) (st : successTuple.t)
         (success : gmap string (list successTuple.t))
  : gmap string (list successTuple.t) * option decodeError :=
  match state with
  | O =>
      match vals with
      | [] =>
          match trailing with
          | None => (success, None)
          | Some err => (success, Some (DecodeTime err))
          end
      | v :: rest =>
          match asTime json v with
          | inl err => (success, Some (DecodeTime err))
          | inr t =>
              decodeSuccessLoop rest trailing 1
                (successTuple.mk t (CastVoteReply.mk EmptyString EmptyString
                                                      0 EmptyString))
                success
          end
      end
  | _ =>
      match vals with
      | [] => (success, Some (DecodeCastVotes (endError trailing)))
      | v :: rest =>
          match asReply json v with
          | inl err => (success, Some (DecodeCastVotes err))
          | inr r =>
              let ticket := CastVoteReply.Ticket r in
              if String.eqb ticket EmptyString then (success, Some DecodeNoTicket)
              else
                let st := successTuple.mk (successTuple.Time st) r in
                decodeSuccessLoop rest trailing 0 st
                  (<[ticket := default [] (success !! ticket) ++ [st]]> success)
          end
      end
  end.

Definition decodeSuccess (file : string + stream (J json))
           (success : gmap string (list successTuple.t))
  : gmap string (list successTuple.t) * option decodeError :=
  match file with
  | inl err => (success, Some (OpenError err))
  | inr d =>
      decodeSuccessLoop (values d) (trailing d) 0
        (successTuple.mk (JSONTime.mk EmptyString)
           (CastVoteReply.mk EmptyString EmptyString 0 EmptyString))
        success
  end.

(** The loop of [decodeWork]; [state] is 0 or 1 and [t] is the time
    string the tuple is filed under. *)
Fixpoint decodeWorkLoop (vals : list (J json)) (trailing : option string)
         (state : nat) (wt : workTuple.t) (t : string)
         (work : gmap string (list workTuple.t))
  : gmap string (list workTuple.t) * option decodeError :=
  match state with
  | O =>
      match vals with
      | [] =>
          match trailing with
          | None => (work, None)
          | Some err => (work, Some (DecodeTime err))
          end
      | v :: rest =>
          match asTime json v with
          | inl err => (work, Some (DecodeTime err))
          | inr tm =>
              decodeWorkLoop rest trailing 1 (workTuple.mk tm [])
                             (JSONTime.Time tm) work
          end
      end
  | _ =>
      match vals with
      | [] => (work, Some (DecodeVotes (endError trailing)))
      | v :: rest =>
          match asWork json v with
          | inl err => (work, Some (DecodeVotes err))
          | inr votes =>
              if String.eqb t EmptyString then (work, Some DecodeNoTime)
              else
                let wt := workTuple.mk (workTuple.Time wt) votes in
                decodeWorkLoop rest trailing 0 wt EmptyString
                  (<[t := default [] (work !! t) ++ [wt]]> work)
          end
      end
  end.

Definition decodeWork (file : string + stream (J json))
           (work : gmap string (list workTuple.t))
  : gmap string (list workTuple.t) * option decodeError :=
  match file with
  | inl err => (work, Some (OpenError err))
  | inr d =>
      decodeWorkLoop (values d) (trailing d) 0
        (workTuple.mk (JSONTime.mk EmptyString) []) EmptyString work
  end.

End Decoders.


(* ===================================================================== *)
(** ** The verifier: [verifyVote]                                        *)
(* ===================================================================== *)

(** [type voteStat struct { ticket string; retries, failed, success int }] *)
Module voteStat.
Record t := mk {
  ticket  : string;
  retries : nat;
  failed  : nat;
  success : nat
}.
End voteStat.

(** The lines [verifyVote] prints, one constructor for each [Printf]. *)
Inductive line :=
| Checking (vote : string)                         (* "== Checking vote %v" *)
| DecodeFailedLine (filename : string) (err : decodeError)
| DecodeSuccessLine (filename : string) (err : decodeError)
| DecodeWorkLine (filename : string) (err : decodeError)
| UnknownJournal (name : string)
| MultipleSuccess (n : nat) (ticket : string)
| FAILED (ticket reason : string)                  (* "  FAILED: %v - %v" *)
| NotAttempted (n : nat)          (* "  votes that were not attempted: %v" *)
| VotesFailed (n : nat)           (* "  votes that failed: %v" *)
| CompletedNotRecorded (n : nat)
    (* "  votes that completed but were not recorded: %v" *)
| WorkTicketNotEligible (ticket : string)
| Impossible                      (* "  pi vote succeeded and failed, ..." *)
| PiVoteFailed (ticket : string)
| PiVoteNotSeen (ticket : string)
| IneligibleTickets (n : nat)
| TotalVotes (n : nat)
| SuccessfulVotes (n : nat)
| UnsuccessfulVotes (n : nat)
| FailedVotesOn (vote : string)   (* "== Failed votes on proposal %v" *)
| NoFailedVotesOn (vote : string).

(** The three local work caches of [verifyVote] and what it has printed. *)
Record caches := mkCaches {
  failed  : gmap string (list failedTuple.t);      (* [ticket]result *)
  success : gmap string (list successTuple.t);     (* [ticket]result *)
  work    : gmap string (list workTuple.t);        (* [time]work *)
  printed : list line
}.

(** The counters of the "failedVotes" loop. *)
Record counters := mkCounters {
  noVote               : nat;
  failedVote           : nat;
  completedNotRecorded : nat;
  lines                : list line
}.

(** What a run of [verifyVote] that returns no error has computed and
    printed. *)
Record report := mkReport {
  output     : list line;
  journals   : caches;
  tickets    : gset string;
  failedVotes : gmap string voteStat.t;
  counts     : counters
}.

Section Verifier.

Variable json : codec.

(** One round of the [for k := range fa] loop: the [switch] on the
    name of the directory entry. *)
Definition readJournal (dir : string) (c : caches)
           (entry : string * (string + stream (J json))) : caches :=
  let name := entry.1 in
  let filename := Join dir name in
  if String.prefix failedJournal name then
    let '(m, err) := decodeFailed json entry.2 (failed c) in
    mkCaches m (success c) (work c)
             (match err with
              | Some e => printed c ++ [DecodeFailedLine filename e]
              | None => printed c
              end)
  else if String.prefix successJournal name then
    let '(m, err) := decodeSuccess json entry.2 (success c) in
    mkCaches (failed c) m (work c)
             (match err with
              | Some e => printed c ++ [DecodeSuccessLine filename e]
              | None => printed c
              end)
  else if String.prefix workJournal name then
    let '(m, err) := decodeWork json entry.2 (work c) in
    mkCaches (failed c) (success c) m
             (match err with
              | Some e => printed c ++ [DecodeWorkLine filename e]
              | None => printed c
              end)
  else if String.eqb name ".voteresults" then
    c                                            (* Cache file, skip *)
  else
    mkCaches (failed c) (success c) (work c)
             (printed c ++ [UnknownJournal name]).

Definition readJournals (dir : string) (fa : list (string * (string + stream (J json))))
           (c : caches) : caches :=
  fold_left (readJournal dir) fa c.

(** The vote intervals of the work cache, in the order the three
    nested [range] loops visit them. *)
Definition workVotes (work : gmap string (list workTuple.t))
  : list voteInterval.t :=
  flat_map (fun kv => flat_map workTuple.Votes kv.2) (map_to_list work).

(** The body of the innermost loop of "Count vote statistics". *)
Definition countStat (c : caches)
           (acc : gset string * gmap string voteStat.t * list line)
           (vi : voteInterval.t)
  : gset string * gmap string voteStat.t * list line :=
  let '(tickets, failedVotes, out) := acc in
  let ticket := CastVote.Ticket (voteInterval.Vote vi) in
  let tickets := {[ticket]} ∪ tickets in
  let retries := match failed c !! ticket with
                 | Some f => length f
                 | None => O
                 end in
  match success c !! ticket with
  | Some s =>
      (tickets, failedVotes,
       if Nat.eqb (length s) 1 then out
       else out ++ [MultipleSuccess (length s) ticket])
  | None =>
      (tickets,
       <[ticket := voteStat.mk ticket retries 1 0]> failedVotes,
       out)
  end.

(** The body of [for _, v := range failedVotes]. *)
Definition countFailed (cast : gset string) (n : counters) (v : voteStat.t)
  : counters :=
  if Nat.eqb (voteStat.retries v) 0 then
    if decide (voteStat.ticket v ∈ cast) then
      mkCounters (noVote n) (failedVote n) (S (completedNotRecorded n))
                 (lines n)
    else if negb (Nat.eqb (voteStat.failed v) 0) then
      mkCounters (S (noVote n)) (S (failedVote n)) (completedNotRecorded n)
                 (lines n ++ [FAILED (voteStat.ticket v) "Not attempted"])
    else
      mkCounters (S (noVote n)) (failedVote n) (completedNotRecorded n)
                 (lines n)
  else if negb (Nat.eqb (voteStat.failed v) 0) then
    mkCounters (noVote n) (S (failedVote n)) (completedNotRecorded n)
               (lines n ++ [FAILED (voteStat.ticket v) "Error"])
  else n.

(** The body of the "Cross check results" loop. *)
Definition crossCheck (eligible cast : gset string) (c : caches)
           (failedVotes : gmap string voteStat.t)
           (acc : nat * list line) (ticket : string) : nat * list line :=
  let '(eligibleNotFound, out) := acc in
  let '(eligibleNotFound, out) :=
    if decide (ticket ∈ eligible) then (eligibleNotFound, out)
    else (S eligibleNotFound, out ++ [WorkTicketNotEligible ticket]) in
  match success c !! ticket, failedVotes !! ticket with
  | Some _, Some _ => (eligibleNotFound, out ++ [Impossible])
  | None, Some _ =>
      if decide (ticket ∈ cast) then (eligibleNotFound, out)
      else (eligibleNotFound, out ++ [PiVoteFailed ticket])
  | Some _, None => (eligibleNotFound, out)
  | None, None => (eligibleNotFound, out ++ [PiVoteNotSeen ticket])
  end.

(** The "Count vote statistics" loops, over the whole work cache. *)
Definition countStats (c : caches)
  : gset string * gmap string voteStat.t * list line :=
  fold_left (countStat c) (workVotes (work c)) (∅, ∅, printed c).

(** The [for _, v := range failedVotes] loop. *)
Definition countFailedVotes (cast : gset string)
           (failedVotes : gmap string voteStat.t) (out : list line)
  : counters :=
  fold_left (countFailed cast) (map_to_list failedVotes).*2
            (mkCounters 0 0 0 out).

(** The set [cast] that [verifyVote] builds from [rr.Votes]. *)
Definition castSet (Votes : list CastVoteDetails.t) : gset string :=
  list_to_set (map CastVoteDetails.Ticket Votes).

(** [verifyVote], from the point where the proposal's summary, the
    cached results, the vote details and the directory listing have
    been obtained; each of these steps returns its error before any
    journal is read.  [finished] says that the status of the vote is
    finished, rejected or approved; [EligibleTickets] is
    [dr.Vote.EligibleTickets], [Votes] is [rr.Votes] and [fa] is the
    directory listing with the contents of each entry. *)
Definition verifyVote (voteDir vote : string) (finished : bool)
           (EligibleTickets : list string)
           (Votes : list CastVoteDetails.t)
           (fa : list (string * (string + stream (J json)))) : result report :=
  let dir := Join voteDir vote in
  if negb finished then Fail (Plain "proposal vote not finished")
  else
    let eligible : gset string := list_to_set EligibleTickets in
    let cast : gset string := castSet Votes in
    let c := readJournals dir fa (mkCaches ∅ ∅ ∅ [Checking vote]) in
    let '(tickets, failedVotes, out) := countStats c in
    let n := countFailedVotes cast failedVotes out in
    let out := lines n in
    let out := if Nat.eqb (noVote n) 0 then out
               else out ++ [NotAttempted (noVote n)] in
    let out := if Nat.eqb (failedVote n) 0 then out
               else out ++ [VotesFailed (failedVote n)] in
    let out := if Nat.eqb (completedNotRecorded n) 0 then out
               else out ++ [CompletedNotRecorded (completedNotRecorded n)] in
    let '(eligibleNotFound, out) :=
      fold_left (crossCheck eligible cast c failedVotes) (elements tickets)
                (O, out) in
    let out := if Nat.eqb eligibleNotFound 0 then out
               else out ++ [IneligibleTickets eligibleNotFound] in
    let out := out ++ [TotalVotes (size tickets);
                       SuccessfulVotes (size (success c) + completedNotRecorded n);
                       UnsuccessfulVotes (failedVote n)] in
    let out := if Nat.eqb (failedVote n) 0 then out ++ [NoFailedVotesOn vote]
               else out ++ [FailedVotesOn vote] in
    Ok (mkReport out c tickets failedVotes n).

End Verifier.

(** *** Files that are a whole number of complete tuples

    A complete tuple of the failed journal is what the engine appends
    with [jsonLog(failedJournal, token, b, e)]: a time marker, a ballot of
    one vote that names its ticket, and a retry error.  The other two
    journals have tuples of two values.  The second index lists the
    tuples in the order of the file. *)
Section Tuples.

Variable json : codec.

Inductive wholeFailed : list (J json) -> list failedTuple.t -> Prop :=
| wholeFailed_nil : wholeFailed [] []
| wholeFailed_cons v1 v2 v3 rest t vote e tl :
    asTime json v1 = inr t ->
    asBallot json v2 = inr (CastBallot.mk [vote]) ->
    CastVote.Ticket vote <> EmptyString ->
    asErrRetry json v3 = inr e ->
    wholeFailed rest tl ->
    wholeFailed (v1 :: v2 :: v3 :: rest)
                (failedTuple.mk t (CastBallot.mk [vote]) e :: tl).

Inductive wholeSuccess : list (J json) -> list successTuple.t -> Prop :=
| wholeSuccess_nil : wholeSuccess [] []
| wholeSuccess_cons v1 v2 rest t r tl :
    asTime json v1 = inr t ->
    asReply json v2 = inr r ->
    CastVoteReply.Ticket r <> EmptyString ->
    wholeSuccess rest tl ->
    wholeSuccess (v1 :: v2 :: rest) (successTuple.mk t r :: tl).


(** A map with the tuples of a file filed under their keys, in order. *)
Definition fileFailed (tl : list failedTuple.t)
           (m : gmap string (list failedTuple.t)) :=
  fold_left (fun m ft =>
               let ticket := match CastBallot.Votes (failedTuple.Votes ft) with
                             | vote :: _ => CastVote.Ticket vote
                             | [] => EmptyString
                             end in
               <[ticket := default [] (m !! ticket) ++ [ft]]> m) tl m.

Definition fileSuccess (tl : list successTuple.t)
           (m : gmap string (list successTuple.t)) :=
  fold_left (fun m st =>
               let ticket := CastVoteReply.Ticket (successTuple.Result st) in
               <[ticket := default [] (m !! ticket) ++ [st]]> m) tl m.


End Tuples.

(** The two ways the "failedVotes" loop counts an entry: as completed
    but not recorded, or as a failed vote. *)
Definition isCompletedNotRecorded (cast : gset string) (v : voteStat.t) : bool :=
  Nat.eqb (voteStat.retries v) 0 && bool_decide (voteStat.ticket v ∈ cast).

Definition isFailedVote (cast : gset string) (v : voteStat.t) : bool :=
  negb (isCompletedNotRecorded cast v) && negb (Nat.eqb (voteStat.failed v) 0).

(** The number of journal entries filed under a ticket. *)
Definition entries {A} (m : gmap string (list A)) (ticket : string) : nat :=
  match m !! ticket with
  | Some l => length l
  | None => O
  end.

(** Decoders for files that hold journal values as [jsonLog] wrote them:
    a value decodes into the type it was written from. *)
Definition strictTime (v : journalValue) : string + JSONTime.t :=
  match v with JTime t => inr t | _ => inl "json: cannot unmarshal"%string end.
Definition strictBallot (v : journalValue) : string + CastBallot.t :=
  match v with JBallot b => inr b | _ => inl "json: cannot unmarshal"%string end.
Definition strictErrRetry (v : journalValue) : string + ErrRetry.t :=
  match v with JErrRetry e => inr e | _ => inl "json: cannot unmarshal"%string end.
Definition strictReply (v : journalValue) : string + CastVoteReply.t :=
  match v with JReply r => inr r | _ => inl "json: cannot unmarshal"%string end.
Definition strictWork (v : journalValue) : string + list voteInterval.t :=
  match v with JWork w => inr w | _ => inl "json: cannot unmarshal"%string end.

(** The ticket of a scheduled vote. *)
Definition ticketOf (vi : voteInterval.t) : string :=
  CastVote.Ticket (voteInterval.Vote vi).

(** *** A small run, used to exercise the definitions *)

Definition exTicket : string := "aa11".
Definition exVote : CastVote.t := CastVote.mk "c0ffee" exTicket "1" "3045".
Definition exInterval : voteInterval.t := voteInterval.mk exVote 0.
Definition exTime : JSONTime.t := JSONTime.mk "Jan  1 00:00:00.000000000".
Definition exErrRetry : ErrRetry.t :=
  ErrRetry.mk "r.StatusCode != http.StatusOK" EmptyString 502 None.
Definition exCast : CastVoteDetails.t :=
  CastVoteDetails.mk "c0ffee" exTicket "1" "3045" "receipt".

(** A client whose server gives the same response to every request and
    whose replies never parse. *)
Definition exCtx (r : http.Response) : ctx :=
  mkCtx CastBallot.t (fun _ => Ok "q"%string) (fun _ => Ok "{}"%string)
        (fun _ _ => None) (fun _ => inr r) (fun _ => None)
        (fun _ => inl "unexpected end of JSON input"%string)
        (fun _ => "ErrorCode"%string)
        "https://proposals.example.org" "politeiavoter/1.0.0"
        "/ticketvote/v1" "/castballot" (fun b => b).

(** A work journal with one scheduled vote, and a failed journal with one
    failed attempt of that vote. *)
Definition exWorkFile : string * (string + stream journalValue) :=
  ("work.json.1600000000"%string,
   inr (mkStream [JTime exTime; JWork [exInterval]] None)).
Definition exFailedFile : string * (string + stream journalValue) :=
  ("failed.json.1600000000"%string,
   inr (mkStream [JTime exTime; JBallot (CastBallot.mk [exVote]);
                  JErrRetry exErrRetry] None)).

(** [verifyVote] on journals that hold values as [jsonLog] wrote them. *)
Definition strictCodec : codec :=
  mkCodec journalValue strictTime strictBallot strictErrRetry strictReply
          strictWork.

Definition verifyJournals := verifyVote strictCodec.

(* ===================================================================== *)
(** ** Eligible tickets: [eligibleVotes]                                 *)
(* ===================================================================== *)

(** [pb.CommittedTicketsResponse_TicketAddress] *)
Module TicketAddress.
Record t := mk {
  Ticket  : string;     (* the ticket hash, as bytes *)
  Address : string      (* the commitment address of the ticket *)
}.
End TicketAddress.

(** The wallet and the libraries [eligibleVotes] calls.  A lookup that
    fails is [None]; [eligibleVotes] logs the error and goes on. *)
Record wallet := mkWallet {
  (** [chainhash.NewHash(t.Ticket)] followed by [h.String()]; an error
      when the ticket is not 32 bytes long. *)
  NewHash : string -> result string;
  (** [c.wallet.GetTransaction] for the hash: the serialized transaction. *)
  GetTransaction : string -> option string;
  (** [tx.Deserialize] followed by [stake.AddrFromSStxPkScrCommitment] on
      the second output: the commitment address. *)
  commitmentAddress : string -> option string;
  (** [c.wallet.ValidateAddress]: the account number of the address. *)
  ValidateAddress : string -> option Z;
  (** [verifyMessage(params, address, message, signature)] of this file. *)
  verifyMessage : string -> string -> string -> result bool
}.

(** The first loop of [eligibleVotes]: [castVotes[v.Ticket] = v]. *)
Definition castVotesOf (Votes : list CastVoteDetails.t)
  : gmap string CastVoteDetails.t :=
  fold_left (fun m v => <[CastVoteDetails.Ticket v := v]> m) Votes ∅.

(** The second loop of [eligibleVotes], over [ctres.TicketAddresses]. *)
Fixpoint eligibleLoop (w : wallet) (castVotes : gmap string CastVoteDetails.t)
         (TicketAddresses : list TicketAddress.t)
         (eligible : list TicketAddress.t) : result (list TicketAddress.t) :=
  match TicketAddresses with
  | [] => Ok eligible
  | t :: rest =>
      match NewHash w (TicketAddress.Ticket t) with
      | Fail e => Fail e
      | Ok h =>
          (* Filter out tickets tracked by imported xpub accounts. *)
          match GetTransaction w h with
          | None => eligibleLoop w castVotes rest eligible
          | Some tx =>
              match commitmentAddress w tx with
              | None => eligibleLoop w castVotes rest eligible
              | Some addr =>
                  match ValidateAddress w addr with
                  | None => eligibleLoop w castVotes rest eligible
                  | Some AccountNumber =>
                      if (2 ^ 31 - 1 <=? AccountNumber)%Z then
                        (* imported xpub account *)
                        eligibleLoop w castVotes rest eligible
                      else
                        match castVotes !! h with
                        | Some _ => eligibleLoop w castVotes rest eligible
                        | None =>
                            eligibleLoop w castVotes rest (eligible ++ [t])
                        end
                  end
              end
          end
      end
  end.

(** [eligibleVotes(rr, ctres)], from [rr.Votes] and
    [ctres.TicketAddresses]. *)
Definition eligibleVotes (w : wallet) (Votes : list CastVoteDetails.t)
           (TicketAddresses : list TicketAddress.t)
  : result (list TicketAddress.t) :=
  eligibleLoop w (castVotesOf Votes) TicketAddresses [].

(** The message a vote signs, [token + ticket + voteBit], and the check
    of the signature the server recorded for a cast vote against the
    commitment address of the ticket. *)
Definition signedMessage (v : CastVoteDetails.t) : string :=
  CastVoteDetails.Token v +:+ CastVoteDetails.Ticket v
                          +:+ CastVoteDetails.VoteBit v.

Definition validSignature (w : wallet) (address : string)
           (v : CastVoteDetails.t) : bool :=
  match verifyMessage w address (signedMessage v)
                      (CastVoteDetails.Signature v) with
  | Ok b => b
  | Fail _ => false
  end.

(** A wallet that holds every ticket in its default account, and takes a
    signature for valid only when it reads "valid". *)
Definition exWallet : wallet :=
  mkWallet (fun t => Ok t) (fun _ => Some "tx"%string)
           (fun _ => Some "DsAddress"%string) (fun _ => Some 0%Z)
           (fun _ _ sig => Ok (String.eqb sig "valid")).

Definition exTicketAddress : TicketAddress.t :=
  TicketAddress.mk exTicket "DsAddress".

(** The server's record of a vote of [exTicket] with a bad signature. *)
Definition exForgedCast : CastVoteDetails.t :=
  CastVoteDetails.mk "c0ffee" exTicket "1" "forged" "receipt".

(* ===================================================================== *)
(** ** The trickler: the main loop of [_voteTrickler]                    *)
(* ===================================================================== *)

(** The one-shot signals the main loop sends. *)
Inductive signal := mainLoopDone | mainLoopForceExit.

(** The fields of [ctx] the main loop works on, the journal directory it
    appends to, and the ballots it has handed to [sendVote]. *)
Record engine := mkEngine {
  voteIntervalQ : list voteInterval.t;   (* work that has to be completed *)
  retryQ        : list retry.t;          (* retry message queue FIFO *)
  ballotResults : list CastVoteReply.t;  (* results of voting *)
  disk          : os.FS;
  sent          : list signal;
  submitted     : list CastBallot.t
}.

(** What ends the [select] of the main loop first. *)
Inductive wakeup :=
| Elapsed          (* case <-time.After(vote.At) *)
| Cancelled        (* case <-c.wctx.Done() *)
| RetryForceExit.  (* case <-c.retryLoopForceExit *)

(** What the outside world decides during round [i] of the main loop:
    what ends the wait, how the server answers, and the clock and the
    file system during the journal append. *)
Record round := mkRound {
  wake   : wakeup;
  client : ctx;
  now    : string;
  io     : journalIO
}.

(** The configuration of a run: [c.cfg.voteDir], [c.run.Unix()], and the
    constant [tkv1.VoteErrorVoteStatusInvalid]. *)
Record config := mkConfig {
  voteDir : string;
  run     : Z;
  VoteErrorVoteStatusInvalid : N
}.

(** [voteIntervalPush]: [c.voteIntervalQ.PushBack(v)]. *)
Definition voteIntervalPush (v : voteInterval.t) (e : engine) : engine :=
  mkEngine (voteIntervalQ e ++ [v]) (retryQ e) (ballotResults e) (disk e)
           (sent e) (submitted e).

(** [voteIntervalPop]: the front of the queue, removed, or [None]. *)
Definition voteIntervalPop (e : engine) : option voteInterval.t * engine :=
  match voteIntervalQ e with
  | [] => (None, e)
  | v :: rest =>
      (Some v, mkEngine rest (retryQ e) (ballotResults e) (disk e)
                        (sent e) (submitted e))
  end.

(** [voteIntervalLen] *)
Definition voteIntervalLen (e : engine) : nat := length (voteIntervalQ e).

(** Modelled from the spec: [retryPush] and [retryLen] are not among the
    source files; the retry queue is "a FIFO queue" with "push, pop
    (removes and returns head or nil), len". *)
Definition retryPush (r : retry.t) (e : engine) : engine :=
  mkEngine (voteIntervalQ e) (retryQ e ++ [r]) (ballotResults e) (disk e)
           (sent e) (submitted e).

Definition retryLen (e : engine) : nat := length (retryQ e).

(** [Error()] of the errors the main loop wraps. *)
Definition errorString (e : error) : string :=
  match e with
  | Plain msg => msg
  | Retry r =>
      "retry error: " +:+ sprintInt (ErrRetry.Code r) +:+ " (" +:+
      ErrRetry.At r +:+ ") " +:+ default "<nil>"%string (ErrRetry.Err r)
  | ErrSyntax fn s =>
      "strconv." +:+ fn +:+ ": parsing " +:+ s +:+ ": invalid syntax"
  | ErrRange fn s =>
      "strconv." +:+ fn +:+ ": parsing " +:+ s +:+ ": value out of range"
  end.

(** How a run of [_voteTrickler] ends: it left the loop by [break], by
    [goto exit], or by [return] with an error. *)
Inductive ending :=
| Break
| GotoExit
| Return (err : error).

Section Trickler.

Variable cfg : config.
Variable token : string.
Variable rounds : nat -> round.

Definition setDisk (fs : os.FS) (e : engine) : engine :=
  mkEngine (voteIntervalQ e) (retryQ e) (ballotResults e) fs (sent e)
           (submitted e).

(** The part of a round after the label [vote:]: send the vote off and
    act on the answer.  [None] stands for "go to next vote". *)
Definition castOne (i : nat) (vote : voteInterval.t) (e : engine)
  : engine * option ending :=
  let r := rounds i in
  let b := CastBallot.mk [voteInterval.Vote vote] in
  let e := mkEngine (voteIntervalQ e) (retryQ e) (ballotResults e) (disk e)
                    (sent e) (submitted e ++ [b]) in
  match sendVote (client r) b with
  | Fail err =>
      match errorsAsErrRetry err with
      | Some er =>
          (* Append failed vote to retry queue *)
          match jsonLog (voteDir cfg) (run cfg) (now r) (io r) failedJournal
                        token [JBallot b; JErrRetry er] (disk e) with
          | (fs, Some err) => (setDisk fs e, Some (Return err))
          | (fs, None) =>
              (retryPush (retry.mk (voteInterval.Vote vote)) (setDisk fs e),
               None)
          end
      | None =>
          (* Unrecoverable error *)
          (e, Some (Return (Plain ("unrecoverable error: " +:+
                                   errorString err))))
      end
  | Ok vr =>
      (* Vote completed *)
      let e := mkEngine (voteIntervalQ e) (retryQ e) (ballotResults e ++ [vr])
                        (disk e) (sent e) (submitted e) in
      if N.eqb (CastVoteReply.ErrorCode vr) (VoteErrorVoteStatusInvalid cfg)
      then
        (* Force an exit of the both the main queue and the retry queue
           if the voting period has ended. *)
        match jsonLog (voteDir cfg) (run cfg) (now r) (io r) failedJournal
                      token [JReply vr] (disk e) with
        | (fs, Some err) => (setDisk fs e, Some (Return err))
        | (fs, None) =>
            let e := setDisk fs e in
            (mkEngine (voteIntervalQ e) (retryQ e) (ballotResults e) (disk e)
                      (sent e ++ [mainLoopForceExit]) (submitted e),
             Some GotoExit)
        end
      else
        match jsonLog (voteDir cfg) (run cfg) (now r) (io r) successJournal
                      token [JReply vr] (disk e) with
        | (fs, Some err) => (setDisk fs e, Some (Return err))
        | (fs, None) => (setDisk fs e, None)
        end
  end.

(** The [for i := 0; ; { ... }] loop.  [q] is the interval queue at the
    top of the round and [e] holds the other fields; each round pops the
    front of [q]. *)
Fixpoint mainLoop (q : list voteInterval.t) (i : nat) (e : engine)
  : engine * ending :=
  match q with
  | [] => (mkEngine [] (retryQ e) (ballotResults e) (disk e) (sent e)
                    (submitted e), Break)
  | vote :: rest =>
      let e := mkEngine rest (retryQ e) (ballotResults e) (disk e) (sent e)
                        (submitted e) in
      (* Fire off the first vote without a delay *)
      match (if Nat.eqb i 0 then Elapsed else wake (rounds i)) with
      | Cancelled => (e, GotoExit)
      | RetryForceExit =>
          (* The retry loop is forcing an exit. Put vote back into the
             queue before exiting so the vote summary statistics are
             correct. *)
          (voteIntervalPush vote e, GotoExit)
      | Elapsed =>
          match castOne i vote e with
          | (e, Some how) => (e, how)
          | (e, None) => mainLoop rest (S i) e     (* Go to next vote *)
          end
      end
  end.

(** [_voteTrickler]: the results start empty, the loop runs, and after a
    [break] the main loop tells the retry loop that it is done.  Returns
    the engine as it is left and the error, if any. *)
Definition _voteTrickler (e : engine) : engine * option error :=
  let e := mkEngine (voteIntervalQ e) (retryQ e) [] (disk e) (sent e)
                    (submitted e) in
  match mainLoop (voteIntervalQ e) 0 e with
  | (e, Break) =>
      (mkEngine (voteIntervalQ e) (retryQ e) (ballotResults e) (disk e)
                (sent e ++ [mainLoopDone]) (submitted e), None)
  | (e, GotoExit) => (e, None)
  | (e, Return err) => (e, Some err)
  end.

End Trickler.

(** The summary [vote] prints after [_vote] has returned without error. *)
Record summary := mkSummary {
  succeeded : nat;                        (* "Votes succeeded: %v" *)
  failedReceipts : list CastVoteReply.t;  (* "Votes failed   : %v" *)
  notCast : nat                           (* "Votes not cast : %v" *)
}.

Definition voteSummary (e : engine) : summary :=
  let failedReceipts :=
    List.filter (fun v => negb (String.eqb (CastVoteReply.ErrorContext v)
                                           EmptyString))
                (ballotResults e) in
  mkSummary (length (ballotResults e) - length failedReceipts)
            failedReceipts
            (voteIntervalLen e + retryLen e).

(** [vote], from the engine as the scheduling left it: the error of
    [_vote], or the summary. *)
Definition vote (cfg : config) (token : string) (rounds : nat -> round)
           (e : engine) : engine * result summary :=
  match _voteTrickler cfg token rounds e with
  | (e, Some err) => (e, Fail err)
  | (e, None) => (e, Ok (voteSummary e))
  end.

(** *** A run of three scheduled votes *)

Definition exVoteB : CastVote.t := CastVote.mk "c0ffee" "bb22" "1" "3046".
Definition exVoteC : CastVote.t := CastVote.mk "c0ffee" "cc33" "1" "3047".
Definition exIntervalB : voteInterval.t := voteInterval.mk exVoteB 60.
Definition exIntervalC : voteInterval.t := voteInterval.mk exVoteC 90.

Definition exConfig : config := mkConfig "votes" 1600000000 5.

(** A server that accepts every ballot with the same receipt. *)
Definition exReceipt : CastVoteReply.t :=
  CastVoteReply.mk exTicket "receipt" 0 EmptyString.

Definition exOkCtx : ctx :=
  mkCtx CastBallot.t (fun _ => Ok "q"%string) (fun _ => Ok "{}"%string)
        (fun _ _ => None) (fun _ => inr (http.mkResponse 200 "{}"))
        (fun _ => None) (fun _ => inr (CastBallotReply.mk [exReceipt]))
        (fun _ => "ErrorCode"%string)
        "https://proposals.example.org" "politeiavoter/1.0.0"
        "/ticketvote/v1" "/castballot" (fun b => b).

(** Rounds in which every wait after the first vote ends the same way. *)
Definition exRounds (w : wakeup) (i : nat) : round :=
  mkRound w exOkCtx "Jan  1 00:00:00.000000000" ioOk.

Definition exEngine : engine :=
  mkEngine [exInterval; exIntervalB; exIntervalC] [] [] emptyFS [] [].

(** A server that answers every ballot with a receipt saying that the
    vote has ended. *)
Definition exEndedReceipt : CastVoteReply.t :=
  CastVoteReply.mk exTicket EmptyString 5 "vote has ended".



(* ===================================================================== *)
(** ** More of the voter: the helpers of [_vote], [vote] and [verify]    *)
(* ===================================================================== *)

(** The loop of [convertTicketHashes]; [NewHashFromStr] is
    [chainhash.NewHashFromStr] followed by [hh[:]], and [hashes] is the
    slice built so far. *)
Fixpoint convertLoop (NewHashFromStr : string -> result string)
         (h : list string) (hashes : list string) : result (list string) :=
  match h with
  | [] => Ok hashes
  | v :: rest =>
      match NewHashFromStr v with
      | Fail e => Fail e
      | Ok hh => convertLoop NewHashFromStr rest (hashes ++ [hh])
      end
  end.

(** [convertTicketHashes] *)
Definition convertTicketHashes (NewHashFromStr : string -> result string)
           (h : list string) : result (list string) :=
  convertLoop NewHashFromStr h [].

(** The ballot the main loop builds for a scheduled vote:
    [tkv1.CastBallot{Votes: []tkv1.CastVote{vote.Vote}}]. *)
Definition ballotOf (vi : voteInterval.t) : CastBallot.t :=
  CastBallot.mk [voteInterval.Vote vi].

(** [n] calls of [voteIntervalPop], with what they returned, in order;
    the calls stop at the first one that finds the queue empty. *)
Fixpoint pops (n : nat) (e : engine) : list voteInterval.t * engine :=
  match n with
  | O => ([], e)
  | S n' =>
      match voteIntervalPop e with
      | (None, e) => ([], e)
      | (Some v, e) => let '(vs, e) := pops n' e in (v :: vs, e)
      end
  end.

(** [eligible[i], eligible[j] = eligible[j], eligible[i]]; both indices
    are in range wherever [_vote] swaps. *)
Definition swap {A} (i j : nat) (l : list A) : list A :=
  match l !! i, l !! j with
  | Some a, Some b => <[j := a]> (<[i := b]> l)
  | _, _ => l
  end.




(** Conversions to [uint32] and to [int64] ([time.Duration]). *)
Definition toUint32 (z : Z) : Z := (z mod 2 ^ 32)%Z.
Definition toInt64 (z : Z) : Z := ((z + 2 ^ 63) mod 2 ^ 64 - 2 ^ 63)%Z.

(** "Calculate vote duration if not set" of [_vote]: [voteDuration] is
    [c.cfg.voteDuration], [blocksPerHour] is [c.cfg.blocksPerHour],
    [EndBlockHeight] and [bestBlock] are the [uint32] values of the
    summary, and [TargetTimePerBlock] is the network's.  Returns the
    duration the run goes on with. *)
Definition voteDurationFor (voteDuration blocksPerHour EndBlockHeight bestBlock
                            TargetTimePerBlock : Z) : result Z :=
  if (voteDuration =? 0)%Z then
    let blocksLeft := toUint32 (EndBlockHeight - bestBlock) in
    if (blocksLeft <? toUint32 blocksPerHour)%Z then
      Fail (Plain ("less than one hour left to vote, " +:+
                   "please set --voteduration manually"))
    else
      Ok (toInt64 (TargetTimePerBlock *
                   toInt64 (toInt64 blocksLeft - toInt64 blocksPerHour)))
  else Ok voteDuration.

(** The number of recorded votes whose vote bit reads, in base 10, as
    [b]. *)
Definition votesFor (b : N) (votes : list CastVoteDetails.t) : nat :=
  length (List.filter
            (fun v => match strconv.ParseUint10 (CastVoteDetails.VoteBit v) with
                      | Ok bits => N.eqb bits b
                      | Fail _ => false
                      end) votes).

(** The test [eligibleVotes] applies to a ticket whose hash is [h]: the
    wallet knows the transaction, its commitment address and the account
    of the address, the account is not an imported xpub account, and the
    server has recorded no vote of the ticket. *)
Definition passesFilter (w : wallet) (castVotes : gmap string CastVoteDetails.t)
           (h : string) : bool :=
  match GetTransaction w h with
  | None => false
  | Some tx =>
      match commitmentAddress w tx with
      | None => false
      | Some addr =>
          match ValidateAddress w addr with
          | None => false
          | Some AccountNumber =>
              negb (2 ^ 31 - 1 <=? AccountNumber)%Z &&
              bool_decide (castVotes !! h = None)
          end
      end
  end.

(** The ticket passes the filter of [eligibleVotes]: it hashes, and its
    hash passes. *)
Definition keeps (w : wallet) (castVotes : gmap string CastVoteDetails.t)
           (t : TicketAddress.t) : bool :=
  match NewHash w (TicketAddress.Ticket t) with
  | Ok h => passesFilter w castVotes h
  | Fail _ => false
  end.

(** A wallet that cannot hash the ticket "short". *)
Definition exStrictWallet : wallet :=
  mkWallet (fun t => if String.eqb t "short"
                     then Fail (Plain "invalid hash length")
                     else Ok t)
           (fun _ => Some "tx"%string)
           (fun _ => Some "DsAddress"%string) (fun _ => Some 0%Z)
           (fun _ _ sig => Ok (String.eqb sig "valid")).

(** The two journals the main loop appends to. *)
Definition failedPath (cfg : config) (token : string) : string :=
  journalPath (voteDir cfg) (run cfg) failedJournal token.

Definition successPath (cfg : config) (token : string) : string :=
  journalPath (voteDir cfg) (run cfg) successJournal token.

Definition workPath (cfg : config) (token : string) : string :=
  journalPath (voteDir cfg) (run cfg) workJournal token.

(** A world in which the second [Encode] call of an append fails. *)
Definition ioDiskFull : journalIO :=
  mkJournalIO true None
              (fun k => if Nat.eqb k 1 then Some (Plain "no space left on device")
                        else None).

(* ===================================================================== *)
(** ** The [verify] command                                              *)
(* ===================================================================== *)

(** Go's [encoding/hex]: the value of a hexadecimal digit, of either
    case, and [hex.DecodeString] with its two errors.  An invalid byte
    is reported before a bad length. *)
Module hex.

Inductive error :=
| InvalidByteError (c : ascii)
| ErrLength.

Definition fromHexChar (c : ascii) : option N :=
  let n := N_of_ascii c in
  if (48 <=? n)%N && (n <=? 57)%N then Some (n - 48)%N
  else if (97 <=? n)%N && (n <=? 102)%N then Some (n - 97 + 10)%N
  else if (65 <=? n)%N && (n <=? 70)%N then Some (n - 65 + 10)%N
  else None.

Fixpoint DecodeString (s : string) : error + list N :=
  match s with
  | EmptyString => inr []
  | String p EmptyString =>
      match fromHexChar p with
      | None => inl (InvalidByteError p)
      | Some _ => inl ErrLength
      end
  | String p (String q rest) =>
      match fromHexChar p, fromHexChar q with
      | None, _ => inl (InvalidByteError p)
      | Some _, None => inl (InvalidByteError q)
      | Some a, Some b =>
          match DecodeString rest with
          | inl e => inl e
          | inr bytes => inr ((a * 16 + b)%N :: bytes)
          end
      end
  end.

End hex.

(** What [verify] does that can be seen from outside: the lines it
    prints itself, and its calls of [verifyVote]. *)
Inductive verifyEvent :=
| VotesHeader                          (* "Votes:" *)
| VoteName (name : string)             (* "  %v" *)
| InvalidVote (arg : string)           (* "invalid vote: %v" *)
| Verified (vote : string)             (* c.verifyVote(vote) *)
| VerifyVoteError (err : error).       (* "verifyVote: %v" *)

Section Verify.

(** [ReadDir] is the result of [ioutil.ReadDir(c.cfg.voteDir)], the
    names of the entries; [verifyVote] is the error [c.verifyVote]
    returns for a vote, if any. *)
Variable ReadDir : result (list string).
Variable verifyVote : string -> option error.

Definition isHexName (name : string) : bool :=
  match hex.DecodeString name with
  | inl _ => false
  | inr _ => true
  end.

(** One call of [verifyVote], with the line printed for its error. *)
Definition verifyOne (vote : string) : list verifyEvent :=
  Verified vote ::
  match verifyVote vote with
  | Some err => [VerifyVoteError err]
  | None => []
  end.

(** The final [for k := range args] loop. *)
Definition verifyArgs (args : list string) : list verifyEvent :=
  flat_map (fun arg => if isHexName arg then verifyOne arg
                       else [InvalidVote arg]) args.

(** [verify]: the events, and the error it returns, if any.  With no
    argument the votes are listed and the final loop has nothing to do;
    with the one argument "ALL" every directory with a hex name is
    verified. *)
Definition verify (args : list string) : list verifyEvent * option error :=
  match args with
  | [] =>
      match ReadDir with
      | Fail err => ([], Some err)
      | Ok fa =>
          (VotesHeader ::
           flat_map (fun name => if isHexName name then [VoteName name]
                                 else []) fa
           ++ verifyArgs [],
           None)
      end
  | _ =>
      if Nat.eqb (length args) 1 && String.eqb (nth 0 args EmptyString) "ALL"
      then
        match ReadDir with
        | Fail err => ([], Some err)
        | Ok fa =>
            (flat_map (fun name => if isHexName name then verifyOne name
                                   else []) fa,
             None)
        end
      else (verifyArgs args, None)
  end.

End Verify.

(** The votes [verify] has called [verifyVote] on, in order. *)
Definition verified (events : list verifyEvent) : list string :=
  flat_map (fun ev => match ev with Verified v => [v] | _ => [] end) events.

(** A string of an even number of hexadecimal digits. *)
Fixpoint allHex (s : string) : bool :=
  match s with
  | EmptyString => true
  | String c rest =>
      match hex.fromHexChar c with
      | Some _ => allHex rest
      | None => false
      end
  end.

Definition evenHex (s : string) : bool :=
  Nat.even (String.length s) && allHex s.












(* ===================================================================== *)
(** * Properties                                                         *)
(* ===================================================================== *)

(** ** The conversions on small and large values                         *)

Example FormatUint16_255 : strconv.FormatUint16 255 = "ff"%string.
Proof. reflexivity. Qed.

Example FormatUint16_max :
  strconv.FormatUint16 (2 ^ 64 - 1) = "ffffffffffffffff"%string.
Proof. reflexivity. Qed.

Example ParseUint10_max :
  strconv.ParseUint10 "18446744073709551615" = Ok (2 ^ 64 - 1).
Proof. reflexivity. Qed.

Example ParseUint10_overflow :
  strconv.ParseUint10 "18446744073709551616"
  = Fail (ErrRange "ParseUint" "18446744073709551616").
Proof. reflexivity. Qed.

(* ===================================================================== *)
(** ** Hexadecimal out, decimal in                                       *)
(* ===================================================================== *)

Section HexDec.
Import strconv.

















End HexDec.

Section Tally.
Import strconv.






End Tally.

Lemma votesFor_cons b v votes :
  votesFor b (v :: votes)
  = ((match strconv.ParseUint10 (CastVoteDetails.VoteBit v) with
      | Ok bits => if N.eqb bits b then 1 else 0
      | Fail _ => 0
      end) + votesFor b votes)%nat.
Proof.
  unfold votesFor. simpl.
  destruct (strconv.ParseUint10 (CastVoteDetails.VoteBit v)) as [bits|];
    [|reflexivity].
  destruct (N.eqb bits b); reflexivity.
Qed.

(** The counting loop: every vote is counted once, under the value its
    vote bit reads as. *)
Lemma tallyVotes_counts votes : forall count total,
  Forall (fun v => exists b,
              strconv.ParseUint10 (CastVoteDetails.VoteBit v) = Ok b) votes ->
  exists count',
    tallyVotes votes count total = Ok (count', (total + length votes)%nat) /\
    forall b, default O (count' !! b)
              = (default O (count !! b) + votesFor b votes)%nat.
Proof.
  induction votes as [|v votes IH]; intros count total Hall; simpl.
  - exists count. split; [f_equal; f_equal; lia|].
    intros b. unfold votesFor. simpl. lia.
  - inversion Hall as [|? ? [bits Hb] Hrest]; subst. rewrite Hb.
    destruct (IH (<[bits := S (default O (count !! bits))]> count) (S total) Hrest)
      as [count' [Ht Hc]].
    exists count'. split; [rewrite Ht; f_equal; f_equal; lia|].
    intros b. rewrite Hc, votesFor_cons, Hb.
    destruct (N.eqb_spec bits b) as [->|Hne].
    + rewrite lookup_insert_eq. simpl. lia.
    + rewrite lookup_insert_ne by exact Hne. lia.
Qed.






(* ===================================================================== *)
(** ** The HTTP client                                                   *)
(* ===================================================================== *)

Section ClientFacts.

Context (c : ctx).

Lemma makeRequest_response method api route b req r :
  buildRequest c method api route b = Ok req ->
  clientDo c req = inr r ->
  makeRequest c method api route b = classifyResponse c r.
Proof. intros Hb Hd. unfold makeRequest. rewrite Hb, Hd. reflexivity. Qed.

(** C4.  Once the request is built, [makeRequest] classifies what comes
    back: (1) a transport failure of [client.Do] is an [ErrRetry] that
    names the call and carries the transport error (there is no
    response, so its code and body are the zero values); (2) a response
    whose status is neither 200 nor 400 is an [ErrRetry] that names the
    status check and carries the status code and the response body;
    (3) a 400 response whose body is a [UserErrorReply] with a nonzero
    error code is a plain error, which [errors.As] does not take for an
    [ErrRetry]. *)
Theorem makeRequest_classifies method api route b req :
  buildRequest c method api route b = Ok req ->
  (forall err, clientDo c req = inl err ->
     makeRequest c method api route b
     = Fail (Retry (ErrRetry.mk "c.client.Do(req)" EmptyString 0 (Some err)))) /\
  (forall r, clientDo c req = inr r ->
     http.StatusCode r <> 200%Z -> http.StatusCode r <> 400%Z ->
     makeRequest c method api route b
     = Fail (Retry (ErrRetry.mk "r.StatusCode != http.StatusOK"
                                (http.Body r) (http.StatusCode r) None))) /\
  (forall r ue, clientDo c req = inr r ->
     http.StatusCode r = 400%Z ->
     unmarshalUserErrorReply c (http.Body r) = Some ue ->
     UserErrorReply.ErrorCode ue <> 0 ->
     exists msg, makeRequest c method api route b = Fail (Plain msg) /\
                 errorsAsErrRetry (Plain msg) = None).
Proof.
  intros Hb. split; [|split].
  - intros err Hd. unfold makeRequest. rewrite Hb, Hd. reflexivity.
  - intros r Hd H200 H400. rewrite (makeRequest_response _ _ _ _ _ _ Hb Hd).
    unfold classifyResponse, http.StatusOK, http.StatusBadRequest.
    destruct (Z.eqb_spec (http.StatusCode r) 200); [contradiction|].
    destruct (Z.eqb_spec (http.StatusCode r) 400); [contradiction|].
    reflexivity.
  - intros r ue Hd H400 Hue Hcode.
    rewrite (makeRequest_response _ _ _ _ _ _ Hb Hd).
    unfold classifyResponse, http.StatusOK, http.StatusBadRequest.
    rewrite H400, Hue. simpl.
    destruct (N.eqb_spec (UserErrorReply.ErrorCode ue) 0); [contradiction|].
    simpl. eexists. split; reflexivity.
Qed.

(** C8.  A 400 response whose body does not unmarshal into a
    [UserErrorReply], or unmarshals into one whose error code is zero,
    makes [makeRequest] return the raw response body and no error: the
    same result as a 200 response with that body. *)
Theorem makeRequest_400_unstructured method api route b req r :
  buildRequest c method api route b = Ok req ->
  clientDo c req = inr r ->
  http.StatusCode r = 400%Z ->
  (unmarshalUserErrorReply c (http.Body r) = None \/
   exists ue, unmarshalUserErrorReply c (http.Body r) = Some ue /\
              UserErrorReply.ErrorCode ue = 0) ->
  makeRequest c method api route b = Ok (http.Body r) /\
  makeRequest c method api route b
  = classifyResponse c (http.mkResponse 200 (http.Body r)).
Proof.
  intros Hb Hd H400 Hue.
  rewrite (makeRequest_response _ _ _ _ _ _ Hb Hd).
  unfold classifyResponse, http.StatusOK, http.StatusBadRequest.
  rewrite H400. simpl.
  destruct Hue as [-> | [ue [-> Hz]]]; [split; reflexivity|].
  rewrite Hz. split; reflexivity.
Qed.

(** C10.  [sendVote] fails on a ballot that does not hold exactly one
    vote, fails on a reply that does not hold exactly one receipt, and
    so every result it returns without error is the single receipt of
    the reply to a ballot of a single vote. *)
Theorem sendVote_one_vote_one_receipt ballot :
  (length (CastBallot.Votes ballot) <> 1%nat ->
     sendVote c ballot = Fail (Plain "sendVote: only one vote allowed")) /\
  (forall responseBody vr,
     length (CastBallot.Votes ballot) = 1%nat ->
     makeRequest c http.MethodPost (APIRoute c) (RouteCastBallot c)
                 (Some (ballotPayload c ballot)) = Ok responseBody ->
     unmarshalCastBallotReply c responseBody = inr vr ->
     length (CastBallotReply.Receipts vr) <> 1%nat ->
     sendVote c ballot = Fail (Plain "sendVote: received multiple answers")) /\
  (forall receipt,
     sendVote c ballot = Ok receipt ->
     (exists v, CastBallot.Votes ballot = [v]) /\
     exists responseBody vr,
       makeRequest c http.MethodPost (APIRoute c) (RouteCastBallot c)
                   (Some (ballotPayload c ballot)) = Ok responseBody /\
       unmarshalCastBallotReply c responseBody = inr vr /\
       CastBallotReply.Receipts vr = [receipt]).
Proof.
  unfold sendVote. split; [|split].
  - intros Hlen.
    destruct (Nat.eqb_spec (length (CastBallot.Votes ballot)) 1);
      [contradiction | reflexivity].
  - intros responseBody vr Hlen Hreq Hun Hrc.
    rewrite Hlen. simpl. rewrite Hreq, Hun.
    destruct (Nat.eqb_spec (length (CastBallotReply.Receipts vr)) 1);
      [contradiction | reflexivity].
  - intros receipt Hs.
    destruct (Nat.eqb_spec (length (CastBallot.Votes ballot)) 1) as [Hlen|];
      [|discriminate].
    simpl in Hs. split.
    + destruct (CastBallot.Votes ballot) as [|v [|w l]]; try discriminate.
      exists v. reflexivity.
    + destruct (makeRequest c http.MethodPost (APIRoute c) (RouteCastBallot c)
                            (Some (ballotPayload c ballot)))
        as [responseBody|e]; [|discriminate].
      destruct (unmarshalCastBallotReply c responseBody) as [err|vr] eqn:Hun;
        [discriminate|].
      destruct (Nat.eqb_spec (length (CastBallotReply.Receipts vr)) 1)
        as [Hrc|]; [|discriminate].
      simpl in Hs.
      destruct (CastBallotReply.Receipts vr) as [|r [|r' l]] eqn:Hr;
        try discriminate.
      inversion Hs; subst. exists responseBody, vr. auto.
Qed.

End ClientFacts.

(** [makeRequest_classifies] on a server that answers 502. *)
Lemma makeRequest_classifies_witness :
  makeRequest (exCtx (http.mkResponse 502 "bad gateway")) "POST" "/api"
              "/castballot" (Some (CastBallot.mk [exVote]))
  = Fail (Retry (ErrRetry.mk "r.StatusCode != http.StatusOK" "bad gateway"
                             502 None)).
Proof.
  refine (proj1 (proj2 (makeRequest_classifies
            (exCtx (http.mkResponse 502 "bad gateway")) "POST" "/api"
            "/castballot" (Some (CastBallot.mk [exVote])) _ eq_refl))
          (http.mkResponse 502 "bad gateway") eq_refl _ _);
    simpl; discriminate.
Defined.

(** [makeRequest_400_unstructured] on a 400 whose body is not JSON. *)
Lemma makeRequest_400_unstructured_witness :
  makeRequest (exCtx (http.mkResponse 400 "<html>")) "POST" "/api"
              "/castballot" (Some (CastBallot.mk [exVote]))
  = Ok "<html>"%string.
Proof.
  refine (proj1 (makeRequest_400_unstructured
            (exCtx (http.mkResponse 400 "<html>")) "POST" "/api"
            "/castballot" (Some (CastBallot.mk [exVote])) _
            (http.mkResponse 400 "<html>")
            eq_refl eq_refl eq_refl (or_introl eq_refl))).
Defined.

(** [sendVote_one_vote_one_receipt] on a ballot of two votes. *)
Lemma sendVote_one_vote_one_receipt_witness :
  sendVote (exCtx (http.mkResponse 200 "{}")) (CastBallot.mk [exVote; exVote])
  = Fail (Plain "sendVote: only one vote allowed").
Proof.
  refine (proj1 (sendVote_one_vote_one_receipt
            (exCtx (http.mkResponse 200 "{}"))
            (CastBallot.mk [exVote; exVote])) _).
  simpl. discriminate.
Defined.

(* ===================================================================== *)
(** ** The journal                                                       *)
(* ===================================================================== *)

Section Journal.

Lemma File_eta f : os.mkFile (os.perm f) (os.content f) = f.
Proof. destruct f; reflexivity. Qed.

Lemma FS_eta fs : os.mkFS (os.dirs fs) (os.files fs) = fs.
Proof. destruct fs; reflexivity. Qed.

Lemma Write_append h v fs f :
  Z.testbit (os.flag h) 10 = true ->
  os.files fs !! os.name h = Some f ->
  os.Write h v fs
  = (os.mkFS (os.dirs fs)
             (<[os.name h := os.mkFile (os.perm f) (os.content f ++ [v])]>
                (os.files fs)),
     os.mkHandle (os.name h) (os.flag h) (S (os.offset h))).
Proof. intros Hfl Hf. unfold os.Write. rewrite Hf, Hfl. reflexivity. Qed.

(** The loop appends a prefix of [work] to the file of the handle, the
    whole of [work] when it returns no error, and touches nothing else. *)
Lemma encodeWork_appends io work : forall k h fs f,
  Z.testbit (os.flag h) 10 = true ->
  os.files fs !! os.name h = Some f ->
  exists done,
    done `prefix_of` work /\
    (encodeWork io k h work fs).1
    = os.mkFS (os.dirs fs)
              (<[os.name h := os.mkFile (os.perm f) (os.content f ++ done)]>
                 (os.files fs)) /\
    ((encodeWork io k h work fs).2 = None -> done = work).
Proof.
  induction work as [|v work IH]; intros k h fs f Hfl Hf; simpl.
  - exists []. split; [reflexivity|]. split; [|reflexivity].
    rewrite app_nil_r, File_eta, insert_id by exact Hf. symmetry. apply FS_eta.
  - destruct (encodeFails io k) as [e|] eqn:Ek; simpl.
    + exists []. split; [apply prefix_nil|]. split; [|discriminate].
      rewrite app_nil_r, File_eta, insert_id by exact Hf. symmetry. apply FS_eta.
    + rewrite (Write_append h v fs f Hfl Hf).
      edestruct (IH (S k) (os.mkHandle (os.name h) (os.flag h) (S (os.offset h)))
                    (os.mkFS (os.dirs fs)
                       (<[os.name h := os.mkFile (os.perm f) (os.content f ++ [v])]>
                          (os.files fs))))
        as [done [Hpre [Hfs Hall]]].
      * exact Hfl.
      * simpl. apply lookup_insert_eq.
      * exists (v :: done). split; [apply prefix_cons; exact Hpre|].
        split.
        -- rewrite Hfs. simpl. rewrite insert_insert_eq, <- app_assoc.
           reflexivity.
        -- intros Hn. rewrite (Hall Hn). reflexivity.
Qed.

Lemma journalFlag_append : Z.testbit journalFlag 10 = true.
Proof. reflexivity. Qed.

(** What [journalOpen] leaves behind when it succeeds. *)
Lemma journalOpen_ok voteDir run io filename token fs fs1 fh :
  journalOpen voteDir run io filename token fs = (fs1, Ok fh) ->
  let dir := journalDir voteDir token in
  let p := journalPath voteDir run filename token in
  os.name fh = p /\ os.flag fh = journalFlag /\
  os.dirs fs1 = match os.dirs fs !! dir with
                | Some _ => os.dirs fs
                | None => <[dir := dirPerm]> (os.dirs fs)
                end /\
  os.files fs1 = match os.files fs !! p with
                 | Some _ => os.files fs
                 | None => <[p := os.mkFile filePerm []]> (os.files fs)
                 end.
Proof.
  intros H. cbv zeta.
  set (dir := journalDir voteDir token).
  set (p := journalPath voteDir run filename token).
  unfold journalOpen, os.OpenFile, os.MkdirAll in H.
  fold dir in H. fold p in H.
  destruct (openDenied io); [inversion H|].
  destruct (os.dirs fs !! dir) eqn:Ed.
  - rewrite Ed in H.
    destruct (os.files fs !! p) eqn:Ef; inversion H; subst; simpl; auto.
  - destruct (mkdirAllowed io); simpl in H.
    + rewrite lookup_insert_eq in H.
      destruct (os.files fs !! p) eqn:Ef; inversion H; subst; simpl; auto.
    + rewrite Ed in H. inversion H.
Qed.

(** Whatever happens, [jsonLog] leaves the files as they were, or with
    a prefix of the marker and the payload appended to its own file. *)
Lemma jsonLog_files voteDir run now io filename token work fs :
  let p := journalPath voteDir run filename token in
  let out := jsonLog voteDir run now io filename token work fs in
  exists done,
    done `prefix_of` (JTime (JSONTime.mk now) :: work) /\
    (out.2 = None -> done = JTime (JSONTime.mk now) :: work) /\
    ((os.files out.1 = os.files fs /\ out.2 <> None) \/
     os.files out.1
     = <[p := os.mkFile (permAfter fs p) (contentOf fs p ++ done)]>
         (os.files fs)).
Proof.
  cbv zeta. set (p := journalPath voteDir run filename token).
  unfold jsonLog.
  destruct (journalOpen voteDir run io filename token fs) as [fs1 [fh|e]] eqn:Ho.
  - apply journalOpen_ok in Ho. cbv zeta in Ho. fold p in Ho.
    destruct Ho as [Hn [Hfl [_ Hfiles]]].
    destruct fh as [nm fl off]. simpl in Hn, Hfl. subst nm fl.
    assert (Hp : os.files fs1 !! p
                 = Some (os.mkFile (permAfter fs p) (contentOf fs p))).
    { rewrite Hfiles. unfold permAfter, contentOf.
      destruct (os.files fs !! p) as [f|] eqn:Ef.
      - rewrite Ef, File_eta. reflexivity.
      - apply lookup_insert_eq. }
    assert (Hins : forall d,
               <[p := d]> (os.files fs1) = <[p := d]> (os.files fs)).
    { intros d. rewrite Hfiles.
      destruct (os.files fs !! p); [reflexivity | apply insert_insert_eq]. }
    destruct (encodeFails io 0) as [e|] eqn:E0; simpl.
    + exists []. split; [apply prefix_nil|]. split; [discriminate|].
      right. rewrite app_nil_r, <- Hins. symmetry. apply insert_id. exact Hp.
    + rewrite (Write_append (os.mkHandle p journalFlag off) _ fs1 _
                              journalFlag_append Hp). simpl.
      edestruct (encodeWork_appends io work 1
                   (os.mkHandle p journalFlag (S off))
                   (os.mkFS (os.dirs fs1)
                      (<[p := os.mkFile (permAfter fs p)
                            (contentOf fs p ++ [JTime (JSONTime.mk now)])]>
                         (os.files fs1))))
        as [done [Hpre [Hfs Hall]]];
        [apply journalFlag_append | apply lookup_insert_eq |].
      exists (JTime (JSONTime.mk now) :: done).
      split; [apply prefix_cons; exact Hpre|].
      split; [intros Hnone; rewrite (Hall Hnone); reflexivity|].
      right. rewrite Hfs. simpl.
      rewrite insert_insert_eq, <- app_assoc. simpl. apply Hins.
  - simpl. exists []. split; [apply prefix_nil|]. split; [discriminate|].
    left. split; [|discriminate].
    unfold journalOpen, os.OpenFile, os.MkdirAll in Ho.
    destruct (openDenied io).
    + inversion Ho; subst.
      destruct (os.dirs fs !! journalDir voteDir token); [reflexivity|].
      destruct (mkdirAllowed io); reflexivity.
    + destruct (os.dirs fs !! journalDir voteDir token) eqn:Ed.
      * rewrite Ed in Ho.
        destruct (os.files fs !! _); [inversion Ho|].
        simpl in Ho. inversion Ho.
      * destruct (mkdirAllowed io); simpl in Ho.
        -- rewrite lookup_insert_eq in Ho.
           destruct (os.files fs !! _); [inversion Ho|].
           simpl in Ho. inversion Ho.
        -- rewrite Ed in Ho. inversion Ho; subst. reflexivity.
Qed.

Lemma encodeWork_dirs io work : forall k h fs,
  os.dirs (encodeWork io k h work fs).1 = os.dirs fs.
Proof.
  induction work as [|v work IH]; intros k h fs; simpl; [reflexivity|].
  destruct (encodeFails io k); [reflexivity|].
  unfold os.Write. destruct (os.files fs !! os.name h); rewrite IH; reflexivity.
Qed.

(** A successful [jsonLog] leaves the journal directory in place, with
    the bits it had or, newly made, with 0700. *)
Lemma jsonLog_dirs voteDir run now io filename token work fs :
  let dir := journalDir voteDir token in
  let out := jsonLog voteDir run now io filename token work fs in
  out.2 = None ->
  os.dirs out.1 !! dir
  = Some (match os.dirs fs !! dir with Some m => m | None => dirPerm end).
Proof.
  cbv zeta. unfold jsonLog.
  destruct (journalOpen voteDir run io filename token fs) as [fs1 [fh|e]] eqn:Ho;
    [|discriminate].
  apply journalOpen_ok in Ho. cbv zeta in Ho.
  destruct Ho as [_ [_ [Hd _]]].
  destruct (encodeFails io 0); [discriminate|].
  unfold os.Write. intros _.
  assert (Hgoal : os.dirs fs1 !! journalDir voteDir token
                  = Some match os.dirs fs !! journalDir voteDir token with
                         | Some m => m | None => dirPerm end).
  { rewrite Hd. destruct (os.dirs fs !! journalDir voteDir token) eqn:Ed;
      [exact Ed | apply lookup_insert_eq]. }
  destruct (os.files fs1 !! os.name fh); rewrite encodeWork_dirs; exact Hgoal.
Qed.

(** A [jsonLog] that returns no error has put the marker and the whole
    payload at the end of its file. *)
Lemma jsonLog_ok_file voteDir run now io filename token work fs :
  let p := journalPath voteDir run filename token in
  let out := jsonLog voteDir run now io filename token work fs in
  out.2 = None ->
  os.files out.1 !! p
  = Some (os.mkFile (permAfter fs p)
                    (contentOf fs p ++ JTime (JSONTime.mk now) :: work)).
Proof.
  cbv zeta. intros Hnone.
  destruct (jsonLog_files voteDir run now io filename token work fs)
    as [done [_ [Hall Hfiles]]]. cbv zeta in Hall, Hfiles.
  destruct Hfiles as [[_ Hne]|Hfiles]; [contradiction|].
  rewrite Hfiles, lookup_insert_eq, (Hall Hnone). reflexivity.
Qed.

End Journal.

(** C5, as amended.  An append by [jsonLog] goes to the file
    [<voteDir>/<token>/<filename>.<ts>], where [<ts>] is the Unix time of
    the start of the run and the three journal names are [failed.json],
    [success.json] and [work.json] (so the files are [work.json.<ts>] and
    so on).  The file is opened with [O_WRONLY|O_CREATE|O_APPEND].  When
    the append returns no error, the directory exists, with mode 0700 if
    the append made it, and the file holds what it held before, followed
    by the time marker and the payload values, with mode 0600 if the
    append made it.  Whether or not it returns an error, every file keeps
    its former contents as a prefix, and files other than the journal's
    are not touched. *)
Theorem jsonLog_appends voteDir run now io filename token work fs :
  let dir := journalDir voteDir token in
  let p := journalPath voteDir run filename token in
  let out := jsonLog voteDir run now io filename token work fs in
  p = Join (Join voteDir token) (filename +:+ "." +:+ sprintInt run) /\
  (failedJournal = "failed.json" /\ successJournal = "success.json" /\
   workJournal = "work.json")%string /\
  (forall fs1 fh, journalOpen voteDir run io filename token fs = (fs1, Ok fh) ->
     os.name fh = p /\
     os.flag fh = Z.lor (Z.lor os.O_WRONLY os.O_CREATE) os.O_APPEND) /\
  (out.2 = None ->
     os.dirs out.1 !! dir
     = Some (match os.dirs fs !! dir with Some m => m | None => 448%Z end) /\
     os.files out.1 !! p
     = Some (os.mkFile
               (match os.files fs !! p with Some f => os.perm f | None => 384%Z end)
               (contentOf fs p ++ JTime (JSONTime.mk now) :: work))) /\
  (forall q, contentOf fs q `prefix_of` contentOf out.1 q) /\
  (forall q, q <> p -> os.files out.1 !! q = os.files fs !! q).
Proof.
  cbv zeta.
  split; [reflexivity|]. split; [repeat split|].
  split.
  { intros fs1 fh Ho. apply journalOpen_ok in Ho. cbv zeta in Ho.
    destruct Ho as [Hn [Hf _]]. auto. }
  destruct (jsonLog_files voteDir run now io filename token work fs)
    as [done [Hpre [Hall Hfiles]]]. cbv zeta in Hpre, Hall, Hfiles.
  split; [|split].
  - intros Hnone. split.
    + apply (jsonLog_dirs voteDir run now io filename token work fs Hnone).
    + apply (jsonLog_ok_file voteDir run now io filename token work fs Hnone).
  - intros q. destruct Hfiles as [[Hsame _]|Hfiles].
    + unfold contentOf. rewrite Hsame. reflexivity.
    + unfold contentOf at 2. rewrite Hfiles.
      destruct (decide (journalPath voteDir run filename token = q)) as [<-|Hne].
      * rewrite lookup_insert_eq. simpl. apply prefix_app_r. reflexivity.
      * rewrite lookup_insert_ne by exact Hne. reflexivity.
  - intros q Hq. destruct Hfiles as [[Hsame _]|Hfiles].
    + rewrite Hsame. reflexivity.
    + rewrite Hfiles. apply lookup_insert_ne. congruence.
Qed.

(** [jsonLog_appends] on the first append of a run to a fresh directory. *)
Lemma jsonLog_appends_witness :
  os.files (jsonLog "votes" 1600000000 "Jan  1 00:00:00.000000000" ioOk
                    workJournal "abcd" [JWork []] emptyFS).1
    !! "votes/abcd/work.json.1600000000"%string
  = Some (os.mkFile 384 [JTime (JSONTime.mk "Jan  1 00:00:00.000000000");
                         JWork []]).
Proof.
  refine (proj2 (proj1 (proj2 (proj2 (proj2
            (jsonLog_appends "votes" 1600000000 "Jan  1 00:00:00.000000000"
               ioOk workJournal "abcd" [JWork []] emptyFS)))) _)).
  vm_compute. reflexivity.
Defined.

(** C5, as stated, fails on the names: the work journal of the run that
    started at Unix time 1600000000 is not [work.1600000000]. *)
Lemma jsonLog_names_counterexample :
  let out := jsonLog "votes" 1600000000 "Jan  1 00:00:00.000000000" ioOk
                     workJournal "abcd" [JWork []] emptyFS in
  out.2 = None /\
  os.files out.1 !! "votes/abcd/work.1600000000"%string = None /\
  os.files out.1 !! "votes/abcd/work.json.1600000000"%string
  = Some (os.mkFile 384 [JTime (JSONTime.mk "Jan  1 00:00:00.000000000");
                         JWork []]).
Proof. vm_compute. repeat split. Qed.

(* ===================================================================== *)
(** ** The streaming decoders                                            *)
(* ===================================================================== *)

Section DecoderFacts.

Context (json : codec).

Lemma eqb_empty_false s : s <> EmptyString -> String.eqb s EmptyString = false.
Proof. intros H. apply String.eqb_neq. exact H. Qed.

(** In state 0 the loop starts a fresh tuple: what [ft] and [ticket]
    hold does not matter. *)
Lemma failedLoop_fresh vals tr ft tk ft' tk' m :
  decodeFailedLoop json vals tr 0 ft tk m = decodeFailedLoop json vals tr 0 ft' tk' m.
Proof.
  destruct vals as [|v1 [|v2 r]]; simpl; try reflexivity;
    destruct (asTime json v1); reflexivity.
Qed.

Lemma successLoop_fresh vals tr st st' m :
  decodeSuccessLoop json vals tr 0 st m = decodeSuccessLoop json vals tr 0 st' m.
Proof. destruct vals as [|v1 r]; simpl; [reflexivity|]. destruct (asTime json v1); reflexivity. Qed.


(** Complete tuples at the front of the input are filed, and the loop
    goes on with the rest of the input in state 0. *)
Lemma failedLoop_whole pre tl : wholeFailed json pre tl ->
  forall rest tr ft tk m,
    decodeFailedLoop json (pre ++ rest) tr 0 ft tk m
    = decodeFailedLoop json rest tr 0 ft tk (fileFailed tl m).
Proof.
  induction 1 as [|v1 v2 v3 r t vote e tl Ht Hb Htk He Hw IH];
    intros rest tr ft tk m; [reflexivity|].
  simpl. rewrite Ht, Hb. simpl. rewrite He, (eqb_empty_false _ Htk).
  rewrite IH. apply failedLoop_fresh.
Qed.

Lemma successLoop_whole pre tl : wholeSuccess json pre tl ->
  forall rest tr st m,
    decodeSuccessLoop json (pre ++ rest) tr 0 st m
    = decodeSuccessLoop json rest tr 0 st (fileSuccess tl m).
Proof.
  induction 1 as [|v1 v2 r t rp tl Ht Hr Htk Hw IH];
    intros rest tr st m; [reflexivity|].
  simpl. rewrite Ht, Hr, (eqb_empty_false _ Htk).
  rewrite IH. apply successLoop_fresh.
Qed.












(** *** What is printed stays printed *)

Lemma fold_left_keeps {A B} (f : A -> B -> A) (P : A -> Prop) l :
  (forall a b, P a -> P (f a b)) -> forall a, P a -> P (fold_left f l a).
Proof. intros Hf. induction l as [|b l IH]; intros a Ha; simpl; auto. Qed.



Lemma countStat_printed c acc vi x :
  In x acc.2 -> In x (countStat c acc vi).2.
Proof.
  destruct acc as [[tk fv] out]. unfold countStat. simpl. intros Hin.
  destruct (success c !! _); simpl; [|exact Hin].
  destruct (Nat.eqb _ 1); [exact Hin | apply in_or_app; left; exact Hin].
Qed.

Lemma countFailed_printed cast n v x :
  In x (lines n) -> In x (lines (countFailed cast n v)).
Proof.
  intros Hin. unfold countFailed.
  destruct (Nat.eqb (voteStat.retries v) 0).
  - destruct (decide _); [exact Hin|].
    destruct (negb _); simpl; [apply in_or_app; left|]; exact Hin.
  - destruct (negb _); simpl; [apply in_or_app; left|]; exact Hin.
Qed.

Lemma crossCheck_printed eligible cast c fv acc ticket x :
  In x acc.2 -> In x (crossCheck eligible cast c fv acc ticket).2.
Proof.
  destruct acc as [k out]. unfold crossCheck. simpl. intros Hin.
  assert (Hin' : In x (if decide (ticket ∈ eligible) then (k, out)
                       else (S k, out ++ [WorkTicketNotEligible ticket])).2).
  { destruct (decide _); simpl; [|apply in_or_app; left]; exact Hin. }
  destruct (if decide (ticket ∈ eligible) then (k, out)
            else (S k, out ++ [WorkTicketNotEligible ticket])) as [k' out'].
  simpl in Hin'.
  destruct (success c !! ticket), (fv !! ticket); simpl;
    try destruct (decide _); simpl;
    try (apply in_or_app; left); exact Hin'.
Qed.

(** *** Lines that report a failed vote come from one loop only *)

Ltac no_failed_line :=
  repeat match goal with
         | H : In _ (_ ++ _) |- _ => apply in_app_or in H; destruct H as [H|H]
         | H : In _ [_] |- _ => destruct H as [H|[]]; try discriminate H
         | H : In _ (_ :: _) |- _ => destruct H as [H|H]; try discriminate H
         | H : In _ [] |- _ => destruct H
         end; try assumption.

Lemma readJournal_failed_line dir c entry t reason :
  In (FAILED t reason) (printed (readJournal json dir c entry)) ->
  In (FAILED t reason) (printed c).
Proof.
  unfold readJournal.
  destruct (String.prefix failedJournal entry.1).
  { destruct (decodeFailed _ _ _) as [m [e|]]; simpl; intros H;
      no_failed_line. }
  destruct (String.prefix successJournal entry.1).
  { destruct (decodeSuccess _ _ _) as [m [e|]]; simpl; intros H;
      no_failed_line. }
  destruct (String.prefix workJournal entry.1).
  { destruct (decodeWork _ _ _) as [m [e|]]; simpl; intros H;
      no_failed_line. }
  destruct (String.eqb entry.1 ".voteresults"); simpl; intros H;
    no_failed_line.
Qed.

Lemma readJournals_failed_line dir fa : forall c t reason,
  In (FAILED t reason) (printed (readJournals json dir fa c)) ->
  In (FAILED t reason) (printed c).
Proof.
  unfold readJournals. induction fa as [|e fa IH]; intros c t reason H;
    simpl in H; [exact H|].
  apply IH in H. apply readJournal_failed_line in H. exact H.
Qed.

Lemma countStat_failed_line c acc vi t reason :
  In (FAILED t reason) (countStat c acc vi).2 -> In (FAILED t reason) acc.2.
Proof.
  destruct acc as [[tk fv] out]. unfold countStat. simpl.
  destruct (success c !! _); simpl; [|auto].
  destruct (Nat.eqb _ 1); intros H; no_failed_line.
Qed.

Lemma countStats_failed_line c t reason :
  In (FAILED t reason) (countStats c).2 -> In (FAILED t reason) (printed c).
Proof.
  unfold countStats.
  generalize (workVotes (work c)).
  assert (G : forall l acc, In (FAILED t reason) (fold_left (countStat c) l acc).2 ->
                            In (FAILED t reason) acc.2).
  { induction l as [|vi l IH]; intros acc H; simpl in H; [exact H|].
    apply IH in H. apply countStat_failed_line in H. exact H. }
  intros l H. apply G in H. exact H.
Qed.

Lemma crossCheck_failed_line eligible cast c fv acc ticket t reason :
  In (FAILED t reason) (crossCheck eligible cast c fv acc ticket).2 ->
  In (FAILED t reason) acc.2.
Proof.
  destruct acc as [k out]. unfold crossCheck. simpl.
  destruct (decide (ticket ∈ eligible));
    destruct (success c !! ticket), (fv !! ticket); simpl;
    try destruct (decide _); simpl; intros H; no_failed_line.
Qed.

Lemma crossChecks_failed_line eligible cast c fv l : forall acc t reason,
  In (FAILED t reason) (fold_left (crossCheck eligible cast c fv) l acc).2 ->
  In (FAILED t reason) acc.2.
Proof.
  induction l as [|x l IH]; intros acc t reason H; simpl in H; [exact H|].
  apply IH in H. apply crossCheck_failed_line in H. exact H.
Qed.

(** The "failedVotes" loop: each counter grows by the number of
    entries of its kind, and a failed vote is reported only for an
    entry counted as one. *)
Lemma countFailed_step cast n v :
  completedNotRecorded (countFailed cast n v)
  = (completedNotRecorded n
     + if isCompletedNotRecorded cast v then 1 else 0)%nat /\
  failedVote (countFailed cast n v)
  = (failedVote n + if isFailedVote cast v then 1 else 0)%nat /\
  forall t reason,
    In (FAILED t reason) (lines (countFailed cast n v)) ->
    In (FAILED t reason) (lines n) \/
    (voteStat.ticket v = t /\ isFailedVote cast v = true).
Proof.
  unfold countFailed, isFailedVote, isCompletedNotRecorded.
  destruct (Nat.eqb (voteStat.retries v) 0); simpl.
  - destruct (decide (voteStat.ticket v ∈ cast)) as [Hin|Hin].
    + rewrite (bool_decide_eq_true_2 _ Hin). simpl.
      split; [lia|]. split; [lia|]. auto.
    + rewrite (bool_decide_eq_false_2 _ Hin). simpl.
      destruct (Nat.eqb (voteStat.failed v) 0); simpl.
      * split; [lia|]. split; [lia|]. auto.
      * split; [lia|]. split; [lia|]. intros t reason H.
        apply in_app_or in H. destruct H as [H|[H|[]]]; [auto|].
        inversion H; subst. auto.
  - destruct (Nat.eqb (voteStat.failed v) 0); simpl.
    + split; [lia|]. split; [lia|]. auto.
    + split; [lia|]. split; [lia|]. intros t reason H.
      apply in_app_or in H. destruct H as [H|[H|[]]]; [auto|].
      inversion H; subst. auto.
Qed.

Lemma countFailed_fold cast l : forall n,
  let n' := fold_left (countFailed cast) l n in
  completedNotRecorded n'
  = (completedNotRecorded n
     + length (List.filter (isCompletedNotRecorded cast) l))%nat /\
  failedVote n'
  = (failedVote n + length (List.filter (isFailedVote cast) l))%nat /\
  forall t reason,
    In (FAILED t reason) (lines n') ->
    In (FAILED t reason) (lines n) \/
    exists v, In v l /\ voteStat.ticket v = t /\ isFailedVote cast v = true.
Proof.
  induction l as [|v l IH]; intros n; simpl.
  - split; [lia|]. split; [lia|]. auto.
  - destruct (IH (countFailed cast n v)) as [Hc [Hf Hl]].
    destruct (countFailed_step cast n v) as [Sc [Sf Sl]].
    cbv zeta in Hc, Hf, Hl. rewrite Hc, Hf, Sc, Sf. clear Hc Hf Sc Sf.
    split; [destruct (isCompletedNotRecorded cast v); simpl; lia|].
    split; [destruct (isFailedVote cast v); simpl; lia|].
    intros t reason H. apply Hl in H. destruct H as [H|[w [Hw1 Hw2]]].
    + apply Sl in H. destruct H as [H|[H1 H2]]; [auto|].
      right. exists v. auto.
    + right. exists w. auto.
Qed.

(** A finished vote always gets its report; the report holds the
    caches as [readJournals] left them, the statistics computed from
    them, and every line printed on the way. *)
Lemma verifyVote_report voteDir vote EligibleTickets Votes fa :
  exists r,
    verifyVote json voteDir vote true EligibleTickets Votes fa = Ok r /\
    journals r = readJournals json (Join voteDir vote) fa
                                (mkCaches ∅ ∅ ∅ [Checking vote]) /\
    (tickets r, failedVotes r) = (countStats (journals r)).1 /\
    counts r = countFailedVotes (castSet Votes) (failedVotes r)
                                (countStats (journals r)).2 /\
    (forall x, In x (printed (journals r)) -> In x (output r)) /\
    (forall x, In x (output r) ->
               (exists t reason, x = FAILED t reason) ->
               In x (lines (counts r))).
Proof.
  unfold verifyVote. simpl negb. cbv iota.
  set (c := readJournals _ _ _ _).
  destruct (countStats c) as [[tk fv] out] eqn:Hs.
  set (n := countFailedVotes _ fv out).
  set (o1 := if Nat.eqb (noVote n) 0 then lines n else _).
  set (o2 := if Nat.eqb (failedVote n) 0 then o1 else _).
  set (o3 := if Nat.eqb (completedNotRecorded n) 0 then o2 else _).
  destruct (fold_left _ (elements tk) (O, o3)) as [k o4] eqn:Hx.
  eexists. split; [reflexivity|]. simpl.
  split; [reflexivity|]. fold c. rewrite Hs. simpl.
  split; [reflexivity|]. split; [reflexivity|].
  assert (Hk1 : forall x, In x (printed c) -> In x o3).
  { intros x Hin.
    assert (In x out).
    { change out with (tk, fv, out).2. rewrite <- Hs. unfold countStats.
      apply (fold_left_keeps _ (fun a => In x a.2)); [|exact Hin].
      intros a b. apply countStat_printed. }
    assert (In x (lines n)).
    { unfold n, countFailedVotes.
      apply (fold_left_keeps _ (fun a => In x (lines a))); [|assumption].
      intros a b. apply countFailed_printed. }
    unfold o3, o2, o1.
    destruct (Nat.eqb (noVote n) 0), (Nat.eqb (failedVote n) 0),
      (Nat.eqb (completedNotRecorded n) 0);
      repeat (apply in_or_app; left); assumption. }
  assert (Hk2 : forall x, In x o3 -> In x o4).
  { intros x Hin. change o4 with (k, o4).2. rewrite <- Hx.
    apply (fold_left_keeps _ (fun a => In x a.2)); [|exact Hin].
    intros a b. apply crossCheck_printed. }
  assert (Hb1 : forall t reason, In (FAILED t reason) o4 ->
                                 In (FAILED t reason) (lines n)).
  { intros t reason Hin. change o4 with (k, o4).2 in Hin. rewrite <- Hx in Hin.
    apply crossChecks_failed_line in Hin. simpl in Hin.
    unfold o3, o2, o1 in Hin.
    destruct (Nat.eqb (noVote n) 0), (Nat.eqb (failedVote n) 0),
      (Nat.eqb (completedNotRecorded n) 0); no_failed_line. }
  split.
  - intros x Hin. apply Hk1, Hk2 in Hin.
    destruct (Nat.eqb k 0), (Nat.eqb (failedVote n) 0);
      repeat (apply in_or_app; left); assumption.
  - intros x Hin [t [reason ->]]. apply Hb1.
    destruct (Nat.eqb k 0), (Nat.eqb (failedVote n) 0); no_failed_line.
Qed.

(** *** The statistics loop *)

(** After the loop, [tickets] holds the tickets of the work journal,
    and [failedVotes] holds exactly those of them without an entry in
    the success journal, each with the number of its entries in the
    failed journal as [retries]. *)
Lemma countStat_fold c out0 l :
  let r := fold_left (countStat c) l (∅, ∅, out0) in
  (forall t, t ∈ r.1.1 <-> exists vi, In vi l /\ ticketOf vi = t) /\
  (forall t, t ∈ r.1.1 -> success c !! t = None ->
             r.1.2 !! t = Some (voteStat.mk t (entries (failed c) t) 1 0)) /\
  (forall t v, r.1.2 !! t = Some v ->
               t ∈ r.1.1 /\ success c !! t = None /\
               v = voteStat.mk t (entries (failed c) t) 1 0).
Proof.
  cbv zeta. induction l as [|vi l IH] using rev_ind.
  - simpl. split; [|split].
    + intros t. split; [set_solver | intros [vi [[] _]]].
    + set_solver.
    + intros t v H. rewrite lookup_empty in H. discriminate.
  - rewrite fold_left_app. simpl.
    destruct (fold_left (countStat c) l (∅, ∅, out0)) as [[tk fv] out].
    simpl in IH. destruct IH as [IH1 [IH2 IH3]].
    unfold countStat. fold (ticketOf vi).
    assert (Hmem : forall t, t ∈ ({[ticketOf vi]} ∪ tk : gset string) <->
                             exists vi0, In vi0 (l ++ [vi]) /\ ticketOf vi0 = t).
    { intros t. rewrite elem_of_union, elem_of_singleton, IH1. split.
      - intros [->|[w [Hw1 Hw2]]].
        + exists vi. split; [apply in_or_app; right; left; reflexivity | reflexivity].
        + exists w. split; [apply in_or_app; left; exact Hw1 | exact Hw2].
      - intros [w [Hw1 Hw2]]. apply in_app_or in Hw1.
        destruct Hw1 as [Hw1|[<-|[]]]; [right; eauto | left; auto]. }
    destruct (success c !! ticketOf vi) as [s1|] eqn:Es; simpl.
    + split; [exact Hmem|]. split.
      * intros t Ht Hn. apply elem_of_union in Ht. destruct Ht as [Ht|Ht].
        -- apply elem_of_singleton in Ht. subst. congruence.
        -- apply IH2; assumption.
      * intros t v Hv. destruct (IH3 t v Hv) as [H1 [H2 H3]].
        split; [apply elem_of_union; right; exact H1 | auto].
    + split; [exact Hmem|]. split.
      * intros t Ht Hn. destruct (decide (ticketOf vi = t)) as [<-|Hne].
        -- rewrite lookup_insert_eq. reflexivity.
        -- rewrite lookup_insert_ne by exact Hne. apply IH2; [|exact Hn].
           apply elem_of_union in Ht. destruct Ht as [Ht|Ht]; [|exact Ht].
           apply elem_of_singleton in Ht. congruence.
      * intros t v Hv. destruct (decide (ticketOf vi = t)) as [<-|Hne].
        -- rewrite lookup_insert_eq in Hv. inversion Hv; subst.
           split; [apply elem_of_union; left; apply elem_of_singleton; reflexivity|].
           split; [exact Es | reflexivity].
        -- rewrite lookup_insert_ne in Hv by exact Hne.
           destruct (IH3 t v Hv) as [H1 [H2 H3]].
           split; [apply elem_of_union; right; exact H1 | auto].
Qed.

(** *** Lines of the cross check come from the cross check only *)

Lemma readJournals_cross_line dir fa : forall c x,
  (exists t, x = PiVoteFailed t \/ x = PiVoteNotSeen t) ->
  In x (printed (readJournals json dir fa c)) -> In x (printed c).
Proof.
  unfold readJournals. induction fa as [|entry fa IH]; intros c x Hx H;
    simpl in H; [exact H|].
  apply (IH _ _ Hx) in H. revert H. unfold readJournal.
  destruct Hx as [t [-> | ->]];
    (destruct (String.prefix failedJournal entry.1);
     [destruct (decodeFailed _ _ _) as [m [e|]]; simpl; intros H;
      no_failed_line|];
     destruct (String.prefix successJournal entry.1);
     [destruct (decodeSuccess _ _ _) as [m [e|]]; simpl; intros H;
      no_failed_line|];
     destruct (String.prefix workJournal entry.1);
     [destruct (decodeWork _ _ _) as [m [e|]]; simpl; intros H;
      no_failed_line|];
     destruct (String.eqb entry.1 ".voteresults"); simpl; intros H;
     no_failed_line).
Qed.

Lemma countStats_cross_line c x :
  (exists t, x = PiVoteFailed t \/ x = PiVoteNotSeen t) ->
  In x (countStats c).2 -> In x (printed c).
Proof.
  intros Hx. unfold countStats.
  generalize (workVotes (work c)).
  assert (G : forall l acc, In x (fold_left (countStat c) l acc).2 ->
                            In x acc.2).
  { induction l as [|vi l IH]; intros acc H; simpl in H; [exact H|].
    apply IH in H. revert H.
    destruct acc as [[tk fv] out]. unfold countStat. simpl.
    destruct (success c !! _); simpl; [|auto].
    destruct Hx as [t [-> | ->]];
      (destruct (Nat.eqb _ 1); intros H; no_failed_line). }
  intros l H. apply G in H. exact H.
Qed.

Lemma countFailedVotes_cross_line cast l x : forall n,
  (exists t, x = PiVoteFailed t \/ x = PiVoteNotSeen t) ->
  In x (lines (fold_left (countFailed cast) l n)) -> In x (lines n).
Proof.
  induction l as [|v l IH]; intros n Hx H; simpl in H; [exact H|].
  apply (IH _ Hx) in H. revert H. unfold countFailed.
  destruct Hx as [t [-> | ->]];
    (destruct (Nat.eqb (voteStat.retries v) 0);
     [destruct (decide _); [auto|]|];
     destruct (negb _); simpl; intros H; no_failed_line).
Qed.

(** A "pi vote failed" line is printed only for a ticket that is not in
    the server's set of cast votes, and a "pi vote not seen" line only
    for a ticket that has no entry in [failedVotes]. *)
Lemma crossChecks_cross_line eligible cast c fv l : forall acc t,
  (In (PiVoteFailed t) (fold_left (crossCheck eligible cast c fv) l acc).2 ->
   In (PiVoteFailed t) acc.2 \/ t ∉ cast) /\
  (In (PiVoteNotSeen t) (fold_left (crossCheck eligible cast c fv) l acc).2 ->
   In (PiVoteNotSeen t) acc.2 \/ fv !! t = None).
Proof.
  induction l as [|x l IH]; intros acc t; simpl; [auto|].
  destruct (IH (crossCheck eligible cast c fv acc x) t) as [IH1 IH2].
  assert (Hstep :
            (In (PiVoteFailed t) (crossCheck eligible cast c fv acc x).2 ->
             In (PiVoteFailed t) acc.2 \/ t ∉ cast) /\
            (In (PiVoteNotSeen t) (crossCheck eligible cast c fv acc x).2 ->
             In (PiVoteNotSeen t) acc.2 \/ fv !! t = None)).
  { destruct acc as [k out]. unfold crossCheck. simpl.
    destruct (decide (x ∈ eligible));
      destruct (success c !! x), (fv !! x) eqn:Efv; simpl;
      try destruct (decide (x ∈ cast)); simpl;
      (split; intros H; no_failed_line; auto);
      inversion H; subst; auto. }
  destruct Hstep as [S1 S2]. split.
  - intros H. apply IH1 in H. destruct H as [H|H]; [auto | auto].
  - intros H. apply IH2 in H. destruct H as [H|H]; [auto | auto].
Qed.

(** The lines of the report that say how a vote went: the three totals
    are always printed, with the votes that completed without being
    recorded among the successful ones; "pi vote failed" is printed only
    for a ticket the server does not show as cast, and "pi vote not
    seen" only for a ticket that is not in [failedVotes]. *)
Lemma verifyVote_totals voteDir vote EligibleTickets Votes fa r :
  verifyVote json voteDir vote true EligibleTickets Votes fa = Ok r ->
  (forall t, In (PiVoteFailed t) (output r) -> t ∉ castSet Votes) /\
  (forall t, In (PiVoteNotSeen t) (output r) -> failedVotes r !! t = None) /\
  In (TotalVotes (size (tickets r))) (output r) /\
  In (SuccessfulVotes (size (success (journals r))
                       + completedNotRecorded (counts r))) (output r) /\
  In (UnsuccessfulVotes (failedVote (counts r))) (output r) /\
  (completedNotRecorded (counts r) <> 0%nat ->
   In (CompletedNotRecorded (completedNotRecorded (counts r))) (output r)).
Proof.
  unfold verifyVote. simpl negb. cbv iota.
  set (c := readJournals _ _ _ _).
  destruct (countStats c) as [[tk fv] out] eqn:Hs.
  set (n := countFailedVotes _ fv out).
  set (o1 := if Nat.eqb (noVote n) 0 then lines n else _).
  set (o2 := if Nat.eqb (failedVote n) 0 then o1 else _).
  set (o3 := if Nat.eqb (completedNotRecorded n) 0 then o2 else _).
  destruct (fold_left _ (elements tk) (O, o3)) as [k o4] eqn:Hx.
  intros Hr. inversion Hr; subst r. clear Hr. simpl.
  assert (Hno : forall x, (exists t, x = PiVoteFailed t \/ x = PiVoteNotSeen t) ->
                          ~ In x o3).
  { intros x Hxk Hin.
    assert (Hl : In x (lines n)).
    { unfold o3, o2, o1 in Hin.
      destruct Hxk as [t [-> | ->]];
        (destruct (Nat.eqb (noVote n) 0), (Nat.eqb (failedVote n) 0),
           (Nat.eqb (completedNotRecorded n) 0); no_failed_line). }
    unfold n, countFailedVotes in Hl.
    apply countFailedVotes_cross_line in Hl; [|exact Hxk]. simpl in Hl.
    change out with (tk, fv, out).2 in Hl. rewrite <- Hs in Hl.
    apply countStats_cross_line in Hl; [|exact Hxk].
    apply readJournals_cross_line in Hl; [|exact Hxk]. simpl in Hl.
    destruct Hxk as [t [-> | ->]]; destruct Hl as [Hl|[]]; discriminate. }
  pose proof (crossChecks_cross_line (list_to_set EligibleTickets)
                (castSet Votes) c fv (elements tk) (O, o3)) as Hcross.
  rewrite Hx in Hcross. simpl in Hcross.
  assert (Hk3 : forall x, In x o3 -> In x o4).
  { intros x Hin. change o4 with (k, o4).2. rewrite <- Hx.
    apply (fold_left_keeps _ (fun a => In x a.2)); [|exact Hin].
    intros a b. apply crossCheck_printed. }
  split; [|split; [|split; [|split; [|split]]]].
  - intros t Hin.
    assert (Hin4 : In (PiVoteFailed t) o4).
    { destruct (Nat.eqb k 0), (Nat.eqb (failedVote n) 0); no_failed_line. }
    destruct (proj1 (Hcross t) Hin4) as [H|H]; [|exact H].
    exfalso. apply (Hno (PiVoteFailed t)); eauto.
  - intros t Hin.
    assert (Hin4 : In (PiVoteNotSeen t) o4).
    { destruct (Nat.eqb k 0), (Nat.eqb (failedVote n) 0); no_failed_line. }
    destruct (proj2 (Hcross t) Hin4) as [H|H]; [|exact H].
    exfalso. apply (Hno (PiVoteNotSeen t)); eauto.
  - destruct (Nat.eqb k 0), (Nat.eqb (failedVote n) 0);
      apply in_or_app; left; apply in_or_app; right; left; reflexivity.
  - destruct (Nat.eqb k 0), (Nat.eqb (failedVote n) 0);
      apply in_or_app; left; apply in_or_app; right; right; left; reflexivity.
  - destruct (Nat.eqb k 0), (Nat.eqb (failedVote n) 0);
      apply in_or_app; left; apply in_or_app; right; right; right; left;
      reflexivity.
  - intros Hne.
    assert (Hin3 : In (CompletedNotRecorded (completedNotRecorded n)) o3).
    { unfold o3. destruct (Nat.eqb_spec (completedNotRecorded n) 0) as [E|_];
        [contradiction|]. apply in_or_app. right. left. reflexivity. }
    apply Hk3 in Hin3.
    destruct (Nat.eqb k 0), (Nat.eqb (failedVote n) 0);
      repeat (apply in_or_app; left); exact Hin3.
Qed.

(** C2, as amended.  A ticket of the work journal that has no entry
    in the failed journal, no entry in the success journal, and is in
    the server's set of cast votes is entered in [failedVotes] with no
    retries; the "failedVotes" loop counts it in [completedNotRecorded]
    and not in [failedVote], each counter being the number of entries
    of its kind.  It is not printed as a failed vote: the report has no
    [FAILED] line, no "pi vote failed" line and no "pi vote not seen"
    line for it.  It is counted as a success: [completedNotRecorded] is
    at least one, is printed as the number of votes that completed
    but were not recorded, and is added to the "Successful votes" of
    the report, whose "Unsuccessful votes" are the entries counted as
    failed, the ticket not being one of them. *)
Theorem verifyVote_completedNotRecorded
        voteDir vote EligibleTickets Votes fa r T :
  verifyVote json voteDir vote true EligibleTickets Votes fa = Ok r ->
  (exists vi, In vi (workVotes (work (journals r))) /\ ticketOf vi = T) ->
  failed (journals r) !! T = None ->
  success (journals r) !! T = None ->
  T ∈ castSet Votes ->
  let stats := (map_to_list (failedVotes r)).*2 in
  let stat := voteStat.mk T 0 1 0 in
  T ∈ tickets r /\
  failedVotes r !! T = Some stat /\
  In stat stats /\
  isCompletedNotRecorded (castSet Votes) stat = true /\
  isFailedVote (castSet Votes) stat = false /\
  completedNotRecorded (counts r)
  = length (List.filter (isCompletedNotRecorded (castSet Votes)) stats) /\
  failedVote (counts r)
  = length (List.filter (isFailedVote (castSet Votes)) stats) /\
  (forall reason, ~ In (FAILED T reason) (output r)) /\
  ~ In (PiVoteFailed T) (output r) /\
  ~ In (PiVoteNotSeen T) (output r) /\
  In stat (List.filter (isCompletedNotRecorded (castSet Votes)) stats) /\
  ~ In stat (List.filter (isFailedVote (castSet Votes)) stats) /\
  (forall v, In v stats -> voteStat.ticket v = T -> v = stat) /\
  (1 <= completedNotRecorded (counts r))%nat /\
  In (CompletedNotRecorded (completedNotRecorded (counts r))) (output r) /\
  In (SuccessfulVotes (size (success (journals r))
                       + completedNotRecorded (counts r))) (output r) /\
  In (UnsuccessfulVotes (failedVote (counts r))) (output r).
Proof.
  intros Hv Hwork Hfailed Hsuccess Hcast. cbv zeta.
  destruct (verifyVote_totals voteDir vote EligibleTickets Votes fa r Hv)
    as [Tpf [Tns [_ [Tsucc [Tuns Tcnr]]]]].
  destruct (verifyVote_report voteDir vote EligibleTickets Votes fa)
    as [r' [Hr [Hj [Hst [Hn [Hp Hfl]]]]]].
  rewrite Hv in Hr. inversion Hr; subst r'. clear Hr.
  pose proof (countStat_fold (journals r) (printed (journals r))
                (workVotes (work (journals r)))) as Hfold.
  cbv zeta in Hfold. fold (countStats (journals r)) in Hfold.
  rewrite <- Hst in Hfold. simpl in Hfold.
  destruct Hfold as [F1 [F2 F3]].
  assert (HT : T ∈ tickets r) by (apply F1; exact Hwork).
  assert (Hstat : failedVotes r !! T = Some (voteStat.mk T 0 1 0)).
  { rewrite (F2 T HT Hsuccess). unfold entries. rewrite Hfailed. reflexivity. }
  assert (Hcnr : isCompletedNotRecorded (castSet Votes) (voteStat.mk T 0 1 0)
                 = true).
  { unfold isCompletedNotRecorded. simpl. apply bool_decide_eq_true_2. exact Hcast. }
  assert (Hfv : isFailedVote (castSet Votes) (voteStat.mk T 0 1 0) = false).
  { unfold isFailedVote. rewrite Hcnr. reflexivity. }
  destruct (countFailed_fold (castSet Votes) (map_to_list (failedVotes r)).*2
              (mkCounters 0 0 0 (countStats (journals r)).2))
    as [C1 [C2 C3]].
  cbv zeta in C1, C2, C3. fold (countFailedVotes (castSet Votes) (failedVotes r)
                                  (countStats (journals r)).2) in C1, C2, C3.
  rewrite <- Hn in C1, C2, C3. simpl in C1, C2, C3.
  assert (Hin : In (voteStat.mk T 0 1 0) (map_to_list (failedVotes r)).*2).
  { apply list_elem_of_In. apply list_elem_of_fmap.
    exists (T, voteStat.mk T 0 1 0). split; [reflexivity|].
    apply elem_of_map_to_list. exact Hstat. }
  assert (Hone : forall v, In v (map_to_list (failedVotes r)).*2 ->
                           voteStat.ticket v = T -> v = voteStat.mk T 0 1 0).
  { intros v Hv1 Hv2.
    apply list_elem_of_In, list_elem_of_fmap in Hv1.
    destruct Hv1 as [[t' v'] [-> Hv1]]. simpl in Hv2.
    apply elem_of_map_to_list in Hv1.
    destruct (F3 t' v' Hv1) as [_ [_ Heq]].
    assert (t' = T) by (rewrite Heq in Hv2; exact Hv2). subst t'.
    rewrite Hstat in Hv1. inversion Hv1; subst v'. reflexivity. }
  assert (Hfilt : In (voteStat.mk T 0 1 0)
                     (List.filter (isCompletedNotRecorded (castSet Votes))
                                  (map_to_list (failedVotes r)).*2)).
  { apply filter_In. split; assumption. }
  assert (Hpos : (1 <= completedNotRecorded (counts r))%nat).
  { rewrite C1.
    destruct (List.filter (isCompletedNotRecorded (castSet Votes))
                          (map_to_list (failedVotes r)).*2);
      [destruct Hfilt | simpl; lia]. }
  split; [exact HT|]. split; [exact Hstat|].
  split; [exact Hin|].
  split; [exact Hcnr|]. split; [exact Hfv|].
  split; [exact C1|]. split; [exact C2|].
  split.
  { intros reason Hin'.
    apply Hfl in Hin'; [|eauto]. apply C3 in Hin'.
    destruct Hin' as [Hin'|[v [Hv1 [Hv2 Hv3]]]].
    - apply countStats_failed_line in Hin'. rewrite Hj in Hin'.
      apply readJournals_failed_line in Hin'. simpl in Hin'.
      destruct Hin' as [Hin'|[]]. discriminate.
    - rewrite (Hone v Hv1 Hv2) in Hv3. congruence. }
  split; [intros H; exact (Tpf T H Hcast)|].
  split; [intros H; apply Tns in H; congruence|].
  split; [exact Hfilt|].
  split.
  { intros H. apply filter_In in H. destruct H as [_ H]. congruence. }
  split; [exact Hone|].
  split; [exact Hpos|].
  split; [apply Tcnr; lia|].
  split; [exact Tsucc | exact Tuns].
Qed.


(** The decoders only add to the lists of the cache. *)
Lemma decodeFailedLoop_keeps vals : forall tr st ft tk m k,
  default [] (m !! k)
  `prefix_of` default [] ((decodeFailedLoop json vals tr st ft tk m).1 !! k).
Proof.
  induction vals as [|v vals IH]; intros tr st ft tk m k.
  - destruct st as [|[|st]]; simpl; [destruct tr|..]; reflexivity.
  - destruct st as [|[|st]]; simpl.
    + destruct (asTime json v); [reflexivity | apply IH].
    + destruct (asBallot json v) as [|b]; [reflexivity|].
      destruct (CastBallot.Votes b) as [|vote [|]]; [reflexivity | apply IH | reflexivity].
    + destruct (asErrRetry json v); [reflexivity|].
      destruct (String.eqb tk EmptyString); [reflexivity|].
      etransitivity; [|apply IH].
      destruct (decide (tk = k)) as [->|Hne].
      * rewrite lookup_insert_eq. simpl. apply prefix_app_r. reflexivity.
      * rewrite lookup_insert_ne by exact Hne. reflexivity.
Qed.

Lemma decodeSuccessLoop_keeps vals : forall tr st stp m k,
  default [] (m !! k)
  `prefix_of` default [] ((decodeSuccessLoop json vals tr st stp m).1 !! k).
Proof.
  induction vals as [|v vals IH]; intros tr st stp m k.
  - destruct st as [|st]; simpl; [destruct tr|]; reflexivity.
  - destruct st as [|st]; simpl.
    + destruct (asTime json v); [reflexivity | apply IH].
    + destruct (asReply json v) as [|r]; [reflexivity|].
      destruct (String.eqb (CastVoteReply.Ticket r) EmptyString); [reflexivity|].
      etransitivity; [|apply IH].
      destruct (decide (CastVoteReply.Ticket r = k)) as [->|Hne].
      * rewrite lookup_insert_eq. simpl. apply prefix_app_r. reflexivity.
      * rewrite lookup_insert_ne by exact Hne. reflexivity.
Qed.

Lemma decodeWorkLoop_keeps vals : forall tr st wt t m k,
  default [] (m !! k)
  `prefix_of` default [] ((decodeWorkLoop json vals tr st wt t m).1 !! k).
Proof.
  induction vals as [|v vals IH]; intros tr st wt t m k.
  - destruct st as [|st]; simpl; [destruct tr|]; reflexivity.
  - destruct st as [|st]; simpl.
    + destruct (asTime json v); [reflexivity | apply IH].
    + destruct (asWork json v) as [|votes]; [reflexivity|].
      destruct (String.eqb t EmptyString); [reflexivity|].
      etransitivity; [|apply IH].
      destruct (decide (t = k)) as [->|Hne].
      * rewrite lookup_insert_eq. simpl. apply prefix_app_r. reflexivity.
      * rewrite lookup_insert_ne by exact Hne. reflexivity.
Qed.

Lemma readJournal_keeps dir c entry k :
  default [] (failed c !! k)
  `prefix_of` default [] (failed (readJournal json dir c entry) !! k) /\
  default [] (success c !! k)
  `prefix_of` default [] (success (readJournal json dir c entry) !! k) /\
  default [] (work c !! k)
  `prefix_of` default [] (work (readJournal json dir c entry) !! k).
Proof.
  unfold readJournal.
  destruct (String.prefix failedJournal entry.1).
  { pose proof (fun d => decodeFailedLoop_keeps (values d) (trailing d) 0
                   (failedTuple.mk (JSONTime.mk EmptyString) (CastBallot.mk [])
                      (ErrRetry.mk EmptyString EmptyString 0 None))
                   EmptyString (failed c) k) as Hk.
    unfold decodeFailed. destruct entry.2 as [err|d]; simpl;
      [repeat split; reflexivity|].
    specialize (Hk d).
    destruct (decodeFailedLoop _ _ _ _ _ _ _) as [m oe]; simpl in *.
    split; [exact Hk | split; reflexivity]. }
  destruct (String.prefix successJournal entry.1).
  { pose proof (fun d => decodeSuccessLoop_keeps (values d) (trailing d) 0
                   (successTuple.mk (JSONTime.mk EmptyString)
                      (CastVoteReply.mk EmptyString EmptyString 0 EmptyString))
                   (success c) k) as Hk.
    unfold decodeSuccess. destruct entry.2 as [err|d]; simpl;
      [repeat split; reflexivity|].
    specialize (Hk d).
    destruct (decodeSuccessLoop _ _ _ _ _ _) as [m oe]; simpl in *.
    split; [reflexivity | split; [exact Hk | reflexivity]]. }
  destruct (String.prefix workJournal entry.1).
  { pose proof (fun d => decodeWorkLoop_keeps (values d) (trailing d) 0
                   (workTuple.mk (JSONTime.mk EmptyString) []) EmptyString
                   (work c) k) as Hk.
    unfold decodeWork. destruct entry.2 as [err|d]; simpl;
      [repeat split; reflexivity|].
    specialize (Hk d).
    destruct (decodeWorkLoop _ _ _ _ _ _ _) as [m oe]; simpl in *.
    split; [reflexivity | split; [reflexivity | exact Hk]]. }
  destruct (String.eqb entry.1 ".voteresults"); simpl; repeat split; reflexivity.
Qed.










End DecoderFacts.

(** [verifyVote_completedNotRecorded] on a ticket that was scheduled,
    never attempted, and that the server shows as cast: it is not
    printed as failed and is counted among the successful votes. *)
Lemma verifyVote_completedNotRecorded_witness :
  exists r,
    verifyJournals "votes" "c0ffee" true [exTicket] [exCast] [exWorkFile] = Ok r /\
    failedVotes r !! exTicket = Some (voteStat.mk exTicket 0 1 0) /\
    ~ In (FAILED exTicket "Error") (output r) /\
    ~ In (PiVoteFailed exTicket) (output r) /\
    (1 <= completedNotRecorded (counts r))%nat /\
    In (SuccessfulVotes (size (success (journals r))
                         + completedNotRecorded (counts r))) (output r).
Proof.
  destruct (verifyVote_report strictCodec "votes" "c0ffee" [exTicket] [exCast] [exWorkFile])
    as [r [Hr [Hj _]]].
  exists r. split; [exact Hr|].
  assert (Hw : exists vi, In vi (workVotes (work (journals r))) /\
                          ticketOf vi = exTicket).
  { rewrite Hj. exists exInterval. vm_compute. auto. }
  assert (Hf : failed (journals r) !! exTicket = None)
    by (rewrite Hj; vm_compute; reflexivity).
  assert (Hs : success (journals r) !! exTicket = None)
    by (rewrite Hj; vm_compute; reflexivity).
  assert (Hc : exTicket ∈ castSet [exCast]) by (vm_compute; set_solver).
  destruct (verifyVote_completedNotRecorded strictCodec
              "votes" "c0ffee" [exTicket] [exCast] [exWorkFile] r exTicket
              Hr Hw Hf Hs Hc)
    as [_ [H2 [_ [_ [_ [_ [_ [H8 [H9 [_ [_ [_ [_ [H14 [_ [H16 _]]]]]]]]]]]]]]]].
  split; [exact H2|]. split; [exact (H8 "Error"%string)|].
  split; [exact H9|]. split; [exact H14 | exact H16].
Defined.

(** C2, as stated, fails: a ticket of the work journal with one entry in
    the failed journal, none in the success journal, and present in the
    server's set of cast votes is reported and counted as a failed vote,
    and [completedNotRecorded] stays at zero. *)
Lemma verifyVote_retried_cast_counterexample :
  exists r,
    verifyJournals "votes" "c0ffee" true [exTicket] [exCast]
                   [exFailedFile; exWorkFile] = Ok r /\
    In exInterval (workVotes (work (journals r))) /\
    entries (failed (journals r)) exTicket = 1%nat /\
    success (journals r) !! exTicket = None /\
    exTicket ∈ castSet [exCast] /\
    completedNotRecorded (counts r) = 0%nat /\
    failedVote (counts r) = 1%nat /\
    In (FAILED exTicket "Error") (output r).
Proof.
  eexists. split; [vm_compute; reflexivity|].
  split; [vm_compute; auto|].
  split; [vm_compute; reflexivity|].
  split; [vm_compute; reflexivity|].
  split; [vm_compute; set_solver|].
  split; [vm_compute; reflexivity|].
  split; [vm_compute; reflexivity|].
  vm_compute. auto.
Qed.


(* ===================================================================== *)
(** ** Eligible tickets                                                  *)
(* ===================================================================== *)

(** Whatever the signature of the recorded vote, a ticket that passes
    the filter has no entry in the map of cast votes. *)
Lemma eligibleLoop_not_cast w castVotes tas : forall eligible l t h,
  eligibleLoop w castVotes tas eligible = Ok l ->
  In t l ->
  NewHash w (TicketAddress.Ticket t) = Ok h ->
  In t eligible \/ castVotes !! h = None.
Proof.
  induction tas as [|a tas IH]; intros eligible l t h Hl Hin Hh; simpl in Hl.
  - inversion Hl; subst. left. exact Hin.
  - destruct (NewHash w (TicketAddress.Ticket a)) as [ha|] eqn:Ha; [|discriminate].
    destruct (GetTransaction w ha); [|eauto].
    destruct (commitmentAddress w _); [|eauto].
    destruct (ValidateAddress w _); [|eauto].
    destruct (_ <=? _)%Z; [eauto|].
    destruct (castVotes !! ha) eqn:Ec; [eauto|].
    destruct (IH _ _ _ _ Hl Hin Hh) as [H|H]; [|auto].
    apply in_app_or in H. destruct H as [H|[<-|[]]]; [auto|].
    right. congruence.
Qed.

(** C3.  The server has recorded a vote of a ticket with a signature
    that does not verify against the ticket's commitment address, and
    the wallet holds the ticket: [eligibleVotes] leaves the ticket out,
    where its documentation has it included for resubmission. *)
Theorem eligibleVotes_drops_forged_vote :
  NewHash exWallet (TicketAddress.Ticket exTicketAddress)
  = Ok (CastVoteDetails.Ticket exForgedCast) /\
  validSignature exWallet (TicketAddress.Address exTicketAddress) exForgedCast
  = false /\
  eligibleVotes exWallet [] [exTicketAddress] = Ok [exTicketAddress] /\
  eligibleVotes exWallet [exForgedCast] [exTicketAddress] = Ok [].
Proof. repeat split. Qed.

(* ===================================================================== *)
(** ** The trickler                                                      *)
(* ===================================================================== *)

Section TricklerFacts.

Context (cfg : config) (token : string) (rounds : nat -> round).

(** The sibling case of the wait.  When the retry loop forces an exit
    during the wait before a vote, the main loop puts the vote it had
    popped back into the interval queue, behind the votes still waiting
    there, and leaves by [goto exit] without sending anything; the vote
    is then among the "Votes not cast" of the summary that a run of
    [vote] coming to such a round returns. *)
Lemma mainLoop_retry_force_exit vi rest i e :
  i <> 0%nat ->
  wake (rounds i) = RetryForceExit ->
  let e' := mkEngine (rest ++ [vi]) (retryQ e) (ballotResults e) (disk e)
                     (sent e) (submitted e) in
  mainLoop cfg token rounds (vi :: rest) i e = (e', GotoExit) /\
  In vi (voteIntervalQ e') /\
  notCast (voteSummary e') = (S (length rest) + length (retryQ e))%nat /\
  (forall e0,
      mainLoop cfg token rounds (voteIntervalQ e0) 0
               (mkEngine (voteIntervalQ e0) (retryQ e0) [] (disk e0) (sent e0)
                         (submitted e0))
      = mainLoop cfg token rounds (vi :: rest) i e ->
      vote cfg token rounds e0 = (e', Ok (voteSummary e'))).
Proof.
  intros Hi Hw. cbv zeta.
  assert (Hloop : mainLoop cfg token rounds (vi :: rest) i e
                  = (mkEngine (rest ++ [vi]) (retryQ e) (ballotResults e)
                              (disk e) (sent e) (submitted e), GotoExit)).
  { simpl. destruct (Nat.eqb_spec i 0) as [|_]; [contradiction|].
    rewrite Hw. reflexivity. }
  split; [exact Hloop|].
  split; [apply in_or_app; right; left; reflexivity|].
  split.
  - unfold voteSummary, voteIntervalLen, retryLen. simpl.
    rewrite length_app. simpl. lia.
  - intros e0 Hreach. unfold vote, _voteTrickler. cbv zeta. simpl.
    rewrite Hreach, Hloop. reflexivity.
Qed.

(** C1.  When the shutdown signal arrives during the wait before a
    vote, the main loop leaves by [goto exit] with the vote it had
    popped in no queue: the interval queue holds the votes that were
    behind it, the retry queue, the results, the journals and the
    signals are as they were, and nothing is submitted.  The summary of
    a run of [vote] that comes to such a round counts one vote fewer as
    "Votes not cast" than are left to cast, and one fewer than it counts
    when, in the same state, it is the retry loop that forces the exit,
    where the vote is put back "so the vote summary statistics are
    correct"; and there the vote goes behind the votes still queued, not
    in front of them. *)
Theorem mainLoop_cancelled_drops_vote vi rest i e :
  i <> 0%nat ->
  wake (rounds i) = Cancelled ->
  let e' := mkEngine rest (retryQ e) (ballotResults e) (disk e) (sent e)
                     (submitted e) in
  mainLoop cfg token rounds (vi :: rest) i e = (e', GotoExit) /\
  voteIntervalQ e' = rest /\
  voteIntervalQ e' <> vi :: rest /\
  notCast (voteSummary e') = (length rest + length (retryQ e))%nat /\
  (forall e0,
      mainLoop cfg token rounds (voteIntervalQ e0) 0
               (mkEngine (voteIntervalQ e0) (retryQ e0) [] (disk e0) (sent e0)
                         (submitted e0))
      = mainLoop cfg token rounds (vi :: rest) i e ->
      vote cfg token rounds e0 = (e', Ok (voteSummary e'))) /\
  (forall forced,
      wake (forced i) = RetryForceExit ->
      let f := (mainLoop cfg token forced (vi :: rest) i e).1 in
      voteIntervalQ f = rest ++ [vi] /\
      notCast (voteSummary f) = S (notCast (voteSummary e'))).
Proof.
  intros Hi Hw. cbv zeta.
  assert (Hloop : mainLoop cfg token rounds (vi :: rest) i e
                  = (mkEngine rest (retryQ e) (ballotResults e)
                              (disk e) (sent e) (submitted e), GotoExit)).
  { simpl. destruct (Nat.eqb_spec i 0) as [|_]; [contradiction|].
    rewrite Hw. reflexivity. }
  split; [exact Hloop|].
  split; [reflexivity|].
  split.
  { simpl. intros H. apply (f_equal (@length _)) in H. simpl in H. lia. }
  split; [reflexivity|].
  split.
  - intros e0 Hreach. unfold vote, _voteTrickler. cbv zeta. simpl.
    rewrite Hreach, Hloop. reflexivity.
  - intros forced Hf. simpl.
    destruct (Nat.eqb_spec i 0) as [|_]; [contradiction|].
    rewrite Hf. simpl. split; [reflexivity|].
    unfold voteSummary, voteIntervalLen, retryLen. simpl.
    rewrite length_app. simpl. lia.
Qed.


End TricklerFacts.

(** [mainLoop_retry_force_exit] in the second round of a run of three. *)
Lemma mainLoop_retry_force_exit_witness :
  mainLoop exConfig "c0ffee" (exRounds RetryForceExit)
           [exIntervalB; exIntervalC] 1 exEngine
  = (mkEngine [exIntervalC; exIntervalB] [] [] emptyFS [] [], GotoExit).
Proof.
  refine (proj1 (mainLoop_retry_force_exit exConfig "c0ffee"
                   (exRounds RetryForceExit) exIntervalB [exIntervalC] 1
                   exEngine _ eq_refl)).
  discriminate.
Defined.

(** [mainLoop_cancelled_drops_vote] in the second round of a run of
    three: the second vote is lost. *)
Lemma mainLoop_cancelled_drops_vote_witness :
  mainLoop exConfig "c0ffee" (exRounds Cancelled)
           [exIntervalB; exIntervalC] 1 exEngine
  = (mkEngine [exIntervalC] [] [] emptyFS [] [], GotoExit).
Proof.
  refine (proj1 (mainLoop_cancelled_drops_vote exConfig "c0ffee"
                   (exRounds Cancelled) exIntervalB [exIntervalC] 1
                   exEngine _ eq_refl)).
  discriminate.
Defined.

(** C1, as stated, fails: the shutdown signal arrives during the wait
    before the second of three votes.  The second vote has been popped
    and is not put back: the queue holds the third vote only, the
    summary counts one vote as not cast, and one ballot was submitted.
    When it is the retry loop that forces the exit, the second vote is
    put back, behind the third and not in front of it. *)
Lemma voteTrickler_cancelled_counterexample :
  let out := vote exConfig "c0ffee" (exRounds Cancelled) exEngine in
  let forced := vote exConfig "c0ffee" (exRounds RetryForceExit) exEngine in
  (voteIntervalQ out.1 = [exIntervalC] /\
   voteIntervalQ out.1 <> [exIntervalB; exIntervalC] /\
   ~ In exIntervalB (voteIntervalQ out.1) /\
   submitted out.1 = [CastBallot.mk [exVote]] /\
   out.2 = Ok (mkSummary 1 [] 1)) /\
  (voteIntervalQ forced.1 = [exIntervalC; exIntervalB] /\
   voteIntervalQ forced.1 <> [exIntervalB; exIntervalC] /\
   forced.2 = Ok (mkSummary 1 [] 2)).
Proof.
  vm_compute. split.
  - split; [reflexivity|]. split; [discriminate|].
    split; [intros [H|[]]; discriminate|]. split; reflexivity.
  - split; [reflexivity|]. split; [discriminate | reflexivity].
Qed.



(** *** Two whole runs *)

(** Every vote is accepted: three ballots are submitted, the success
    journal holds three tuples, nothing is left to cast, and the main
    loop says that it is done. *)
Example vote_all_accepted :
  let out := vote exConfig "c0ffee" (exRounds Elapsed) exEngine in
  out.2 = Ok (mkSummary 3 [] 0) /\
  sent out.1 = [mainLoopDone] /\
  length (submitted out.1) = 3%nat /\
  contentOf (disk out.1) "votes/c0ffee/success.json.1600000000"
  = [JTime exTime; JReply exReceipt; JTime exTime; JReply exReceipt;
     JTime exTime; JReply exReceipt] /\
  contentOf (disk out.1) "votes/c0ffee/failed.json.1600000000" = [].
Proof. vm_compute. repeat split. Qed.

(** The server answers 502 to every ballot: each vote is written to the
    failed journal with its retry error and handed to the retry queue. *)
Example vote_all_rescheduled :
  let rounds i := mkRound Elapsed (exCtx (http.mkResponse 502 "bad gateway"))
                          "Jan  1 00:00:00.000000000" ioOk in
  let out := vote exConfig "c0ffee" rounds exEngine in
  out.2 = Ok (mkSummary 0 [] 3) /\
  retryQ out.1 = [retry.mk exVote; retry.mk exVoteB; retry.mk exVoteC] /\
  length (contentOf (disk out.1) "votes/c0ffee/failed.json.1600000000")
  = 9%nat.
Proof. vm_compute. repeat split. Qed.

(* ===================================================================== *)
(** ** The helpers of [_vote]                                            *)
(* ===================================================================== *)

Lemma convertLoop_ok f h : forall hashes l,
  convertLoop f h hashes = Ok l <->
  exists hs, Forall2 (fun v hh => f v = Ok hh) h hs /\ l = hashes ++ hs.
Proof.
  induction h as [|v h IH]; intros hashes l; simpl.
  - split.
    + intros H. inversion H; subst. exists []. split; [constructor|].
      symmetry. apply app_nil_r.
    + intros [hs [H ->]]. inversion H; subst. rewrite app_nil_r. reflexivity.
  - destruct (f v) as [hh|e] eqn:Ev.
    + rewrite IH. split.
      * intros [hs [H ->]]. exists (hh :: hs).
        split; [constructor; assumption|]. rewrite <- app_assoc. reflexivity.
      * intros [hs [H ->]]. inversion H as [|? y ? hs' Hy Hrest]; subst.
        assert (y = hh) by congruence. subst y.
        exists hs'. split; [exact Hrest|]. rewrite <- app_assoc. reflexivity.
    + split; [discriminate|].
      intros [hs [H _]]. inversion H; subst. congruence.
Qed.

Lemma convertLoop_fail f h : forall hashes e,
  convertLoop f h hashes = Fail e <->
  exists pre v post,
    h = pre ++ v :: post /\ f v = Fail e /\
    Forall (fun v' => exists hh, f v' = Ok hh) pre.
Proof.
  induction h as [|v h IH]; intros hashes e; simpl.
  - split; [discriminate|]. intros [pre [v [post [H _]]]].
    destruct pre; discriminate.
  - destruct (f v) as [hh|e0] eqn:Ev.
    + rewrite IH. split.
      * intros [pre [v' [post [-> [Hv Hpre]]]]].
        exists (v :: pre), v', post. split; [reflexivity|].
        split; [exact Hv|]. constructor; eauto.
      * intros [pre [v' [post [Hh [Hv Hpre]]]]].
        destruct pre as [|p pre]; simpl in Hh; inversion Hh; subst.
        -- congruence.
        -- inversion Hpre; subst. exists pre, v', post. auto.
    + split.
      * intros H. inversion H; subst. exists [], v, h. auto.
      * intros [pre [v' [post [Hh [Hv Hpre]]]]].
        destruct pre as [|p pre]; simpl in Hh; inversion Hh; subst.
        -- congruence.
        -- inversion Hpre as [|? ? [hh Hp] ?]; subst. congruence.
Qed.

(** X1.  [convertTicketHashes] returns the hashes of all the strings, in
    their order, exactly when every string parses; otherwise it returns
    the error of the first string that does not parse and no hashes. *)
Theorem convertTicketHashes_all_or_first_error f h :
  (forall l, convertTicketHashes f h = Ok l <->
             Forall2 (fun v hh => f v = Ok hh) h l) /\
  (forall l, convertTicketHashes f h = Ok l -> length l = length h) /\
  (forall e, convertTicketHashes f h = Fail e <->
             exists pre v post,
               h = pre ++ v :: post /\ f v = Fail e /\
               Forall (fun v' => exists hh, f v' = Ok hh) pre).
Proof.
  unfold convertTicketHashes. split; [|split].
  - intros l. rewrite convertLoop_ok. split.
    + intros [hs [H ->]]. exact H.
    + intros H. exists l. auto.
  - intros l H. apply convertLoop_ok in H. destruct H as [hs [H ->]].
    simpl. symmetry. eapply Forall2_length. exact H.
  - intros e. apply convertLoop_fail.
Qed.

(** [convertTicketHashes_all_or_first_error] on a pool whose second
    entry is not a hash. *)
Lemma convertTicketHashes_all_or_first_error_witness :
  let f s := if String.eqb s "zz" then Fail (Plain "invalid hash") else Ok s in
  convertTicketHashes f ["aa11"; "zz"; "bb22"]%string
  = Fail (Plain "invalid hash").
Proof.
  intros f.
  apply (proj2 (proj2 (proj2 (convertTicketHashes_all_or_first_error f
           ["aa11"; "zz"; "bb22"]%string)) (Plain "invalid hash"))).
  exists ["aa11"%string], "zz"%string, ["bb22"%string].
  split; [reflexivity|]. split; [reflexivity|].
  constructor; [|constructor]. exists "aa11"%string. reflexivity.
Defined.


Lemma swap_length {A} i j (l : list A) : length (swap i j l) = length l.
Proof.
  unfold swap. destruct (l !! i); [|reflexivity].
  destruct (l !! j); [|reflexivity]. rewrite !length_insert. reflexivity.
Qed.




(** X4.  The vote duration of a trickled run, for a [blocksPerHour]
    and block heights that fit [uint32].  A duration set by the user is
    kept.  Otherwise, with fewer blocks left than one hour's worth,
    [_vote] refuses to go on, and with at least that many, the duration
    is the block time multiplied by the blocks left less one hour's
    worth, computed in [int64], so that a product of 2^63 or more wraps
    around, possibly to a negative duration; when the block time is not
    negative and the product is below 2^63, the duration is the exact
    product and is not negative.  When the best block is past the end
    block, the [uint32] subtraction wraps around, and unless an hour's
    worth exceeds the wrapped value no error is returned. *)
Theorem voteDurationFor_cases voteDuration blocksPerHour EndBlockHeight
        bestBlock TargetTimePerBlock :
  (0 <= blocksPerHour < 2 ^ 32)%Z ->
  (0 <= bestBlock < 2 ^ 32)%Z ->
  (0 <= EndBlockHeight < 2 ^ 32)%Z ->
  let dur := voteDurationFor voteDuration blocksPerHour EndBlockHeight bestBlock
                             TargetTimePerBlock in
  (voteDuration <> 0%Z -> dur = Ok voteDuration) /\
  (voteDuration = 0%Z -> bestBlock <= EndBlockHeight ->
   EndBlockHeight - bestBlock < blocksPerHour ->
   exists e, dur = Fail e)%Z /\
  (voteDuration = 0%Z -> bestBlock <= EndBlockHeight ->
   blocksPerHour <= EndBlockHeight - bestBlock ->
   dur = Ok (toInt64 (TargetTimePerBlock *
                      (EndBlockHeight - bestBlock - blocksPerHour))))%Z /\
  (voteDuration = 0%Z -> bestBlock <= EndBlockHeight ->
   blocksPerHour <= EndBlockHeight - bestBlock ->
   0 <= TargetTimePerBlock ->
   TargetTimePerBlock * (EndBlockHeight - bestBlock - blocksPerHour) < 2 ^ 63 ->
   dur = Ok (TargetTimePerBlock * (EndBlockHeight - bestBlock - blocksPerHour)) /\
   0 <= TargetTimePerBlock * (EndBlockHeight - bestBlock - blocksPerHour))%Z /\
  (voteDuration = 0%Z -> EndBlockHeight < bestBlock ->
   blocksPerHour <= EndBlockHeight - bestBlock + 2 ^ 32 ->
   dur = Ok (toInt64 (TargetTimePerBlock *
                      (EndBlockHeight - bestBlock + 2 ^ 32 - blocksPerHour))))%Z.
Proof.
  intros Hb Hbest Hend. cbv zeta.
  assert (Hu : toUint32 blocksPerHour = blocksPerHour)
    by (unfold toUint32; apply Z.mod_small; lia).
  assert (Hi : forall z, (0 <= z < 2 ^ 32)%Z -> toInt64 z = z).
  { intros z Hz. unfold toInt64. rewrite Z.mod_small; lia. }
  assert (Hleft : (voteDuration = 0 -> bestBlock <= EndBlockHeight ->
                   blocksPerHour <= EndBlockHeight - bestBlock ->
                   voteDurationFor voteDuration blocksPerHour EndBlockHeight
                                   bestBlock TargetTimePerBlock
                   = Ok (toInt64 (TargetTimePerBlock *
                                  (EndBlockHeight - bestBlock - blocksPerHour))))%Z).
  { intros -> Hle Hge. unfold voteDurationFor. simpl.
    assert (toUint32 (EndBlockHeight - bestBlock) = EndBlockHeight - bestBlock)%Z
      as -> by (unfold toUint32; apply Z.mod_small; lia).
    rewrite Hu. destruct (Z.ltb_spec (EndBlockHeight - bestBlock) blocksPerHour);
      [lia|].
    rewrite (Hi (EndBlockHeight - bestBlock)%Z), (Hi blocksPerHour) by lia.
    rewrite (Hi (EndBlockHeight - bestBlock - blocksPerHour)%Z) by lia.
    reflexivity. }
  split; [|split; [|split; [|split]]].
  - intros Hne. unfold voteDurationFor.
    destruct (Z.eqb_spec voteDuration 0); [contradiction|reflexivity].
  - intros -> Hle Hlt. unfold voteDurationFor. simpl.
    assert (toUint32 (EndBlockHeight - bestBlock) = EndBlockHeight - bestBlock)%Z
      as -> by (unfold toUint32; apply Z.mod_small; lia).
    rewrite Hu. destruct (Z.ltb_spec (EndBlockHeight - bestBlock) blocksPerHour);
      [eauto|lia].
  - exact Hleft.
  - intros H0 Hle Hge HT Hov. rewrite (Hleft H0 Hle Hge).
    assert (0 <= TargetTimePerBlock * (EndBlockHeight - bestBlock - blocksPerHour))%Z
      by (apply Z.mul_nonneg_nonneg; lia).
    split; [|assumption]. f_equal.
    unfold toInt64. rewrite Z.mod_small; lia.
  - intros -> Hlt Hge. unfold voteDurationFor. simpl.
    assert (toUint32 (EndBlockHeight - bestBlock)
            = EndBlockHeight - bestBlock + 2 ^ 32)%Z as ->.
    { unfold toUint32.
      rewrite <- (Z.mod_add _ 1 (2 ^ 32)) by lia.
      rewrite Z.mul_1_l. apply Z.mod_small. lia. }
    rewrite Hu.
    destruct (Z.ltb_spec (EndBlockHeight - bestBlock + 2 ^ 32) blocksPerHour);
      [lia|].
    rewrite (Hi (EndBlockHeight - bestBlock + 2 ^ 32)%Z), (Hi blocksPerHour)
      by lia.
    rewrite (Hi (EndBlockHeight - bestBlock + 2 ^ 32 - blocksPerHour)%Z) by lia.
    reflexivity.
Qed.

(** [voteDurationFor_cases] one block past the end of a vote, with 12
    blocks to the hour and five minutes to the block; and with all of
    2^32 - 1 blocks left, where the product wraps to a negative
    duration. *)
Lemma voteDurationFor_cases_witness :
  voteDurationFor 0 12 1000 1001 300000000000
  = Ok (toInt64 (300000000000 * (1000 - 1001 + 2 ^ 32 - 12))) /\
  voteDurationFor 0 12 4294967295 0 300000000000
  = Ok (-2781900259668613120)%Z.
Proof.
  split.
  - refine (proj2 (proj2 (proj2 (proj2
              (voteDurationFor_cases 0 12 1000 1001 300000000000 _ _ _))))
            eq_refl _ _); lia.
  - refine (eq_trans
              (proj1 (proj2 (proj2
                 (voteDurationFor_cases 0 12 4294967295 0 300000000000 _ _ _)))
                 eq_refl _ _) _); [lia | lia | lia | lia | lia |].
    vm_compute. reflexivity.
Defined.

(* ===================================================================== *)
(** ** The interval queue, the vote bit, the tally and the summary       *)
(* ===================================================================== *)

Lemma pushes_queue vs : forall e,
  let e' := fold_left (fun e v => voteIntervalPush v e) vs e in
  voteIntervalQ e' = voteIntervalQ e ++ vs /\
  retryQ e' = retryQ e /\ ballotResults e' = ballotResults e /\
  disk e' = disk e /\ sent e' = sent e /\ submitted e' = submitted e.
Proof.
  induction vs as [|v vs IH]; intros e; simpl.
  - rewrite app_nil_r. repeat split.
  - destruct (IH (voteIntervalPush v e)) as [H1 [H2 [H3 [H4 [H5 H6]]]]].
    cbv zeta in H1. rewrite H1, H2, H3, H4, H5, H6. simpl.
    rewrite <- app_assoc. repeat split.
Qed.

Lemma pops_queue n : forall e,
  pops n e
  = (firstn n (voteIntervalQ e),
     mkEngine (skipn n (voteIntervalQ e)) (retryQ e) (ballotResults e)
              (disk e) (sent e) (submitted e)).
Proof.
  induction n as [|n IH]; intros e; simpl.
  - destruct e; reflexivity.
  - unfold voteIntervalPop. destruct e as [q r b d s u]. simpl.
    destruct q as [|v q]; [reflexivity|].
    rewrite IH. reflexivity.
Qed.

(** X2.  The interval queue is first in, first out: after any number of
    [voteIntervalPush] calls, [voteIntervalLen] has grown by that number,
    as many [voteIntervalPop] calls return what was queued before
    followed by what was pushed, in the order of the pushes, the next pop
    returns nil, and no other field of the context has changed. *)
Theorem voteIntervalQ_fifo e vs :
  let e' := fold_left (fun e v => voteIntervalPush v e) vs e in
  let popped := pops (voteIntervalLen e') e' in
  voteIntervalLen e' = (voteIntervalLen e + length vs)%nat /\
  popped.1 = voteIntervalQ e ++ vs /\
  popped.2 = mkEngine [] (retryQ e) (ballotResults e) (disk e) (sent e)
                      (submitted e) /\
  voteIntervalPop popped.2 = (None, popped.2).
Proof.
  cbv zeta.
  destruct (pushes_queue vs e) as [H1 [H2 [H3 [H4 [H5 H6]]]]].
  cbv zeta in H1, H2, H3, H4, H5, H6.
  rewrite pops_queue. unfold voteIntervalLen. simpl.
  rewrite H1, H2, H3, H4, H5, H6, firstn_all, skipn_all.
  split; [apply length_app|]. repeat split.
Qed.

Lemma voteBitOf_ok options voteID : forall s,
  voteBitOf options voteID = Ok s <->
  exists pre vv post,
    options = pre ++ vv :: post /\
    VoteOption.ID vv = voteID /\
    Forall (fun o => VoteOption.ID o <> voteID) pre /\
    s = strconv.FormatUint16 (VoteOption.Bit vv).
Proof.
  induction options as [|o options IH]; intros s; simpl.
  - split; [discriminate|]. intros [pre [vv [post [H _]]]].
    destruct pre; discriminate.
  - destruct (String.eqb_spec (VoteOption.ID o) voteID) as [Heq|Hne].
    + split.
      * intros H. inversion H; subst. exists [], o, options.
        split; [reflexivity|]. split; [reflexivity|]. split; [constructor|reflexivity].
      * intros [pre [vv [post [Ho [Hid [Hpre ->]]]]]].
        destruct pre as [|p pre]; simpl in Ho; inversion Ho; subst;
          [reflexivity|].
        inversion Hpre; subst. contradiction.
    + rewrite IH. split.
      * intros [pre [vv [post [-> [Hid [Hpre ->]]]]]].
        exists (o :: pre), vv, post. split; [reflexivity|].
        split; [exact Hid|]. split; [constructor; assumption | reflexivity].
      * intros [pre [vv [post [Ho [Hid [Hpre ->]]]]]].
        destruct pre as [|p pre]; simpl in Ho; inversion Ho; subst.
        -- contradiction.
        -- inversion Hpre; subst. exists pre, vv, post. auto.
Qed.

(** X5.  [_vote] takes the bit of the first option whose id is the one
    asked for, also when several options share the id, and fails with
    "vote id not found" exactly when no option has the id. *)
Theorem voteBitOf_first_match options voteID :
  (forall s,
      voteBitOf options voteID = Ok s <->
      exists pre vv post,
        options = pre ++ vv :: post /\
        VoteOption.ID vv = voteID /\
        Forall (fun o => VoteOption.ID o <> voteID) pre /\
        s = strconv.FormatUint16 (VoteOption.Bit vv)) /\
  (voteBitOf options voteID = Fail (Plain ("vote id not found: " +:+ voteID))
   <-> Forall (fun o => VoteOption.ID o <> voteID) options) /\
  (forall e, voteBitOf options voteID = Fail e ->
             e = Plain ("vote id not found: " +:+ voteID)).
Proof.
  split; [apply voteBitOf_ok|].
  induction options as [|o options [IH1 IH2]]; simpl.
  - split; [|intros e H; inversion H; reflexivity].
    split; [constructor | reflexivity].
  - destruct (String.eqb_spec (VoteOption.ID o) voteID) as [Heq|Hne].
    + split; [|discriminate]. split; [discriminate|].
      intros H. inversion H; subst. contradiction.
    + split; [|exact IH2]. rewrite IH1. split.
      * intros H. constructor; assumption.
      * intros H. inversion H; subst. assumption.
Qed.

(** [voteBitOf_first_match] on two options that share an id. *)
Lemma voteBitOf_first_match_witness :
  voteBitOf [VoteOption.mk "no" "reject" 1; VoteOption.mk "yes" "first" 2;
             VoteOption.mk "yes" "second" 4] "yes"
  = Ok "2"%string.
Proof.
  apply (proj2 (proj1 (voteBitOf_first_match
           [VoteOption.mk "no" "reject" 1; VoteOption.mk "yes" "first" 2;
            VoteOption.mk "yes" "second" 4] "yes") "2"%string)).
  exists [VoteOption.mk "no" "reject" 1], (VoteOption.mk "yes" "first" 2),
    [VoteOption.mk "yes" "second" 4].
  split; [reflexivity|]. split; [reflexivity|].
  split; [|reflexivity]. constructor; [discriminate | constructor].
Defined.

(** X6.  [tally] fails with "no votes recorded" on an empty result set;
    on a result set in which every vote bit is a decimal number it gives
    each option the number of votes whose bit reads as the option's bit,
    so that no vote is counted for two options with different bits; and
    it returns a result only if every vote bit is a decimal number. *)
Theorem tally_counts votes options :
  tally [] options = Fail (Plain "no votes recorded") /\
  (votes <> [] ->
   Forall (fun v => exists b,
               strconv.ParseUint10 (CastVoteDetails.VoteBit v) = Ok b) votes ->
   tally votes options
   = Ok (map (fun vo => (vo, votesFor (VoteOption.Bit vo) votes)) options)) /\
  (forall l, tally votes options = Ok l ->
     votes <> [] /\
     Forall (fun v => exists b,
                 strconv.ParseUint10 (CastVoteDetails.VoteBit v) = Ok b) votes).
Proof.
  split; [reflexivity|]. split.
  - intros Hne Hall. unfold tally.
    destruct (tallyVotes_counts votes ∅ O Hall) as [count [Ht Hc]].
    rewrite Ht. simpl.
    destruct votes as [|v votes]; [contradiction|]. simpl.
    f_equal. apply map_ext. intros vo. rewrite Hc, lookup_empty. reflexivity.
  - intros l Hl. unfold tally in Hl.
    destruct (tallyVotes votes ∅ O) as [[count total]|e] eqn:Et; [|discriminate].
    split.
    + intros ->. simpl in Et. inversion Et; subst. discriminate.
    + clear Hl. revert Et. generalize (∅ : gmap N nat) O.
      induction votes as [|v votes IH]; intros c t Et; [constructor|].
      simpl in Et.
      destruct (strconv.ParseUint10 (CastVoteDetails.VoteBit v)) as [bits|] eqn:Eb;
        [|discriminate].
      constructor; [eauto|]. eapply IH. exact Et.
Qed.

(** [tally_counts] on three votes for two options. *)
Lemma tally_counts_witness :
  let yes := VoteOption.mk "yes" "approve" 2 in
  let no := VoteOption.mk "no" "reject" 1 in
  let v b t := CastVoteDetails.mk "c0ffee" t b "sig" "receipt" in
  tally [v "2" "aa11"; v "1" "bb22"; v "2" "cc33"]%string [no; yes]
  = Ok [(no, 1%nat); (yes, 2%nat)].
Proof.
  intros yes no v.
  refine (proj1 (proj2 (tally_counts [v "2" "aa11"; v "1" "bb22"; v "2" "cc33"]%string
                                     [no; yes])) _ _).
  - discriminate.
  - repeat constructor; eexists; reflexivity.
Defined.

(** X7.  The summary [vote] prints: a receipt counts as failed exactly
    when its error context is not empty, whatever its error code, and
    the succeeded and the failed receipts add up to the results. *)
Theorem voteSummary_accounts e :
  (succeeded (voteSummary e) + length (failedReceipts (voteSummary e))
   = length (ballotResults e))%nat /\
  (forall r, In r (failedReceipts (voteSummary e)) <->
             In r (ballotResults e) /\
             CastVoteReply.ErrorContext r <> EmptyString) /\
  (Forall (fun r => CastVoteReply.ErrorContext r = EmptyString)
          (ballotResults e) ->
   succeeded (voteSummary e) = length (ballotResults e)).
Proof.
  unfold voteSummary. simpl.
  set (keep := fun v => negb (String.eqb (CastVoteReply.ErrorContext v)
                                         EmptyString)).
  pose proof (List.filter_length_le keep (ballotResults e)) as Hle.
  split; [lia|]. split.
  - intros r. rewrite List.filter_In. unfold keep.
    destruct (String.eqb_spec (CastVoteReply.ErrorContext r) EmptyString);
      simpl; split; intros [H1 H2]; split; auto; congruence.
  - intros Hall.
    assert (Hnone : forall l,
               Forall (fun r => CastVoteReply.ErrorContext r = EmptyString) l ->
               List.filter keep l = []).
    { clear. induction l as [|r l IH]; intros Hall; [reflexivity|].
      inversion Hall as [|? ? Hr Hl]; subst. simpl. unfold keep at 1.
      rewrite Hr. simpl. apply IH. exact Hl. }
    rewrite (Hnone _ Hall). simpl. lia.
Qed.

(** [voteSummary_accounts] on a run whose only receipt carries an error
    code and no error context: it counts as succeeded. *)
Lemma voteSummary_accounts_witness :
  succeeded (voteSummary
               (mkEngine [] [] [CastVoteReply.mk exTicket EmptyString 5
                                                 EmptyString]
                         emptyFS [] []))
  = 1%nat.
Proof.
  refine (proj2 (proj2 (voteSummary_accounts
            (mkEngine [] [] [CastVoteReply.mk exTicket EmptyString 5
                                              EmptyString]
                      emptyFS [] []))) _).
  repeat constructor.
Defined.

(* ===================================================================== *)
(** ** Eligible tickets, continued                                       *)
(* ===================================================================== *)

Section EligibleFacts.

Context (w : wallet).

Lemma filter_sublist {A} (f : A -> bool) (l : list A) :
  sublist (List.filter f l) l.
Proof.
  induction l as [|x l IH]; simpl; [constructor|].
  destruct (f x); [apply sublist_skip | apply sublist_cons]; exact IH.
Qed.

Lemma eligibleLoop_hashes castVotes tas : forall eligible l,
  eligibleLoop w castVotes tas eligible = Ok l ->
  Forall (fun t => exists h, NewHash w (TicketAddress.Ticket t) = Ok h) tas.
Proof.
  induction tas as [|t tas IH]; intros eligible l Hl; [constructor|].
  simpl in Hl.
  destruct (NewHash w (TicketAddress.Ticket t)) as [h|] eqn:Eh; [|discriminate].
  constructor; [eauto|].
  destruct (GetTransaction w h); [|eauto].
  destruct (commitmentAddress w _); [|eauto].
  destruct (ValidateAddress w _); [|eauto].
  destruct (_ <=? _)%Z; [eauto|].
  destruct (castVotes !! h); eauto.
Qed.

(** With every ticket hashing, the loop is a filter that keeps the
    order of the tickets. *)
Lemma eligibleLoop_filter castVotes tas : forall eligible,
  Forall (fun t => exists h, NewHash w (TicketAddress.Ticket t) = Ok h) tas ->
  eligibleLoop w castVotes tas eligible
  = Ok (eligible ++ List.filter (keeps w castVotes) tas).
Proof.
  induction tas as [|t tas IH]; intros eligible Hall; simpl.
  - rewrite app_nil_r. reflexivity.
  - inversion Hall as [|? ? [h Hh] Hrest]; subst.
    unfold keeps at 1. rewrite Hh. unfold passesFilter.
    destruct (GetTransaction w h); [|auto].
    destruct (commitmentAddress w _); [|auto].
    destruct (ValidateAddress w _); [|auto].
    destruct (_ <=? _)%Z; simpl; [auto|].
    destruct (castVotes !! h) eqn:Ec.
    + rewrite bool_decide_eq_false_2 by discriminate. auto.
    + rewrite bool_decide_eq_true_2 by reflexivity.
      rewrite IH by exact Hrest. rewrite <- app_assoc. reflexivity.
Qed.

Lemma eligibleLoop_fail castVotes tas : forall eligible e,
  eligibleLoop w castVotes tas eligible = Fail e <->
  exists pre t post,
    tas = pre ++ t :: post /\
    NewHash w (TicketAddress.Ticket t) = Fail e /\
    Forall (fun t' => exists h, NewHash w (TicketAddress.Ticket t') = Ok h) pre.
Proof.
  induction tas as [|t tas IH]; intros eligible e; simpl.
  - split; [discriminate|]. intros [pre [t [post [H _]]]].
    destruct pre; discriminate.
  - assert (Hstep : forall acc,
               eligibleLoop w castVotes tas acc = Fail e <->
               exists pre t0 post,
                 t :: tas = (t :: pre) ++ t0 :: post /\
                 NewHash w (TicketAddress.Ticket t0) = Fail e /\
                 Forall (fun t' => exists h,
                             NewHash w (TicketAddress.Ticket t') = Ok h) pre).
    { intros acc. rewrite IH. split.
      - intros [pre [t0 [post [-> [H1 H2]]]]]. exists pre, t0, post. auto.
      - intros [pre [t0 [post [Ht [H1 H2]]]]]. inversion Ht; subst.
        exists pre, t0, post. auto. }
    destruct (NewHash w (TicketAddress.Ticket t)) as [h|e0] eqn:Eh.
    + assert (Hgo : forall acc,
                 eligibleLoop w castVotes tas acc = Fail e <->
                 exists pre t0 post,
                   t :: tas = pre ++ t0 :: post /\
                   NewHash w (TicketAddress.Ticket t0) = Fail e /\
                   Forall (fun t' => exists h,
                               NewHash w (TicketAddress.Ticket t') = Ok h) pre).
      { intros acc. rewrite Hstep. split.
        - intros [pre [t0 [post [Ht [H1 H2]]]]].
          exists (t :: pre), t0, post. split; [exact Ht|].
          split; [exact H1|]. constructor; eauto.
        - intros [pre [t0 [post [Ht [H1 H2]]]]].
          destruct pre as [|p pre]; simpl in Ht; inversion Ht; subst.
          + congruence.
          + inversion H2; subst. exists pre, t0, post. auto. }
      destruct (GetTransaction w h); [|apply Hgo].
      destruct (commitmentAddress w _); [|apply Hgo].
      destruct (ValidateAddress w _); [|apply Hgo].
      destruct (_ <=? _)%Z; [apply Hgo|].
      destruct (castVotes !! h); apply Hgo.
    + split.
      * intros H. inversion H; subst. exists [], t, tas. auto.
      * intros [pre [t0 [post [Ht [H1 H2]]]]].
        destruct pre as [|p pre]; simpl in Ht; inversion Ht; subst.
        -- congruence.
        -- inversion H2 as [|? ? [h Hp] ?]; subst. congruence.
Qed.

(** The map of cast votes has an entry for a ticket exactly when the
    server lists a vote of the ticket. *)
Lemma castVotes_lookup_None Votes h : forall m : gmap string CastVoteDetails.t,
  fold_left (fun m v => <[CastVoteDetails.Ticket v := v]> m) Votes m !! h = None
  <-> m !! h = None /\ ~ In h (map CastVoteDetails.Ticket Votes).
Proof.
  induction Votes as [|v Votes IH]; intros m; simpl.
  - tauto.
  - rewrite IH. destruct (decide (CastVoteDetails.Ticket v = h)) as [->|Hne].
    + rewrite lookup_insert_eq. split; [intros [H _]; discriminate|].
      intros [_ H]. exfalso. apply H. left. reflexivity.
    + rewrite lookup_insert_ne by exact Hne. tauto.
Qed.

(** X8.  What [eligibleVotes] returns, when it returns no error, is a
    sublist of the wallet's tickets in their order, and a ticket is in
    it exactly when the wallet knows its transaction, its commitment
    address and the account of the address, the account is not an
    imported xpub account, and the server lists no vote of the ticket:
    a ticket that has voted, or that an imported account tracks, or that
    a wallet lookup fails for, is never returned. *)
Theorem eligibleVotes_sublist Votes tas l :
  eligibleVotes w Votes tas = Ok l ->
  sublist l tas /\
  forall t,
    In t l <->
    In t tas /\
    exists h tx addr AccountNumber,
      NewHash w (TicketAddress.Ticket t) = Ok h /\
      GetTransaction w h = Some tx /\
      commitmentAddress w tx = Some addr /\
      ValidateAddress w addr = Some AccountNumber /\
      (AccountNumber < 2 ^ 31 - 1)%Z /\
      ~ In h (map CastVoteDetails.Ticket Votes).
Proof.
  unfold eligibleVotes. intros Hl.
  pose proof (eligibleLoop_hashes _ _ _ _ Hl) as Hall.
  rewrite (eligibleLoop_filter _ _ _ Hall) in Hl. inversion Hl; subst. simpl.
  split; [apply filter_sublist|].
  intros t. rewrite List.filter_In. unfold keeps, passesFilter.
  split.
  - intros [Hin Hk]. split; [exact Hin|].
    destruct (NewHash w (TicketAddress.Ticket t)) as [h|] eqn:E1; [|discriminate].
    destruct (GetTransaction w h) as [tx|] eqn:E2; [|discriminate].
    destruct (commitmentAddress w tx) as [addr|] eqn:E3; [|discriminate].
    destruct (ValidateAddress w addr) as [acct|] eqn:E4; [|discriminate].
    apply andb_true_iff in Hk. destruct Hk as [Ha Hc].
    apply bool_decide_eq_true_1 in Hc.
    apply (castVotes_lookup_None Votes h ∅) in Hc. destruct Hc as [_ Hc].
    exists h, tx, addr, acct.
    split; [reflexivity|]. split; [exact E2|]. split; [exact E3|].
    split; [exact E4|]. split; [|exact Hc].
    destruct (Z.leb_spec (2 ^ 31 - 1) acct); [discriminate | assumption].
  - intros [Hin [h [tx [addr [acct [Hh [Hg [Hc [Hv [Ha Hn]]]]]]]]]].
    split; [exact Hin|]. rewrite Hh, Hg, Hc, Hv.
    destruct (Z.leb_spec (2 ^ 31 - 1) acct); [lia|]. simpl.
    apply bool_decide_eq_true_2.
    apply (castVotes_lookup_None Votes h ∅). split; [apply lookup_empty | exact Hn].
Qed.

(** X9.  [eligibleVotes] returns an error exactly when a ticket of the
    wallet does not hash, and the error is that of the first such
    ticket: one malformed ticket fails the whole call, whereas a failed
    wallet lookup only drops its ticket. *)
Theorem eligibleVotes_fails_on_bad_hash Votes tas e :
  eligibleVotes w Votes tas = Fail e <->
  exists pre t post,
    tas = pre ++ t :: post /\
    NewHash w (TicketAddress.Ticket t) = Fail e /\
    Forall (fun t' => exists h, NewHash w (TicketAddress.Ticket t') = Ok h) pre.
Proof. apply eligibleLoop_fail. Qed.

End EligibleFacts.

Lemma castVotesOf_snoc Votes v :
  castVotesOf (Votes ++ [v]) = <[CastVoteDetails.Ticket v := v]> (castVotesOf Votes).
Proof. unfold castVotesOf. rewrite fold_left_app. reflexivity. Qed.

(** X10.  The map of cast votes that [eligibleVotes] filters with holds,
    for a ticket, the last vote the server lists for it, and has no
    entry exactly for the tickets the server lists no vote of. *)
Theorem castVotesOf_last_vote Votes h :
  (forall v,
      castVotesOf Votes !! h = Some v <->
      exists pre post,
        Votes = pre ++ v :: post /\
        CastVoteDetails.Ticket v = h /\
        Forall (fun v' => CastVoteDetails.Ticket v' <> h) post) /\
  (castVotesOf Votes !! h = None <->
   ~ In h (map CastVoteDetails.Ticket Votes)).
Proof.
  split.
  - induction Votes as [|v0 Votes IH] using rev_ind; intros v.
    + unfold castVotesOf. simpl. rewrite lookup_empty.
      split; [discriminate|]. intros [pre [post [H _]]].
      destruct pre; discriminate.
    + rewrite castVotesOf_snoc.
      destruct (decide (CastVoteDetails.Ticket v0 = h)) as [Heq|Hne].
      * rewrite Heq, lookup_insert_eq. split.
        -- intros H. inversion H; subst. exists Votes, []. auto.
        -- intros [pre [post [Hv [Ht Hpost]]]].
           destruct post as [|p post _] using rev_ind.
           ++ apply app_inj_tail in Hv. destruct Hv as [_ ->]. reflexivity.
           ++ rewrite app_comm_cons, app_assoc in Hv.
              apply app_inj_tail in Hv. destruct Hv as [_ ->].
              apply Forall_app in Hpost. destruct Hpost as [_ Hp].
              inversion Hp; subst. contradiction.
      * rewrite lookup_insert_ne by exact Hne. rewrite IH. split.
        -- intros [pre [post [-> [Ht Hpost]]]].
           exists pre, (post ++ [v0]). rewrite <- app_assoc. simpl.
           split; [reflexivity|]. split; [exact Ht|].
           apply Forall_app. split; [exact Hpost|]. constructor; [exact Hne|constructor].
        -- intros [pre [post [Hv [Ht Hpost]]]].
           destruct post as [|p post _] using rev_ind.
           ++ apply app_inj_tail in Hv. destruct Hv as [_ ->]. contradiction.
           ++ rewrite app_comm_cons, app_assoc in Hv.
              apply app_inj_tail in Hv. destruct Hv as [-> ->].
              apply Forall_app in Hpost. destruct Hpost as [Hpost _].
              exists pre, post. auto.
  - unfold castVotesOf. rewrite castVotes_lookup_None, lookup_empty. tauto.
Qed.

(** [eligibleVotes_sublist] on a wallet ticket that has not voted. *)
Lemma eligibleVotes_sublist_witness :
  sublist [exTicketAddress] [exTicketAddress].
Proof.
  exact (proj1 (eligibleVotes_sublist exWallet [] [exTicketAddress]
                  [exTicketAddress] eq_refl)).
Defined.

(** [eligibleVotes_fails_on_bad_hash] on a malformed second ticket. *)
Lemma eligibleVotes_fails_on_bad_hash_witness :
  eligibleVotes exStrictWallet [] [exTicketAddress;
                                   TicketAddress.mk "short" "DsAddress"]
  = Fail (Plain "invalid hash length").
Proof.
  apply (proj2 (eligibleVotes_fails_on_bad_hash exStrictWallet []
                  [exTicketAddress; TicketAddress.mk "short" "DsAddress"]
                  (Plain "invalid hash length"))).
  exists [exTicketAddress], (TicketAddress.mk "short" "DsAddress"), [].
  split; [reflexivity|]. split; [reflexivity|].
  constructor; [|constructor]. exists exTicket. reflexivity.
Defined.

(** [castVotesOf_last_vote] on two votes of one ticket. *)
Lemma castVotesOf_last_vote_witness :
  castVotesOf [exForgedCast; exCast] !! exTicket = Some exCast.
Proof.
  apply (proj2 (proj1 (castVotesOf_last_vote [exForgedCast; exCast] exTicket)
                      exCast)).
  exists [exForgedCast], []. split; [reflexivity|].
  split; [reflexivity | constructor].
Defined.

(* ===================================================================== *)
(** ** The HTTP client, continued                                        *)
(* ===================================================================== *)

Section MoreClientFacts.

Context (c : ctx).

(** X11.  The request [makeRequest] builds: the URL is the host, the API
    and the route followed by the query, and the user agent is the
    client's.  Without a request value there is neither a body nor a
    query; a GET request never has a body and carries the value in the
    query; any other method carries it as the JSON body and has no
    query.  An encoding error is returned before anything is sent. *)
Theorem buildRequest_shape method api route b req :
  buildRequest c method api route b = Ok req ->
  http.Method req = method /\
  http.UserAgent req = userAgent c /\
  (b = None ->
   http.ReqBody req = EmptyString /\
   http.URL req = PoliteiaWWW c +:+ api +:+ route +:+ EmptyString) /\
  (forall v, b = Some v -> method = http.MethodGet ->
     http.ReqBody req = EmptyString /\
     exists form, schemaEncode c v = Ok form /\
       http.URL req = PoliteiaWWW c +:+ api +:+ route +:+ "?" +:+ form) /\
  (forall v, b = Some v -> method <> http.MethodGet ->
     jsonMarshal c v = Ok (http.ReqBody req) /\
     http.URL req = PoliteiaWWW c +:+ api +:+ route +:+ EmptyString).
Proof.
  unfold buildRequest, encodeRequest. intros H.
  destruct b as [v|].
  - destruct (String.eqb_spec method http.MethodGet) as [Hget|Hget].
    + destruct (schemaEncode c v) as [form|] eqn:Ef; [|discriminate].
      destruct (newRequestError c method _); [discriminate|].
      inversion H; subst req; simpl.
      split; [reflexivity|]. split; [reflexivity|].
      split; [discriminate|]. split.
      * intros v' Hv _. inversion Hv; subst. split; [reflexivity|].
        exists form. auto.
      * intros v' _ Hne. contradiction.
    + destruct (jsonMarshal c v) as [body|] eqn:Ej; [|discriminate].
      destruct (newRequestError c method _); [discriminate|].
      inversion H; subst req; simpl.
      split; [reflexivity|]. split; [reflexivity|].
      split; [discriminate|]. split.
      * intros v' _ Hg. contradiction.
      * intros v' Hv _. inversion Hv; subst. auto.
  - destruct (newRequestError c method _); [discriminate|].
    inversion H; subst req; simpl.
    split; [reflexivity|]. split; [reflexivity|].
    split; [auto|]. split; intros v' Hv; discriminate.
Qed.

(** X12.  [makeRequest] returns a body only for a response with status
    200 or 400, and then it is the body of that response; once a request
    is built, it returns a retryable error only for a transport failure
    or for a response with another status. *)
Theorem makeRequest_outcomes method api route b :
  (forall body,
      makeRequest c method api route b = Ok body ->
      exists req r,
        buildRequest c method api route b = Ok req /\
        clientDo c req = inr r /\
        body = http.Body r /\
        (http.StatusCode r = 200 \/ http.StatusCode r = 400)%Z) /\
  (forall req e,
      buildRequest c method api route b = Ok req ->
      makeRequest c method api route b = Fail (Retry e) ->
      (exists err, clientDo c req = inl err) \/
      (exists r, clientDo c req = inr r /\
                 http.StatusCode r <> 200%Z /\ http.StatusCode r <> 400%Z /\
                 ErrRetry.Code e = http.StatusCode r /\
                 ErrRetry.Body e = http.Body r)).
Proof.
  unfold makeRequest. split.
  - intros body H.
    destruct (buildRequest c method api route b) as [req|]; [|discriminate].
    destruct (clientDo c req) as [err|r] eqn:Ed; [discriminate|].
    exists req, r. split; [reflexivity|]. split; [exact Ed|].
    unfold classifyResponse, http.StatusOK, http.StatusBadRequest in H.
    destruct (Z.eqb_spec (http.StatusCode r) 200) as [H200|].
    + inversion H. auto.
    + destruct (Z.eqb_spec (http.StatusCode r) 400) as [H400|]; [|discriminate].
      destruct (unmarshalUserErrorReply c (http.Body r)) as [ue|].
      * destruct (negb _); [discriminate|]. inversion H. auto.
      * inversion H. auto.
  - intros req e Hb H. rewrite Hb in H.
    destruct (clientDo c req) as [err|r] eqn:Ed; [eauto|].
    right. exists r. split; [reflexivity|].
    unfold classifyResponse, http.StatusOK, http.StatusBadRequest in H.
    destruct (Z.eqb_spec (http.StatusCode r) 200) as [H200|H200]; [discriminate|].
    destruct (Z.eqb_spec (http.StatusCode r) 400) as [H400|H400].
    + destruct (unmarshalUserErrorReply c (http.Body r)) as [ue|];
        [destruct (negb _)|]; discriminate.
    + inversion H; subst. simpl. auto.
Qed.

(** X13.  For a ballot of one vote, the retryable errors of [sendVote]
    are exactly those of [makeRequest]; a reply that does not parse, or
    that does not hold exactly one receipt, is an error that is not
    retried. *)
Theorem sendVote_retries_transport_only ballot :
  length (CastBallot.Votes ballot) = 1%nat ->
  (forall e,
      sendVote c ballot = Fail (Retry e) <->
      makeRequest c http.MethodPost (APIRoute c) (RouteCastBallot c)
                  (Some (ballotPayload c ballot)) = Fail (Retry e)) /\
  (forall body,
      makeRequest c http.MethodPost (APIRoute c) (RouteCastBallot c)
                  (Some (ballotPayload c ballot)) = Ok body ->
      forall err, sendVote c ballot = Fail err ->
                  errorsAsErrRetry err = None).
Proof.
  intros Hlen. unfold sendVote. rewrite Hlen. simpl. split.
  - intros e.
    destruct (makeRequest c http.MethodPost (APIRoute c) (RouteCastBallot c)
                          (Some (ballotPayload c ballot))) as [body|err];
      [|split; intros H; inversion H; reflexivity].
    split; [|discriminate].
    destruct (unmarshalCastBallotReply c body) as [|vr]; [discriminate|].
    destruct (negb _); [discriminate|].
    destruct (CastBallotReply.Receipts vr); discriminate.
  - intros body Hm err. rewrite Hm.
    destruct (unmarshalCastBallotReply c body) as [|vr];
      [intros H; inversion H; reflexivity|].
    destruct (negb _); [intros H; inversion H; reflexivity|].
    destruct (CastBallotReply.Receipts vr); intros H; inversion H; reflexivity.
Qed.

End MoreClientFacts.

(** [buildRequest_shape] on the ballot request of the example client. *)
Lemma buildRequest_shape_witness :
  exists req,
    buildRequest exOkCtx "POST" "/ticketvote/v1" "/castballot"
                 (Some (CastBallot.mk [exVote])) = Ok req /\
    http.UserAgent req = "politeiavoter/1.0.0"%string.
Proof.
  eexists. split; [reflexivity|].
  exact (proj1 (proj2 (buildRequest_shape exOkCtx "POST" "/ticketvote/v1"
                         "/castballot" (Some (CastBallot.mk [exVote])) _
                         eq_refl))).
Defined.

(** [makeRequest_outcomes] on a response with status 200. *)
Lemma makeRequest_outcomes_witness :
  exists req r,
    buildRequest exOkCtx "POST" "/ticketvote/v1" "/castballot"
                 (Some (CastBallot.mk [exVote])) = Ok req /\
    clientDo exOkCtx req = inr r /\
    "{}"%string = http.Body r /\
    (http.StatusCode r = 200 \/ http.StatusCode r = 400)%Z.
Proof.
  exact (proj1 (makeRequest_outcomes exOkCtx "POST" "/ticketvote/v1"
                  "/castballot" (Some (CastBallot.mk [exVote])))
               "{}"%string eq_refl).
Defined.

(** [sendVote_retries_transport_only] on a server that answers 502. *)
Lemma sendVote_retries_transport_only_witness :
  sendVote (exCtx (http.mkResponse 502 "bad gateway")) (CastBallot.mk [exVote])
  = Fail (Retry (ErrRetry.mk "r.StatusCode != http.StatusOK" "bad gateway"
                             502 None)).
Proof.
  apply (proj2 (proj1 (sendVote_retries_transport_only
                         (exCtx (http.mkResponse 502 "bad gateway"))
                         (CastBallot.mk [exVote]) eq_refl) _)).
  reflexivity.
Defined.

(* ===================================================================== *)
(** ** The trickler, continued                                           *)
(* ===================================================================== *)

Lemma jsonLog_keeps_prefix voteDir run now io filename token work fs q :
  contentOf fs q
  `prefix_of` contentOf (jsonLog voteDir run now io filename token work fs).1 q.
Proof.
  destruct (jsonLog_files voteDir run now io filename token work fs)
    as [done [_ [_ Hfiles]]]. cbv zeta in Hfiles.
  destruct Hfiles as [[Hsame _]|Hfiles].
  - unfold contentOf. rewrite Hsame. reflexivity.
  - unfold contentOf at 2. rewrite Hfiles.
    destruct (decide (journalPath voteDir run filename token = q)) as [<-|Hne].
    + rewrite lookup_insert_eq. simpl. apply prefix_app_r. reflexivity.
    + rewrite lookup_insert_ne by exact Hne. reflexivity.
Qed.

Lemma jsonLog_other_files voteDir run now io filename token work fs q :
  q <> journalPath voteDir run filename token ->
  os.files (jsonLog voteDir run now io filename token work fs).1 !! q
  = os.files fs !! q.
Proof.
  intros Hq.
  destruct (jsonLog_files voteDir run now io filename token work fs)
    as [done [_ [_ Hfiles]]]. cbv zeta in Hfiles.
  destruct Hfiles as [[Hsame _]|Hfiles].
  - rewrite Hsame. reflexivity.
  - rewrite Hfiles. apply lookup_insert_ne. congruence.
Qed.

Section MoreTricklerFacts.

Context (cfg : config) (token : string) (rounds : nat -> round).

(** What one round does to the engine once its vote is sent. *)
Lemma castOne_inv i vi e :
  let out := castOne cfg token rounds i vi e in
  voteIntervalQ out.1 = voteIntervalQ e /\
  submitted out.1 = submitted e ++ [ballotOf vi] /\
  ((forall err, out.2 <> Some (Return err)) ->
   (length (ballotResults out.1) + length (retryQ out.1)
    = S (length (ballotResults e) + length (retryQ e)))%nat) /\
  out.2 <> Some Break /\
  (sent out.1 = sent e \/
   (sent out.1 = sent e ++ [mainLoopForceExit] /\ out.2 = Some GotoExit)) /\
  (out.2 = None -> sent out.1 = sent e) /\
  (forall p, contentOf (disk e) p `prefix_of` contentOf (disk out.1) p) /\
  (forall p, p <> failedPath cfg token -> p <> successPath cfg token ->
             os.files (disk out.1) !! p = os.files (disk e) !! p) /\
  ballotResults e `prefix_of` ballotResults out.1 /\
  retryQ e `prefix_of` retryQ out.1.
Proof.
  cbv zeta. unfold castOne, ballotOf.
  set (b := CastBallot.mk [voteInterval.Vote vi]).
  set (r := rounds i).
  assert (Hlog : forall filename work,
             (forall p, contentOf (disk e) p `prefix_of`
                        contentOf (jsonLog (voteDir cfg) (run cfg) (now r) (io r)
                                           filename token work (disk e)).1 p) /\
             (forall p, p <> journalPath (voteDir cfg) (run cfg) filename token ->
                        os.files (jsonLog (voteDir cfg) (run cfg) (now r) (io r)
                                          filename token work (disk e)).1 !! p
                        = os.files (disk e) !! p)).
  { intros filename work. split; intros p.
    - apply jsonLog_keeps_prefix.
    - apply jsonLog_other_files. }
  destruct (sendVote (client r) b) as [vr|err]; simpl.
  - destruct (N.eqb (CastVoteReply.ErrorCode vr) (VoteErrorVoteStatusInvalid cfg)).
    + destruct (Hlog failedJournal [JReply vr]) as [Hp Ho].
      destruct (jsonLog _ _ _ _ failedJournal _ _ _) as [fs [err|]]; simpl in *.
      * split; [reflexivity|]. split; [reflexivity|].
        split; [intros H; exfalso; eapply H; reflexivity|].
        split; [discriminate|]. split; [auto|]. split; [discriminate|].
        split; [exact Hp|]. split; [intros p H1 _; apply Ho; exact H1|].
        split; [apply prefix_app_r; reflexivity | reflexivity].
      * split; [reflexivity|]. split; [reflexivity|].
        split; [intros _; rewrite length_app; simpl; lia|].
        split; [discriminate|]. split; [auto|]. split; [discriminate|].
        split; [exact Hp|]. split; [intros p H1 _; apply Ho; exact H1|].
        split; [apply prefix_app_r; reflexivity | reflexivity].
    + destruct (Hlog successJournal [JReply vr]) as [Hp Ho].
      destruct (jsonLog _ _ _ _ successJournal _ _ _) as [fs [err|]]; simpl in *.
      * split; [reflexivity|]. split; [reflexivity|].
        split; [intros H; exfalso; eapply H; reflexivity|].
        split; [discriminate|]. split; [auto|]. split; [discriminate|].
        split; [exact Hp|]. split; [intros p _ H2; apply Ho; exact H2|].
        split; [apply prefix_app_r; reflexivity | reflexivity].
      * split; [reflexivity|]. split; [reflexivity|].
        split; [intros _; rewrite length_app; simpl; lia|].
        split; [discriminate|]. split; [auto|]. split; [reflexivity|].
        split; [exact Hp|]. split; [intros p _ H2; apply Ho; exact H2|].
        split; [apply prefix_app_r; reflexivity | reflexivity].
  - destruct (errorsAsErrRetry err) as [er|].
    + destruct (Hlog failedJournal [JBallot b; JErrRetry er]) as [Hp Ho].
      destruct (jsonLog _ _ _ _ failedJournal _ _ _) as [fs [err'|]]; simpl in *.
      * split; [reflexivity|]. split; [reflexivity|].
        split; [intros H; exfalso; eapply H; reflexivity|].
        split; [discriminate|]. split; [auto|]. split; [discriminate|].
        split; [exact Hp|]. split; [intros p H1 _; apply Ho; exact H1|].
        split; reflexivity.
      * split; [reflexivity|]. split; [reflexivity|].
        split; [intros _; rewrite length_app; simpl; lia|].
        split; [discriminate|]. split; [auto|]. split; [reflexivity|].
        split; [exact Hp|]. split; [intros p H1 _; apply Ho; exact H1|].
        split; [reflexivity | apply prefix_app_r; reflexivity].
    + simpl. split; [reflexivity|]. split; [reflexivity|].
      split; [intros H; exfalso; eapply H; reflexivity|].
      split; [discriminate|]. split; [auto|]. split; [discriminate|].
      split; [reflexivity|]. split; [reflexivity|]. split; reflexivity.
Qed.

(** The whole loop, from any round on: [k] is the number of votes it
    sends. *)
Lemma mainLoop_inv q : forall i e,
  let out := mainLoop cfg token rounds q i e in
  exists k,
    (k <= length q)%nat /\
    submitted out.1 = submitted e ++ map ballotOf (firstn k q) /\
    voteIntervalQ out.1 ⊆+ skipn k q /\
    (out.2 = Break ->
     k = length q /\ voteIntervalQ out.1 = [] /\ sent out.1 = sent e) /\
    (i = 0%nat -> q <> [] -> (1 <= k)%nat) /\
    ((forall err, out.2 <> Return err) ->
     (length (ballotResults out.1) + length (retryQ out.1)
      = length (ballotResults e) + length (retryQ e) + k)%nat) /\
    (sent out.1 = sent e \/
     (sent out.1 = sent e ++ [mainLoopForceExit] /\ out.2 = GotoExit)) /\
    (forall p, contentOf (disk e) p `prefix_of` contentOf (disk out.1) p) /\
    (forall p, p <> failedPath cfg token -> p <> successPath cfg token ->
               os.files (disk out.1) !! p = os.files (disk e) !! p) /\
    ballotResults e `prefix_of` ballotResults out.1 /\
    retryQ e `prefix_of` retryQ out.1 /\
    (length q <= S (k + length (voteIntervalQ out.1)))%nat.
Proof.
  induction q as [|vi rest IH]; intros i e; cbv zeta.
  - exists 0%nat. simpl. rewrite app_nil_r.
    split; [lia|]. split; [reflexivity|]. split; [reflexivity|].
    split; [auto|]. split; [intros _ H; contradiction|].
    split; [intros _; lia|]. split; [auto|].
    split; [reflexivity|]. split; [reflexivity|]. split; [reflexivity|].
    split; [reflexivity | lia].
  - cbn [mainLoop].
    set (e0 := mkEngine rest (retryQ e) (ballotResults e) (disk e) (sent e)
                        (submitted e)).
    destruct (if Nat.eqb i 0 then Elapsed else wake (rounds i)) eqn:Ew.
    + (* the vote is sent *)
      destruct (castOne_inv i vi e0) as [C1 [C2 [C3 [C4 [C5 [C6 [C7 [C8 [C9 C10]]]]]]]]].
      cbv zeta in C1, C2, C3, C4, C5, C6, C7, C8, C9, C10.
      destruct (castOne cfg token rounds i vi e0) as [e1 [how|]]; simpl in *.
      * exists 1%nat. simpl. rewrite C1, C2.
        split; [lia|]. split; [reflexivity|]. split; [reflexivity|].
        split; [intros ->; contradiction|]. split; [intros; lia|].
        split.
        { intros Hn. rewrite C3; [lia|]. intros err H. inversion H; subst.
          eapply Hn. reflexivity. }
        split.
        { destruct C5 as [C5|[C5 C5']]; [auto|]. inversion C5'; subst. auto. }
        split; [exact C7|]. split; [exact C8|]. split; [assumption|].
        split; [assumption | lia].
      * destruct (IH (S i) e1) as [k [K1 [K2 [K3 [K4 [K5 [K6 [K7 [K8 [K9 [K10 [K11 K12]]]]]]]]]]]].
        cbv zeta in K1, K2, K3, K4, K5, K6, K7, K8, K9, K10, K11, K12.
        exists (S k). simpl.
        split; [lia|].
        split; [rewrite K2, C2, <- app_assoc; reflexivity|].
        split; [exact K3|].
        split.
        { intros Hb. destruct (K4 Hb) as [-> [Hq Hs]].
          split; [reflexivity|]. split; [exact Hq|].
          rewrite Hs. apply C6. reflexivity. }
        split; [intros; lia|].
        split.
        { intros Hn. rewrite (K6 Hn), <- Nat.add_succ_comm.
          rewrite <- C3; [lia | discriminate]. }
        split.
        { rewrite <- (C6 eq_refl). exact K7. }
        split; [intros p; etransitivity; [apply C7 | apply K8]|].
        split; [intros p H1 H2; rewrite K9, C8 by assumption; reflexivity|].
        split; [etransitivity; eassumption|].
        split; [etransitivity; eassumption | lia].
    + (* the shutdown signal *)
      exists 0%nat. simpl. rewrite app_nil_r.
      split; [lia|]. split; [reflexivity|].
      split; [apply submseteq_cons; reflexivity|].
      split; [discriminate|].
      split.
      { intros -> _. simpl in Ew. discriminate. }
      split; [intros _; lia|]. split; [auto|].
      split; [reflexivity|]. split; [reflexivity|]. split; [reflexivity|].
      split; [reflexivity | lia].
    + (* the retry loop forces an exit *)
      exists 0%nat. simpl. rewrite app_nil_r.
      split; [lia|]. split; [reflexivity|].
      split.
      { apply Permutation_submseteq. rewrite Permutation_app_comm. reflexivity. }
      split; [discriminate|].
      split.
      { intros -> _. simpl in Ew. discriminate. }
      split; [intros _; lia|]. split; [auto|].
      split; [reflexivity|]. split; [reflexivity|]. split; [reflexivity|].
      split; [reflexivity|]. rewrite length_app. simpl. lia.
Qed.

(** X14.  The main loop submits the scheduled votes in the order of
    the interval queue, one ballot of one vote for each, and none twice:
    what it has submitted when it stops is the ballots of the first [k]
    votes of the queue, and what it leaves in the queue is among the
    votes after these.  At most one vote is neither submitted nor left
    in the queue.  The first vote of a run is always submitted, and the
    loop ends by [break] only when every vote was submitted. *)
Theorem mainLoop_submits_in_order q i e :
  let out := mainLoop cfg token rounds q i e in
  exists k,
    (k <= length q)%nat /\
    submitted out.1 = submitted e ++ map ballotOf (firstn k q) /\
    voteIntervalQ out.1 ⊆+ skipn k q /\
    (length q <= S (k + length (voteIntervalQ out.1)))%nat /\
    (i = 0%nat -> q <> [] -> (1 <= k)%nat) /\
    (out.2 = Break -> k = length q /\ voteIntervalQ out.1 = []).
Proof.
  cbv zeta.
  destruct (mainLoop_inv q i e)
    as [k [K1 [K2 [K3 [K4 [K5 [_ [_ [_ [_ [_ [_ K12]]]]]]]]]]]].
  cbv zeta in K1, K2, K3, K4, K5, K12.
  exists k. split; [exact K1|]. split; [exact K2|]. split; [exact K3|].
  split; [exact K12|]. split; [exact K5|].
  intros Hb. destruct (K4 Hb) as [H1 [H2 _]]. auto.
Qed.


Lemma append_inj_head a : forall x y, a +:+ x = a +:+ y -> x = y.
Proof.
  induction a as [|ch a IH]; intros x y H; simpl in H; [exact H|].
  inversion H. auto.
Qed.

Lemma workPath_distinct :
  workPath cfg token <> failedPath cfg token /\
  workPath cfg token <> successPath cfg token.
Proof.
  unfold workPath, failedPath, successPath, journalPath, Join.
  split; intros H; apply append_inj_head in H; simpl in H; discriminate.
Qed.

(** X16.  The main loop only ever appends to the journals: whatever
    happens in a run, every file keeps what it held as a prefix of what
    it holds afterwards, and no file other than the failed and the
    success journal of the run is created or changed; in particular the
    work journal is left as it was. *)
Theorem mainLoop_journal_append_only q i e :
  let out := mainLoop cfg token rounds q i e in
  (forall p, contentOf (disk e) p `prefix_of` contentOf (disk out.1) p) /\
  (forall p, p <> failedPath cfg token -> p <> successPath cfg token ->
             os.files (disk out.1) !! p = os.files (disk e) !! p) /\
  os.files (disk out.1) !! workPath cfg token
  = os.files (disk e) !! workPath cfg token.
Proof.
  cbv zeta.
  destruct (mainLoop_inv q i e)
    as [k [_ [_ [_ [_ [_ [_ [_ [K8 [K9 _]]]]]]]]]].
  cbv zeta in K8, K9.
  split; [exact K8|]. split; [exact K9|].
  destruct workPath_distinct as [H1 H2]. apply K9; assumption.
Qed.


End MoreTricklerFacts.

(** [mainLoop_submits_in_order] on the run of three votes that the
    shutdown signal stops: the first vote has been submitted. *)
Lemma mainLoop_submits_in_order_witness :
  exists k,
    (1 <= k)%nat /\
    submitted (mainLoop exConfig "c0ffee" (exRounds Cancelled)
                        (voteIntervalQ exEngine) 0 exEngine).1
    = submitted exEngine ++ map ballotOf (firstn k (voteIntervalQ exEngine)).
Proof.
  destruct (mainLoop_submits_in_order exConfig "c0ffee" (exRounds Cancelled)
              (voteIntervalQ exEngine) 0 exEngine)
    as [k [_ [H2 [_ [_ [H5 _]]]]]].
  exists k. split; [|exact H2].
  apply H5; [reflexivity | discriminate].
Defined.


(** [mainLoop_journal_append_only] on the run of three accepted votes:
    a file that is neither journal is not created. *)
Lemma mainLoop_journal_append_only_witness :
  os.files (disk (mainLoop exConfig "c0ffee" (exRounds Elapsed)
                           (voteIntervalQ exEngine) 0 exEngine).1)
    !! "votes/c0ffee/.voteresults"%string
  = os.files (disk exEngine) !! "votes/c0ffee/.voteresults"%string.
Proof.
  refine (proj1 (proj2 (mainLoop_journal_append_only exConfig "c0ffee"
                          (exRounds Elapsed) (voteIntervalQ exEngine) 0
                          exEngine))
                "votes/c0ffee/.voteresults"%string _ _);
    vm_compute; discriminate.
Defined.

(* ===================================================================== *)
(** ** The verifier, continued                                           *)
(* ===================================================================== *)

Section MoreVerifierFacts.

Context (json : codec).

(** With every entry marked as failed once, as the statistics loop
    makes them, each entry is counted as completed but not recorded or
    as failed, and the votes not attempted are among the failed. *)
Lemma countFailed_total cast l : forall n,
  Forall (fun v => voteStat.failed v = 1%nat) l ->
  let n' := fold_left (countFailed cast) l n in
  (completedNotRecorded n' + failedVote n'
   = completedNotRecorded n + failedVote n + length l)%nat /\
  (noVote n' + failedVote n <= failedVote n' + noVote n)%nat.
Proof.
  induction l as [|v l IH]; intros n Hall; simpl; [lia|].
  inversion Hall as [|? ? Hv Hl]; subst.
  destruct (IH (countFailed cast n v) Hl) as [H1 H2].
  cbv zeta in H1, H2.
  assert (Hstep :
            (completedNotRecorded (countFailed cast n v)
             + failedVote (countFailed cast n v)
             = S (completedNotRecorded n + failedVote n))%nat /\
            (noVote (countFailed cast n v) + failedVote n
             <= failedVote (countFailed cast n v) + noVote n)%nat).
  { unfold countFailed. rewrite Hv. simpl.
    destruct (Nat.eqb (voteStat.retries v) 0);
      [destruct (decide (voteStat.ticket v ∈ cast))|]; simpl; lia. }
  lia.
Qed.

(** X18.  In the report of [verifyVote], the tickets of the work journal
    that have no entry in the success journal are exactly the keys of
    [failedVotes]; each of them is counted once, as completed but not
    recorded or as failed, and the votes counted as not attempted are
    among the failed. *)
Theorem verifyVote_counts_unrecorded voteDir vote EligibleTickets Votes fa r :
  verifyVote json voteDir vote true EligibleTickets Votes fa = Ok r ->
  (forall t, t ∈ tickets r <->
             exists vi, In vi (workVotes (work (journals r))) /\
                        ticketOf vi = t) /\
  (forall t, is_Some (failedVotes r !! t) <->
             t ∈ tickets r /\ success (journals r) !! t = None) /\
  (completedNotRecorded (counts r) + failedVote (counts r)
   = size (failedVotes r))%nat /\
  (noVote (counts r) <= failedVote (counts r))%nat.
Proof.
  intros Hv.
  destruct (verifyVote_report json voteDir vote EligibleTickets Votes fa)
    as [r' [Hr [Hj [Hst [Hn _]]]]].
  rewrite Hv in Hr. inversion Hr; subst r'. clear Hr.
  pose proof (countStat_fold (journals r) (printed (journals r))
                (workVotes (work (journals r)))) as Hfold.
  cbv zeta in Hfold. fold (countStats (journals r)) in Hfold.
  rewrite <- Hst in Hfold. simpl in Hfold.
  destruct Hfold as [F1 [F2 F3]].
  split; [exact F1|]. split.
  - intros t. split.
    + intros [v Hv']. destruct (F3 t v Hv') as [H1 [H2 _]]. auto.
    + intros [H1 H2]. rewrite (F2 t H1 H2). eauto.
  - assert (Hall : Forall (fun v => voteStat.failed v = 1%nat)
                          (map_to_list (failedVotes r)).*2).
    { apply Forall_forall. intros v Hin.
      apply list_elem_of_fmap in Hin. destruct Hin as [[t v'] [-> Hin]].
      apply elem_of_map_to_list in Hin.
      destruct (F3 t v' Hin) as [_ [_ ->]]. reflexivity. }
    destruct (countFailed_total (castSet Votes) _
                (mkCounters 0 0 0 (countStats (journals r)).2) Hall)
      as [T1 T2].
    cbv zeta in T1, T2.
    fold (countFailedVotes (castSet Votes) (failedVotes r)
                           (countStats (journals r)).2) in T1, T2.
    rewrite <- Hn in T1, T2. simpl in T1, T2.
    rewrite length_fmap, length_map_to_list in T1. split; lia.
Qed.

(** X19.  Reading journals only adds to the caches: whatever the files
    hold, and whether or not they decode, the tuples already filed under
    a key stay, in their order, in front of those a later file adds, so
    that the journals of several runs add up. *)
Theorem readJournals_keep_filed dir fa c k :
  default [] (failed c !! k)
  `prefix_of` default [] (failed (readJournals json dir fa c) !! k) /\
  default [] (success c !! k)
  `prefix_of` default [] (success (readJournals json dir fa c) !! k) /\
  default [] (work c !! k)
  `prefix_of` default [] (work (readJournals json dir fa c) !! k) /\
  printed c `prefix_of` printed (readJournals json dir fa c).
Proof.
  unfold readJournals. revert c.
  induction fa as [|entry fa IH]; intros c; simpl.
  - repeat split; reflexivity.
  - destruct (IH (readJournal json dir c entry)) as [H1 [H2 [H3 H4]]].
    destruct (readJournal_keeps json dir c entry k) as [R1 [R2 R3]].
    split; [etransitivity; eassumption|].
    split; [etransitivity; eassumption|].
    split; [etransitivity; eassumption|].
    etransitivity; [|exact H4].
    unfold readJournal.
    destruct (String.prefix failedJournal entry.1).
    { destruct (decodeFailed _ _ _) as [m [e|]]; simpl;
        [apply prefix_app_r|]; reflexivity. }
    destruct (String.prefix successJournal entry.1).
    { destruct (decodeSuccess _ _ _) as [m [e|]]; simpl;
        [apply prefix_app_r|]; reflexivity. }
    destruct (String.prefix workJournal entry.1).
    { destruct (decodeWork _ _ _) as [m [e|]]; simpl;
        [apply prefix_app_r|]; reflexivity. }
    destruct (String.eqb entry.1 ".voteresults"); simpl;
      [|apply prefix_app_r]; reflexivity.
Qed.

End MoreVerifierFacts.

(** [verifyVote_counts_unrecorded] on the example with one failed
    attempt: one key, counted once. *)
Lemma verifyVote_counts_unrecorded_witness :
  exists r,
    verifyJournals "votes" "c0ffee" true [exTicket] [exCast]
                   [exFailedFile; exWorkFile] = Ok r /\
    (completedNotRecorded (counts r) + failedVote (counts r)
     = size (failedVotes r))%nat.
Proof.
  destruct (verifyVote_report strictCodec "votes" "c0ffee" [exTicket] [exCast]
              [exFailedFile; exWorkFile]) as [r [Hr _]].
  exists r. split; [exact Hr|].
  exact (proj1 (proj2 (proj2
           (verifyVote_counts_unrecorded strictCodec "votes" "c0ffee"
              [exTicket] [exCast] [exFailedFile; exWorkFile] r Hr)))).
Defined.

(* ===================================================================== *)
(** ** The journal, continued                                            *)
(* ===================================================================== *)

Section MoreJournalFacts.

(** The loop returns no error exactly when none of its [Encode] calls
    fails. *)
Lemma encodeWork_none io work : forall k h fs,
  (encodeWork io k h work fs).2 = None <->
  forall j, (j < length work)%nat -> encodeFails io (k + j) = None.
Proof.
  induction work as [|v work IH]; intros k h fs; simpl.
  - split; [intros _ j Hj; lia | reflexivity].
  - destruct (encodeFails io k) as [e|] eqn:Ek; simpl.
    + split; [discriminate|]. intros H. specialize (H 0%nat).
      rewrite Nat.add_0_r, Ek in H. apply H. lia.
    + destruct (os.Write h v fs) as [fs' h']. rewrite IH. split.
      * intros H [|j] Hj; [rewrite Nat.add_0_r; exact Ek|].
        rewrite Nat.add_succ_r. apply (H j). lia.
      * intros H j Hj. specialize (H (S j)).
        rewrite Nat.add_succ_r in H. apply H. lia.
Qed.

(** The loop stops at the first [Encode] call that fails, with the
    values before it appended. *)
Lemma encodeWork_first_failure io work : forall k h fs f n e,
  Z.testbit (os.flag h) 10 = true ->
  os.files fs !! os.name h = Some f ->
  (n < length work)%nat ->
  (forall j, (j < n)%nat -> encodeFails io (k + j) = None) ->
  encodeFails io (k + n) = Some e ->
  encodeWork io k h work fs
  = (os.mkFS (os.dirs fs)
       (<[os.name h := os.mkFile (os.perm f) (os.content f ++ firstn n work)]>
          (os.files fs)),
     Some e).
Proof.
  induction work as [|v work IH]; intros k h fs f n e Hfl Hf Hn Hok He;
    simpl in Hn; [lia|].
  simpl. destruct n as [|n].
  - rewrite Nat.add_0_r in He. rewrite He. simpl.
    rewrite app_nil_r, File_eta, insert_id by exact Hf.
    rewrite FS_eta. reflexivity.
  - rewrite <- (Nat.add_0_r k), (Hok 0%nat) by lia.
    rewrite Nat.add_0_r.
    rewrite (Write_append h v fs f Hfl Hf).
    rewrite (IH (S k) _ _ (os.mkFile (os.perm f) (os.content f ++ [v])) n e).
    + simpl. rewrite insert_insert_eq, <- app_assoc. reflexivity.
    + exact Hfl.
    + simpl. apply lookup_insert_eq.
    + lia.
    + intros j Hj. specialize (Hok (S j)).
      rewrite Nat.add_succ_r in Hok. apply Hok. lia.
    + rewrite Nat.add_succ_r in He. exact He.
Qed.

(** The open succeeds unless the kernel refuses it or the directory is
    missing and cannot be made: a missing file is created. *)
Lemma journalOpen_fails voteDir run io filename token fs :
  (exists fs1 e, journalOpen voteDir run io filename token fs = (fs1, Fail e)) <->
  openDenied io <> None \/
  (os.dirs fs !! journalDir voteDir token = None /\ mkdirAllowed io = false).
Proof.
  unfold journalOpen, os.OpenFile, os.MkdirAll.
  destruct (openDenied io) as [d|].
  { split; [intros _; left; discriminate | intros _; eauto]. }
  destruct (os.dirs fs !! journalDir voteDir token) eqn:Ed.
  - rewrite Ed.
    destruct (os.files fs !! journalPath voteDir run filename token); simpl.
    + split; [intros [? [? H]]; discriminate | intros [H|[H _]]; congruence].
    + split; [intros [? [? H]]; discriminate | intros [H|[H _]]; congruence].
  - destruct (mkdirAllowed io); simpl.
    + rewrite lookup_insert_eq.
      destruct (os.files fs !! journalPath voteDir run filename token); simpl.
      * split; [intros [? [? H]]; discriminate | intros [H|[_ H]]; congruence].
      * split; [intros [? [? H]]; discriminate | intros [H|[_ H]]; congruence].
    + rewrite Ed. split; [auto | eauto].
Qed.

(** X20.  [jsonLog] returns no error exactly when the open is not
    refused, the vote directory exists or can be made, and none of the
    [Encode] calls, one for the time marker and one for each value of
    the payload, fails. *)
Theorem jsonLog_succeeds_iff voteDir run now io filename token work fs :
  (jsonLog voteDir run now io filename token work fs).2 = None <->
  openDenied io = None /\
  (os.dirs fs !! journalDir voteDir token <> None \/ mkdirAllowed io = true) /\
  (forall k, (k <= length work)%nat -> encodeFails io k = None).
Proof.
  pose proof (journalOpen_fails voteDir run io filename token fs) as Hopen.
  unfold jsonLog.
  destruct (journalOpen voteDir run io filename token fs) as [fs1 [fh|e]].
  - assert (Hok : openDenied io = None /\
                  (os.dirs fs !! journalDir voteDir token <> None \/
                   mkdirAllowed io = true)).
    { destruct (openDenied io) as [d|] eqn:Ed.
      - destruct (proj2 Hopen) as [? [? H]]; [left; discriminate | discriminate].
      - split; [reflexivity|].
        destruct (os.dirs fs !! journalDir voteDir token) eqn:Edir;
          [left; discriminate|].
        destruct (mkdirAllowed io) eqn:Em; [right; reflexivity|].
        destruct (proj2 Hopen) as [? [? H]]; [right; auto | discriminate]. }
    destruct (encodeFails io 0) as [e|] eqn:E0; simpl.
    + split; [discriminate|]. intros [_ [_ H]]. rewrite H in E0 by lia.
      discriminate.
    + destruct (os.Write fh (JTime (JSONTime.mk now)) fs1) as [fs2 fh2].
      rewrite encodeWork_none. split.
      * intros H. split; [apply Hok|]. split; [apply Hok|].
        intros [|k] Hk; [exact E0 | apply (H k); lia].
      * intros [_ [_ H]] j Hj. apply (H (S j)). lia.
  - simpl. split; [discriminate|]. intros [Hd [Hdir _]].
    destruct (proj1 Hopen) as [H|[H1 H2]]; [eauto | congruence |].
    destruct Hdir; congruence.
Qed.

(** X21.  When the open succeeds and the [Encode] call number [k] is the
    first that fails, [jsonLog] returns its error and leaves the file
    with the first [k] of the time marker and the payload appended: a
    tuple cut short, with the marker alone when the first payload value
    fails. *)
Theorem jsonLog_torn_append voteDir run now io filename token work fs k e :
  let p := journalPath voteDir run filename token in
  let out := jsonLog voteDir run now io filename token work fs in
  openDenied io = None ->
  (os.dirs fs !! journalDir voteDir token <> None \/ mkdirAllowed io = true) ->
  (k <= length work)%nat ->
  (forall j, (j < k)%nat -> encodeFails io j = None) ->
  encodeFails io k = Some e ->
  out.2 = Some e /\
  contentOf out.1 p
  = contentOf fs p ++ firstn k (JTime (JSONTime.mk now) :: work).
Proof.
  cbv zeta. intros Hd Hdir Hk Hok He.
  set (p := journalPath voteDir run filename token).
  pose proof (journalOpen_fails voteDir run io filename token fs) as Hopen.
  unfold jsonLog.
  destruct (journalOpen voteDir run io filename token fs) as [fs1 [fh|e']] eqn:Ho.
  - apply journalOpen_ok in Ho. cbv zeta in Ho. fold p in Ho.
    destruct Ho as [Hn [Hfl [_ Hfiles]]].
    destruct fh as [nm fl off]. simpl in Hn, Hfl. subst nm fl.
    assert (Hp : os.files fs1 !! p
                 = Some (os.mkFile (permAfter fs p) (contentOf fs p))).
    { rewrite Hfiles. unfold permAfter, contentOf.
      destruct (os.files fs !! p) as [f|] eqn:Ef.
      - rewrite Ef, File_eta. reflexivity.
      - apply lookup_insert_eq. }
    destruct k as [|k].
    + rewrite He. simpl. split; [reflexivity|].
      rewrite app_nil_r. unfold contentOf at 1. rewrite Hp. reflexivity.
    + rewrite (Hok 0%nat) by lia.
      rewrite (Write_append (os.mkHandle p journalFlag off) _ fs1 _
                            journalFlag_append Hp). simpl os.perm. simpl os.content.
      rewrite (encodeWork_first_failure io work 1
                 (os.mkHandle p journalFlag (S off)) _
                 (os.mkFile (permAfter fs p)
                            (contentOf fs p ++ [JTime (JSONTime.mk now)])) k e).
      * simpl. split; [reflexivity|]. unfold contentOf at 1. simpl.
        rewrite lookup_insert_eq. simpl. rewrite <- app_assoc. reflexivity.
      * apply journalFlag_append.
      * simpl. apply lookup_insert_eq.
      * lia.
      * intros j Hj. apply (Hok (S j)). lia.
      * exact He.
  - exfalso. destruct (proj1 Hopen) as [H|[H1 H2]]; [eauto | congruence |].
    destruct Hdir; congruence.
Qed.

End MoreJournalFacts.

(** [jsonLog_succeeds_iff] on the first append of a run to a fresh
    directory, in a world that lets every operation through. *)
Lemma jsonLog_succeeds_iff_witness :
  (jsonLog "votes" 1600000000 "Jan  1 00:00:00.000000000" ioOk
           successJournal "c0ffee" [JReply exReceipt] emptyFS).2 = None.
Proof.
  apply (proj2 (jsonLog_succeeds_iff "votes" 1600000000
                  "Jan  1 00:00:00.000000000" ioOk successJournal "c0ffee"
                  [JReply exReceipt] emptyFS)).
  split; [reflexivity|]. split; [right; reflexivity|]. reflexivity.
Defined.

(** [jsonLog_torn_append] when the disk fills up after the time marker
    of a failed vote: the marker stays in the file, alone. *)
Lemma jsonLog_torn_append_witness :
  let out := jsonLog "votes" 1600000000 "Jan  1 00:00:00.000000000" ioDiskFull
                     failedJournal "c0ffee"
                     [JBallot (CastBallot.mk [exVote]); JErrRetry exErrRetry]
                     emptyFS in
  out.2 = Some (Plain "no space left on device") /\
  contentOf out.1 "votes/c0ffee/failed.json.1600000000"
  = [JTime (JSONTime.mk "Jan  1 00:00:00.000000000")].
Proof.
  apply (jsonLog_torn_append "votes" 1600000000 "Jan  1 00:00:00.000000000"
           ioDiskFull failedJournal "c0ffee"
           [JBallot (CastBallot.mk [exVote]); JErrRetry exErrRetry]
           emptyFS 1 (Plain "no space left on device")).
  - reflexivity.
  - right. reflexivity.
  - simpl. lia.
  - intros [|j] Hj; [reflexivity | lia].
  - reflexivity.
Defined.

(* ===================================================================== *)
(** ** Writing a journal and reading it back                             *)
(* ===================================================================== *)

Section RoundTrip.

(** [enc] is what [json.Encoder.Encode] writes for a journal value, as
    the decoder of [json] sees it. *)
Context (json : codec) (enc : journalValue -> J json).

Lemma wholeSuccess_app a ta : wholeSuccess json a ta ->
  forall b tb, wholeSuccess json b tb -> wholeSuccess json (a ++ b) (ta ++ tb).
Proof.
  induction 1 as [|v1 v2 r t rp tl Ht Hr Htk Hw IH]; intros b tb Hb;
    [exact Hb|].
  simpl. constructor; auto.
Qed.

Lemma fileSuccess_snoc tl st m :
  fileSuccess (tl ++ [st]) m
  = (let ticket := CastVoteReply.Ticket (successTuple.Result st) in
     <[ticket := default [] (fileSuccess tl m !! ticket) ++ [st]]>
       (fileSuccess tl m)).
Proof. unfold fileSuccess. rewrite fold_left_app. reflexivity. Qed.

(** X22.  What the voter appends to the success journal, the verifier
    reads back.  When a reply decodes to what was encoded, a successful
    append of a reply to a success journal of whole tuples gives a
    journal that [decodeSuccess] reads without error, with one more
    tuple, the time of the append and the reply, filed last under the
    reply's ticket; when the reply names no ticket the decoder stops at
    it with "decode no ticket found", the earlier tuples filed. *)
Theorem success_journal_round_trip voteDir run now io token r fs tl m :
  let p := journalPath voteDir run successJournal token in
  let out := jsonLog voteDir run now io successJournal token [JReply r] fs in
  let file := inr (mkStream (map enc (contentOf out.1 p)) None) in
  asTime json (enc (JTime (JSONTime.mk now))) = inr (JSONTime.mk now) ->
  asReply json (enc (JReply r)) = inr r ->
  wholeSuccess json (map enc (contentOf fs p)) tl ->
  out.2 = None ->
  (CastVoteReply.Ticket r <> EmptyString ->
   decodeSuccess json file m
   = (fileSuccess (tl ++ [successTuple.mk (JSONTime.mk now) r]) m, None) /\
   exists older,
     fileSuccess (tl ++ [successTuple.mk (JSONTime.mk now) r]) m
       !! CastVoteReply.Ticket r
     = Some (older ++ [successTuple.mk (JSONTime.mk now) r])) /\
  (CastVoteReply.Ticket r = EmptyString ->
   decodeSuccess json file m = (fileSuccess tl m, Some DecodeNoTicket)).
Proof.
  cbv zeta. intros Ht Hr Hw Hnone.
  pose proof (jsonLog_ok_file voteDir run now io successJournal token
                [JReply r] fs Hnone) as Hfile.
  cbv zeta in Hfile.
  unfold contentOf. rewrite Hfile. simpl os.content.
  rewrite map_app. simpl map. unfold decodeSuccess. simpl values. simpl trailing.
  rewrite (successLoop_whole json _ _ Hw).
  split.
  - intros Htk. split.
    + simpl. rewrite Ht, Hr, (eqb_empty_false _ Htk). simpl.
      rewrite fileSuccess_snoc. reflexivity.
    + rewrite fileSuccess_snoc. simpl. rewrite lookup_insert_eq. eauto.
  - intros Htk. simpl. rewrite Ht, Hr, Htk. reflexivity.
Qed.

Lemma wholeFailed_app a ta : wholeFailed json a ta ->
  forall b tb, wholeFailed json b tb -> wholeFailed json (a ++ b) (ta ++ tb).
Proof.
  induction 1 as [|v1 v2 v3 r t vote e tl Ht Hb Htk He Hw IH]; intros b tb Hb';
    [exact Hb'|].
  simpl. constructor; auto.
Qed.

(** X23.  The failed journal has two kinds of entries.  A retried vote
    is appended as a ballot of the one vote and its retry error, and is
    read back as one more tuple.  The reply that ended the vote is
    appended alone: when, read as a ballot, it has no votes (or does not
    decode), [decodeFailed] stops at it with an error, the earlier
    tuples filed, so a failed journal that ends with it never decodes
    cleanly. *)
Theorem failed_journal_round_trip voteDir run now io token fs tl m :
  let p := journalPath voteDir run failedJournal token in
  let read fs' := decodeFailed json
                    (inr (mkStream (map enc (contentOf fs' p)) None)) m in
  asTime json (enc (JTime (JSONTime.mk now))) = inr (JSONTime.mk now) ->
  wholeFailed json (map enc (contentOf fs p)) tl ->
  (forall vote e,
     let b := CastBallot.mk [vote] in
     let out := jsonLog voteDir run now io failedJournal token
                        [JBallot b; JErrRetry e] fs in
     asBallot json (enc (JBallot b)) = inr b ->
     asErrRetry json (enc (JErrRetry e)) = inr e ->
     CastVote.Ticket vote <> EmptyString ->
     out.2 = None ->
     read out.1
     = (fileFailed (tl ++ [failedTuple.mk (JSONTime.mk now) b e]) m, None)) /\
  (forall vr,
     let out := jsonLog voteDir run now io failedJournal token [JReply vr] fs in
     (forall b, asBallot json (enc (JReply vr)) = inr b ->
                CastBallot.Votes b = []) ->
     out.2 = None ->
     exists err,
       read out.1 = (fileFailed tl m, Some err) /\
       (err = DecodeInvalidLength 0 \/ exists msg, err = DecodeCastVotes msg)).
Proof.
  cbv zeta. intros Ht Hw. split.
  - intros vote e Hb He Htk Hnone.
    pose proof (jsonLog_ok_file voteDir run now io failedJournal token
                  _ fs Hnone) as Hfile.
    cbv zeta in Hfile.
    unfold contentOf at 1. rewrite Hfile. simpl os.content.
    rewrite map_app. simpl map. unfold decodeFailed. simpl values. simpl trailing.
    rewrite (failedLoop_whole json _ _ Hw).
    simpl. rewrite Ht, Hb. simpl. rewrite He, (eqb_empty_false _ Htk).
    unfold fileFailed. rewrite fold_left_app. reflexivity.
  - intros vr Hb Hnone.
    pose proof (jsonLog_ok_file voteDir run now io failedJournal token
                  _ fs Hnone) as Hfile.
    cbv zeta in Hfile.
    unfold contentOf at 1. rewrite Hfile. simpl os.content.
    rewrite map_app. simpl map. unfold decodeFailed. simpl values. simpl trailing.
    rewrite (failedLoop_whole json _ _ Hw).
    simpl. rewrite Ht.
    destruct (asBallot json (enc (JReply vr))) as [msg|b] eqn:Eb.
    + eexists. split; [reflexivity|]. right. eauto.
    + rewrite (Hb b eq_refl). eexists. split; [reflexivity|]. left. reflexivity.
Qed.

End RoundTrip.

(** [success_journal_round_trip] on the first reply of a run, with the
    decoder that reads a value as the type it was written from. *)
Lemma success_journal_round_trip_witness :
  (decodeSuccess strictCodec
     (inr (mkStream
             (contentOf (jsonLog "votes" 1600000000 "Jan  1 00:00:00.000000000"
                                 ioOk successJournal "c0ffee"
                                 [JReply exReceipt] emptyFS).1
                        "votes/c0ffee/success.json.1600000000") None)) ∅).2
  = None.
Proof.
  destruct (success_journal_round_trip strictCodec (fun v => v)
              "votes" 1600000000 "Jan  1 00:00:00.000000000" ioOk "c0ffee"
              exReceipt emptyFS [] ∅) as [Hok _].
  - reflexivity.
  - reflexivity.
  - constructor.
  - reflexivity.
  - destruct Hok as [Hd _]; [vm_compute; discriminate|].
    rewrite map_id in Hd. exact (f_equal snd Hd).
Defined.

(** [failed_journal_round_trip] on the reply that ended the vote,
    appended to an empty failed journal: the decoder stops at it. *)
Lemma failed_journal_round_trip_witness :
  exists err,
    decodeFailed strictCodec
      (inr (mkStream
              (contentOf (jsonLog "votes" 1600000000 "Jan  1 00:00:00.000000000"
                                  ioOk failedJournal "c0ffee"
                                  [JReply exEndedReceipt] emptyFS).1
                         "votes/c0ffee/failed.json.1600000000") None)) ∅
    = (∅, Some err).
Proof.
  destruct (failed_journal_round_trip strictCodec (fun v => v)
              "votes" 1600000000 "Jan  1 00:00:00.000000000" ioOk "c0ffee"
              emptyFS [] ∅) as [_ Hended].
  - reflexivity.
  - constructor.
  - destruct (Hended exEndedReceipt) as [err [Hd _]].
    + intros b Hb. discriminate Hb.
    + reflexivity.
    + exists err. rewrite map_id in Hd. exact Hd.
Defined.

(* ===================================================================== *)
(** ** The [verify] command                                              *)
(* ===================================================================== *)

Section VerifyFacts.

Context (ReadDir : result (list string)) (verifyVote : string -> option error).

(** [hex.DecodeString] accepts exactly the strings of an even number of
    hexadecimal digits, the empty string among them. *)
Lemma isHexName_evenHex : forall n s,
  (String.length s < n)%nat -> isHexName s = evenHex s.
Proof.
  unfold isHexName, evenHex.
  induction n as [|n IH]; intros s Hlen; [lia|].
  destruct s as [|p [|q rest]].
  - reflexivity.
  - simpl. destruct (hex.fromHexChar p); reflexivity.
  - simpl hex.DecodeString. simpl allHex.
    change (Nat.even (String.length (String p (String q rest))))
      with (Nat.even (String.length rest)).
    destruct (hex.fromHexChar p); [|rewrite andb_false_r; reflexivity].
    destruct (hex.fromHexChar q); [|rewrite andb_false_r; reflexivity].
    specialize (IH rest). simpl in Hlen.
    destruct (hex.DecodeString rest); rewrite <- IH by lia; reflexivity.
Qed.

Lemma verified_app a b : verified (a ++ b) = verified a ++ verified b.
Proof. unfold verified. apply flat_map_app. Qed.

Lemma verified_each (names : list string) :
  verified (flat_map (fun name => if isHexName name
                                  then verifyOne verifyVote name else [])
                     names)
  = List.filter isHexName names.
Proof.
  induction names as [|a names IH]; [reflexivity|].
  simpl. rewrite verified_app, IH.
  destruct (isHexName a); [|reflexivity].
  unfold verifyOne. destruct (verifyVote a); reflexivity.
Qed.

Lemma verified_args (args : list string) :
  verified (verifyArgs verifyVote args) = List.filter isHexName args.
Proof.
  unfold verifyArgs.
  induction args as [|a args IH]; [reflexivity|].
  simpl. rewrite verified_app, IH.
  destruct (isHexName a); [|reflexivity].
  unfold verifyOne. destruct (verifyVote a); reflexivity.
Qed.

Lemma verified_names (names : list string) :
  verified (flat_map (fun name => if isHexName name then [VoteName name]
                                  else []) names) = [].
Proof.
  induction names as [|a names IH]; [reflexivity|].
  simpl. rewrite verified_app, IH. destruct (isHexName a); reflexivity.
Qed.

(** X24.  [verify] returns an error only when it has to read the vote
    directory, that is with no argument or with the one argument "ALL",
    and cannot; an error of [verifyVote] is printed and the next vote is
    verified.  The votes verified are, in order: none with no argument;
    with "ALL", the entries of the vote directory whose names are an
    even number of hexadecimal digits; otherwise the arguments that
    are. *)
Theorem verify_votes_with_hex_names args :
  let out := verify ReadDir verifyVote args in
  (forall err, out.2 = Some err <->
               ReadDir = Fail err /\ (args = [] \/ args = ["ALL"%string])) /\
  (out.2 = None ->
   verified out.1
   = match args with
     | [] => []
     | _ => List.filter evenHex
              (if decide (args = ["ALL"%string])
               then match ReadDir with Ok fa => fa | Fail _ => [] end
               else args)
     end).
Proof.
  assert (Hhex : forall l, List.filter isHexName l = List.filter evenHex l).
  { intros l. apply filter_ext. intros s.
    apply (isHexName_evenHex (S (String.length s))). lia. }
  cbv zeta. destruct args as [|a args].
  - simpl. destruct ReadDir as [fa|e]; simpl.
    + split; [intros err; split; [discriminate | intros [H _]; discriminate]|].
      intros _. rewrite verified_app, verified_names. reflexivity.
    + split; [|discriminate].
      intros err. split; [intros H; inversion H; auto | intros [H _]; inversion H; reflexivity].
  - unfold verify.
    destruct (Nat.eqb (length (a :: args)) 1
              && String.eqb (nth 0 (a :: args) EmptyString) "ALL") eqn:Eall.
    + apply andb_true_iff in Eall. destruct Eall as [Hlen Ha].
      apply Nat.eqb_eq in Hlen. apply String.eqb_eq in Ha. simpl in Ha, Hlen.
      destruct args; [|discriminate]. subst a.
      rewrite decide_True by reflexivity.
      destruct ReadDir as [fa|e]; simpl.
      * split; [intros err; split; [discriminate | intros [H _]; discriminate]|].
        intros _. rewrite verified_each. apply Hhex.
      * split; [|discriminate].
        intros err. split; [intros H; inversion H; auto | intros [H _]; inversion H; reflexivity].
    + assert (Hne : a :: args <> ["ALL"%string]).
      { intros H. inversion H; subst. discriminate Eall. }
      rewrite decide_False by exact Hne. cbn [fst snd].
      split.
      * intros err. split; [discriminate|].
        intros [_ [H|H]]; [discriminate | contradiction].
      * intros _. rewrite verified_args. apply Hhex.
Qed.

End VerifyFacts.

(** [verify_votes_with_hex_names] on three arguments, the second of an
    odd length, when every [verifyVote] fails: no error, and the first
    and the third are verified. *)
Lemma verify_votes_with_hex_names_witness :
  verified (verify (Fail (Plain "open votes: no such file or directory"))
                   (fun _ => Some (Plain "proposal vote not finished"))
                   ["c0ffee"; "abc"; "00ff"]%string).1
  = ["c0ffee"; "00ff"]%string.
Proof.
  refine (proj2 (verify_votes_with_hex_names
                   (Fail (Plain "open votes: no such file or directory"))
                   (fun _ => Some (Plain "proposal vote not finished"))
                   ["c0ffee"; "abc"; "00ff"]%string) _).
  reflexivity.
Defined.
